(** * vscode-stylint language server: a shallow embedding of [server.ts]

    The development follows the server source: the linter's report
    records and [makeDiagnostic], the per-document store of candidate
    fixes with the [Fixes] class, the code-action and execute-command
    handlers, [validate] / [validateSingle] with the error classifiers,
    the watched-files handler and the [BufferedMessageQueue].

    JavaScript numbers that the server handles (line and column numbers,
    byte offsets, document versions) are integers; they are modelled as
    [Z].  A JavaScript [Map] that is iterated is an association list in
    insertion order; a [Map] that is only looked up is a [gmap].  A value
    that may be [undefined] is an [option].  The module-level variables
    of the server are the fields of one [State] record that every handler
    takes and returns; a thrown exception is an explicit result.

    The file has two parts: the definitions, read off the source, and
    the properties proved of them, each followed by checks on a concrete
    session. *)

From stdpp Require Import strings gmap list sorting pretty.
From Stdlib Require Import ZArith Lia Ascii.

Local Open Scope Z_scope.

(** ** Linter report and candidate fixes *)

(** [interface StylintAutoFixEdit]: [range] is the pair of offsets
    [range[0]], [range[1]]. *)
Record StylintAutoFixEdit := mkEdit {
  range : Z * Z;
  text : string
}.

(** [interface StylintProblem]; the optional fields and [rule], which the
    code tests against [null], are options. *)
Record StylintProblem := mkProblem {
  line : Z;
  column : Z;
  severity : string;
  rule : option string;
  message : string;
  endLine : option Z;
  endColumn : option Z;
  fix_ : option StylintAutoFixEdit
}.

(** [interface AutoFix] *)
Record AutoFix := mkAutoFix {
  label : string;
  documentVersion : Z;
  ruleId : string;
  edit : StylintAutoFixEdit
}.

Definition range0 (f : AutoFix) : Z := fst (range (edit f)).
Definition range1 (f : AutoFix) : Z := snd (range (edit f)).

(** ** Diagnostics (the protocol library's types) *)

Module DiagnosticSeverity.
Inductive t := Error | Warning | Information | Hint.
End DiagnosticSeverity.

Module Position.
Record t := mk { line : Z; character : Z }.
End Position.

Module Range.
Record t := mk { start : Position.t; end_ : Position.t }.
End Range.

Module Diagnostic.
Record t := mk {
  message : string;
  severity : DiagnosticSeverity.t;
  source : string;
  range : Range.t;
  code : option string
}.
End Diagnostic.

Definition convertSeverity (severity : string) : DiagnosticSeverity.t :=
  if String.eqb severity "Warning" then DiagnosticSeverity.Warning
  else if String.eqb severity "Error" then DiagnosticSeverity.Error
  else DiagnosticSeverity.Error.

Definition makeDiagnostic (problem : StylintProblem) : Diagnostic.t :=
  let message' :=
    match rule problem with
    | Some r => message problem +:+ " (" +:+ r +:+ ")"
    | None => message problem
    end in
  let startLine := Z.max 0 (line problem - 1) in
  let startChar := Z.max 0 (column problem - 1) in
  let endLine' :=
    match endLine problem with
    | Some l => Z.max 0 (l - 1)
    | None => startLine
    end in
  let endChar :=
    match endColumn problem with
    | Some c => Z.max 0 (c - 1)
    | None => startChar
    end in
  {| Diagnostic.message := message';
     Diagnostic.severity := convertSeverity (severity problem);
     Diagnostic.source := "stylint";
     Diagnostic.range :=
       {| Range.start := Position.mk startLine startChar;
          Range.end_ := Position.mk endLine' endChar |};
     Diagnostic.code := rule problem |}.

(** [computeKey]: the template string prints the four numbers in decimal
    and an absent code as [undefined]. *)
Definition computeKey (diagnostic : Diagnostic.t) : string :=
  let range := Diagnostic.range diagnostic in
  "[" +:+ pretty (Position.line (Range.start range)) +:+ ","
      +:+ pretty (Position.character (Range.start range)) +:+ ","
      +:+ pretty (Position.line (Range.end_ range)) +:+ ","
      +:+ pretty (Position.character (Range.end_ range)) +:+ "]-"
      +:+ default "undefined" (Diagnostic.code diagnostic).

(** ** [Array.prototype.sort]

    The sort is the engine's, not the server's.  It is modelled as the
    insertion sort the engine runs on short arrays: every element in turn
    is moved left past the elements [tmp] of the sorted prefix with
    [comparefn(tmp, element) > 0].  The sorted prefix is kept reversed
    here, so that the scan from the right is a scan from the head.  The
    choice of algorithm shows only in the order of entries that the
    comparison function does not separate. *)
Section ArraySort.
Context {A : Type} (comparefn : A → A → Z).

Fixpoint insert_back (element : A) (rev_prefix : list A) : list A :=
  match rev_prefix with
  | [] => [element]
  | tmp :: rest =>
      if comparefn tmp element >? 0
      then tmp :: insert_back element rest
      else element :: rev_prefix
  end.

Definition array_sort (a : list A) : list A :=
  rev (fold_left (λ acc element, insert_back element acc) a []).
End ArraySort.

(** ** [class Fixes] *)
Module Fixes.

(** The constructor argument [edits : Map<string, AutoFix>], in
    insertion order. *)
Definition t := list (string * AutoFix).

Definition values (edits : t) : list AutoFix := edits.*2.

Fixpoint get (edits : t) (key : string) : option AutoFix :=
  match edits with
  | [] => None
  | (k, v) :: rest => if decide (k = key) then Some v else get rest key
  end.

(** [Map.prototype.set]: an existing key keeps its position. *)
Fixpoint set (edits : t) (key : string) (v : AutoFix) : t :=
  match edits with
  | [] => [(key, v)]
  | (k, w) :: rest =>
      if decide (k = key) then (k, v) :: rest else (k, w) :: set rest key v
  end.

(** [Fixes.overlaps]; [lastEdit] may be [undefined]. *)
Definition overlaps (lastEdit : option AutoFix) (newEdit : AutoFix) : bool :=
  match lastEdit with
  | None => false
  | Some lastEdit => range1 lastEdit >? range0 newEdit
  end.

Definition isEmpty (edits : t) : bool := (length edits =? 0)%nat.

(** [getDocumentVersion]; [None] is the thrown [Error]. *)
Definition getDocumentVersion (edits : t) : option Z :=
  if isEmpty edits then None
  else documentVersion <$> head (values edits).

Fixpoint getScoped (edits : t) (diagnostics : list Diagnostic.t)
  : list AutoFix :=
  match diagnostics with
  | [] => []
  | diagnostic :: diagnostics =>
      match get edits (computeKey diagnostic) with
      | Some editInfo => editInfo :: getScoped edits diagnostics
      | None => getScoped edits diagnostics
      end
  end.

(** The comparison function handed to [sort] in [getAllSorted]. *)
Definition compareEdits (a b : AutoFix) : Z :=
  let d := range0 a - range0 b in
  if negb (d =? 0) then d
  else if range1 a =? 0 then -1
  else if range1 b =? 0 then 1
  else range1 a - range1 b.

Definition getAllSorted (edits : t) : list AutoFix :=
  array_sort compareEdits (values edits).

(** The loop of [getOverlapFree] over [sorted[1..]]. *)
Fixpoint overlapFree_loop (last : AutoFix) (result rest : list AutoFix)
  : list AutoFix :=
  match rest with
  | [] => result
  | current :: rest =>
      if negb (overlaps (Some last) current)
      then overlapFree_loop current (result ++ [current]) rest
      else overlapFree_loop last result rest
  end.

(** The body of [getOverlapFree] after [sorted] is computed. *)
Definition overlapFreeOf (sorted : list AutoFix) : list AutoFix :=
  if (length sorted <=? 1)%nat then sorted
  else match sorted with
       | [] => []
       | first :: rest => overlapFree_loop first [first] rest
       end.

Definition getOverlapFree (edits : t) : list AutoFix :=
  overlapFreeOf (getAllSorted edits).

(** *** Specification vocabulary for the sorted and overlap-free lists *)

(** The order [getAllSorted] promises between an earlier entry [a] and a
    later entry [b]: start offsets ascend; at equal start offsets an end
    offset of 0 comes before every nonzero end offset, and otherwise end
    offsets ascend. *)
Definition sortsBefore (a b : AutoFix) : Prop :=
  range0 a < range0 b ∨
  (range0 a = range0 b ∧
   (range1 a = 0 ∨ (range1 b ≠ 0 ∧ range1 a ≤ range1 b))).

(** No earlier entry of [l] overlaps a later one. *)
Definition PairwiseNonOverlapping (l : list AutoFix) : Prop :=
  ∀ (i j : nat) (a b : AutoFix),
    (i < j)%nat → l !! i = Some a → l !! j = Some b →
    overlaps (Some a) b = false.

(** The greedy scan read off a prefix [pre] of the sorted list, and what
    it does with the entry [x] that follows [pre]: it appends [x]
    (accepted), or it leaves the result as it is (dropped). *)
Definition accepted (pre : list AutoFix) (x : AutoFix) : Prop :=
  overlapFreeOf (pre ++ [x]) = overlapFreeOf pre ++ [x].

Definition dropped (pre : list AutoFix) (x : AutoFix) : Prop :=
  overlapFreeOf (pre ++ [x]) = overlapFreeOf pre.

(** Left-greedy maximality of the scan over [sorted]: what was accepted
    from a prefix stays accepted, and an entry is dropped only when an
    entry accepted before it overlaps it. *)
Definition LeftGreedyMaximal (sorted : list AutoFix) : Prop :=
  ∀ (pre post : list AutoFix) (x : AutoFix),
    sorted = pre ++ x :: post →
    overlapFreeOf pre `prefix_of` overlapFreeOf sorted ∧
    overlapFreeOf (pre ++ [x]) `prefix_of` overlapFreeOf sorted ∧
    (accepted pre x ∨
     (dropped pre x ∧
      ∃ y, y ∈ overlapFreeOf pre ∧ overlaps (Some y) x = true)).

(** Every entry of [sorted] missing from [result] is overlapped by an
    entry of [result]. *)
Definition DroppedOverlapAccepted (sorted result : list AutoFix) : Prop :=
  ∀ x, x ∈ sorted → x ∉ result →
    ∃ y, y ∈ result ∧ overlaps (Some y) x = true.

(** The entries a greedy scan accepts from [rest] when [lastEdit] is the
    last entry accepted so far. *)
Fixpoint scanFrom (lastEdit : option AutoFix) (rest : list AutoFix)
  : list AutoFix :=
  match rest with
  | [] => []
  | current :: rest =>
      if overlaps lastEdit current then scanFrom lastEdit rest
      else current :: scanFrom (Some current) rest
  end.

(** Start offsets ascend from [a] to [b]. *)
Definition startsAscend (a b : AutoFix) : Prop := range0 a ≤ range0 b.

(** The state of the scan after a prefix: the last accepted entry. *)
Definition lastAfter (lastEdit : option AutoFix) (acc : list AutoFix)
  : option AutoFix :=
  match last acc with Some y => Some y | None => lastEdit end.

End Fixes.


(** ** Documents, edits and commands *)

Module CommandIds.
Definition applySingleFix : string := "stylint.applySingleFix".
Definition applySameFixes : string := "stylint.applySameFixes".
Definition applyAllFixes : string := "stylint.applyAllFixes".
Definition applyAutoFix : string := "stylint.applyAutoFix".
End CommandIds.

(** A [TextDocument] object of the documents manager.  The manager
    updates the object in place when the editor sends a change, so a
    message that holds the object sees its live [version]. *)
Module TextDocument.
Record t := mk { uri : string; version : Z; content : string }.
End TextDocument.

Module VersionedTextDocumentIdentifier.
Record t := mk { uri : string; version : Z }.
End VersionedTextDocumentIdentifier.

Module TextEdit.
Record t := mk { range : Range.t; newText : string }.
Definition replace (range : Range.t) (newText : string) : t := mk range newText.
End TextEdit.

(** A [WorkspaceChange] holding one text-edit change: the document
    identifier given to [getTextEditChange] and the edits added to it. *)
Module WorkspaceChange.
Record t := mk { uri : string; version : Z; edits : list TextEdit.t }.
End WorkspaceChange.

Module Command.
Record t := create { title : string; command : string }.
End Command.

Module CodeAction.
Record t := create { title : string; command : Command.t; kind : string }.
End CodeAction.

Module CodeActionKind.
Definition QuickFix : string := "quickfix".
End CodeActionKind.

(** ** Settings, the linter module and its outcomes *)

Inductive Status := ok | warn | error.

Inductive RunValues := onType | onSave.

Record DirectoryItem := mkDirectoryItem {
  directory : string;
  changeProcessCWD : bool
}.

Record WorkspaceFolder := mkWorkspaceFolder { folderUri : string }.

(** [class StylintModule]: the fields [validate] sets and reads. *)
Record StylintModule := mkModule {
  stylintExecPath : string;
  stylintrcPath : option string;
  jsonReporterPath : string
}.

(** [interface TextDocumentSettings]: the fields the validation path
    reads. *)
Record TextDocumentSettings := mkSettings {
  validate_ : bool;
  autoFix : bool;
  autoFixOnSave : bool;
  settingsStylintrcPath : option string;
  stylintJsonReporterPath : string;
  run : RunValues;
  workspaceFolder : option WorkspaceFolder;
  workingDirectory : option DirectoryItem;
  library : option StylintModule
}.

(** A thrown value, read as a [StylintError]. *)
Record StylintError := mkError {
  messageTemplate : option string;
  errorMessage : option string;
  stack : option string
}.

(** What [cli.validate] resolves to: something that is no array, or an
    array of per-file reports; [messages] that is no array is [None], and
    a [null] element of it is [None]. *)
Record StylintDocumentReport := mkReport {
  messages : option (list (option StylintProblem))
}.

Inductive Report :=
| NoArray
| ReportArray (reports : list StylintDocumentReport).

Inductive LinterOutcome :=
| Resolved (report : Report)
| Rejected (reason : StylintError).

(** ** Messages and the server state *)

Inductive Params :=
| ValidateParams (document : nat)
| CodeActionParams (textDocument : string) (diagnostics : list Diagnostic.t)
| ExecuteCommandParams (command : string)
    (arguments : list VersionedTextDocumentIdentifier.t)
| DidChangeWatchedFilesParams (changes : list string)
| NoParams.

(** The token of a request; the flag is what the token says when the
    message is taken from the queue. *)
Record CancellationToken := mkToken { isCancellationRequested : bool }.

(** [type Message]: a [Request] has a token and the [resolve] / [reject]
    pair of its promise, which [id] stands for. *)
Inductive Message :=
| Request (method : string) (params : Params) (documentVersion : option Z)
    (id : nat) (token : CancellationToken)
| Notification (method : string) (params : Params)
    (documentVersion : option Z).

(** What a request handler returns: a plain value, or the thenable of a
    sent [applyEdit] request. *)
Inductive Result :=
| CodeActions (actions : list CodeAction.t)
| EmptyObject
| ApplyEditThenable
| Void.

Inductive Outcome :=
| Returns (result : Result)
| Throws.

Inductive ErrorCodes := RequestCancelled.

(** What the server sends on the connection, and how it settles the
    promises of queued requests. *)
Inductive Output :=
| SendDiagnostics (uri : string) (diagnostics : list Diagnostic.t)
| SendStatus (state : Status)
| SendNoConfigRequest (message : string) (uri : string)
| ConsoleError (text : string)
| ShowInformationMessage (text : string)
| ShowErrorMessage (text : string)
| ApplyEdit (change : WorkspaceChange.t)
| Reject (id : nat) (code : ErrorCodes)
| Resolve (id : nat) (result : Result)
| ResolveWhenSettled (id : nat) (result : Result).

(** The module-level variables of the server, the objects of the
    documents manager, the queue's own fields and the process-wide
    working directory.  The three maps of reported errors hold the
    [library] in use, which may be [undefined]. *)
Record State := mkState {
  cwd : string;
  objects : nat → TextDocument.t;
  documents : list (string * nat);
  document2Settings : gmap string TextDocumentSettings;
  codeActions : gmap string Fixes.t;
  commands : option (gmap string WorkspaceChange.t);
  noConfigReported : gmap string (option StylintModule);
  configErrorReported : gmap string (option StylintModule);
  missingModuleReported : gmap string (option StylintModule);
  queue : list Message;
  timer : bool;
  output : list Output
}.

Definition with_cwd (v : string) (st : State) : State :=
  mkState v (objects st) (documents st) (document2Settings st)
    (codeActions st) (commands st) (noConfigReported st)
    (configErrorReported st) (missingModuleReported st) (queue st)
    (timer st) (output st).

Definition with_document2Settings (v : gmap string TextDocumentSettings)
  (st : State) : State :=
  mkState (cwd st) (objects st) (documents st) v
    (codeActions st) (commands st) (noConfigReported st)
    (configErrorReported st) (missingModuleReported st) (queue st)
    (timer st) (output st).

Definition with_codeActions (v : gmap string Fixes.t) (st : State) : State :=
  mkState (cwd st) (objects st) (documents st) (document2Settings st)
    v (commands st) (noConfigReported st)
    (configErrorReported st) (missingModuleReported st) (queue st)
    (timer st) (output st).

Definition with_commands (v : option (gmap string WorkspaceChange.t))
  (st : State) : State :=
  mkState (cwd st) (objects st) (documents st) (document2Settings st)
    (codeActions st) v (noConfigReported st)
    (configErrorReported st) (missingModuleReported st) (queue st)
    (timer st) (output st).

Definition with_noConfigReported (v : gmap string (option StylintModule))
  (st : State) : State :=
  mkState (cwd st) (objects st) (documents st) (document2Settings st)
    (codeActions st) (commands st) v
    (configErrorReported st) (missingModuleReported st) (queue st)
    (timer st) (output st).

Definition with_configErrorReported (v : gmap string (option StylintModule))
  (st : State) : State :=
  mkState (cwd st) (objects st) (documents st) (document2Settings st)
    (codeActions st) (commands st) (noConfigReported st)
    v (missingModuleReported st) (queue st)
    (timer st) (output st).

Definition with_missingModuleReported (v : gmap string (option StylintModule))
  (st : State) : State :=
  mkState (cwd st) (objects st) (documents st) (document2Settings st)
    (codeActions st) (commands st) (noConfigReported st)
    (configErrorReported st) v (queue st)
    (timer st) (output st).

Definition with_queue (v : list Message) (st : State) : State :=
  mkState (cwd st) (objects st) (documents st) (document2Settings st)
    (codeActions st) (commands st) (noConfigReported st)
    (configErrorReported st) (missingModuleReported st) v
    (timer st) (output st).

Definition with_timer (v : bool) (st : State) : State :=
  mkState (cwd st) (objects st) (documents st) (document2Settings st)
    (codeActions st) (commands st) (noConfigReported st)
    (configErrorReported st) (missingModuleReported st) (queue st)
    v (output st).

Definition send (o : Output) (st : State) : State :=
  mkState (cwd st) (objects st) (documents st) (document2Settings st)
    (codeActions st) (commands st) (noConfigReported st)
    (configErrorReported st) (missingModuleReported st) (queue st)
    (timer st) (output st ++ [o]).

(** [documents.get(uri)] and [documents.all()] *)
Fixpoint lookupDocument (documents : list (string * nat)) (uri : string)
  : option nat :=
  match documents with
  | [] => None
  | (k, r) :: rest =>
      if String.eqb k uri then Some r else lookupDocument rest uri
  end.

Definition documents_get (st : State) (uri : string) : option TextDocument.t :=
  objects st <$> lookupDocument (documents st) uri.

Definition documents_all (st : State) : list nat := (documents st).*2.

(** ** The platform

    What the server takes from Node, the protocol library and the linter
    process: path and URI functions, the regular expressions of the error
    classifiers (each returns the capture groups the code reads), the
    settings the client resolves for a document, and the linter run.  The
    linter run is awaited: other work of the server may run before it
    settles, so it takes the state at the call and returns the state at
    the time it settles together with the result. *)
Class Platform := {
  positionAt : TextDocument.t → Z → Position.t;
  fileSchemePath : string → option string;
  isUNC : string → bool;
  dirname : string → string;
  joinPath : string → string → string;
  fileUri : string → string;
  directoryExists : string → bool;
  chdirError : string → StylintError;
  typeError : StylintError;
  getConfiguration : string → TextDocumentSettings;
  awaitLinter : StylintModule → option string → State → State * LinterOutcome;
  validateThrows : StylintModule → string → bool;
  matchCannotReadConfig : string → option string;
  matchRuleConfiguration : string → option string;
  matchReferencedFrom : string → option string;
  matchFailedToLoadPlugin : string → option (string * string)
}.


(** * The server over a platform *)
Section Server.
Context `{Platform}.

(** ** The handlers that read the fix store *)

(** JavaScript truthiness of a string that may be [undefined]. *)
Definition truthy (s : option string) : bool :=
  match s with
  | Some s => negb (String.eqb s EmptyString)
  | None => false
  end.

(** [getFilePath]: a URI string on the left, a document on the right. *)
Definition getFilePath (documentOrUri : string + TextDocument.t)
  : option string :=
  match documentOrUri with
  | inl uri => if String.eqb uri EmptyString then None else fileSchemePath uri
  | inr document => fileSchemePath (TextDocument.uri document)
  end.

(** The [createTextEdit] closures; [text || ''] of a string is the
    string. *)
Definition createTextEdit (textDocument : TextDocument.t) (editInfo : AutoFix)
  : TextEdit.t :=
  TextEdit.replace
    (Range.mk (positionAt textDocument (range0 editInfo))
              (positionAt textDocument (range1 editInfo)))
    (text (edit editInfo)).

Definition recordCodeAction (document : TextDocument.t)
  (diagnostic : Diagnostic.t) (problem : StylintProblem) (st : State) : State :=
  match fix_ problem with
  | Some fix' =>
      if truthy (rule problem) then
        let rule' := default EmptyString (rule problem) in
        let uri := TextDocument.uri document in
        let edits := default [] (codeActions st !! uri) in
        with_codeActions
          (<[uri :=
              Fixes.set edits (computeKey diagnostic)
                {| label := "Fix this " +:+ rule' +:+ " problem";
                   documentVersion := TextDocument.version document;
                   ruleId := rule';
                   edit := fix' |}]> (codeActions st)) st
      else st
  | None => st
  end.

(** The variables the loop over the scoped fixes assigns. *)
Record ScopedLoop := mkScopedLoop {
  loopDocumentVersion : Z;
  loopRuleId : option string;
  loopCommands : gmap string WorkspaceChange.t;
  loopResult : list CodeAction.t
}.

(** One turn of [for (let editInfo of fixes.getScoped(...))]; [None] is
    the [TypeError] of [textDocument.positionAt] on a document that is
    not open. *)
Definition scopedStep (uri : string) (textDocument : option TextDocument.t)
  (acc : ScopedLoop) (editInfo : AutoFix) : option ScopedLoop :=
  match textDocument with
  | None => None
  | Some document =>
      Some {|
        loopDocumentVersion := documentVersion editInfo;
        loopRuleId := Some (ruleId editInfo);
        loopCommands :=
          <[CommandIds.applySingleFix :=
              WorkspaceChange.mk uri (documentVersion editInfo)
                [createTextEdit document editInfo]]> (loopCommands acc);
        loopResult :=
          loopResult acc ++
          [CodeAction.create (label editInfo)
             (Command.create (label editInfo) CommandIds.applySingleFix)
             CodeActionKind.QuickFix] |}
  end.

Fixpoint forEachM {A B : Type} (f : B → A → option B) (acc : B) (l : list A)
  : option B :=
  match l with
  | [] => Some acc
  | x :: l =>
      match f acc x with
      | Some acc => forEachM f acc l
      | None => None
      end
  end.

(** One turn of [for (let editInfo of fixes.getAllSorted())] over
    [documentVersion], [same] and [all]; [getLastEdit] is [last]. *)
Definition bulkStep (ruleId' : option string)
  (acc : Z * list AutoFix * list AutoFix) (editInfo : AutoFix)
  : Z * list AutoFix * list AutoFix :=
  let '(documentVersion', same, all) := acc in
  let documentVersion' :=
    if documentVersion' =? -1 then documentVersion editInfo
    else documentVersion' in
  let same :=
    if bool_decide (Some (ruleId editInfo) = ruleId')
       && negb (Fixes.overlaps (last same) editInfo)
    then same ++ [editInfo] else same in
  let all :=
    if negb (Fixes.overlaps (last all) editInfo)
    then all ++ [editInfo] else all in
  (documentVersion', same, all).

Definition bulkLoop (ruleId' : option string) (documentVersion' : Z)
  (sorted : list AutoFix) : Z * list AutoFix * list AutoFix :=
  fold_left (bulkStep ruleId') sorted (documentVersion', [], []).

Definition sameFixesTitle (ruleId' : option string) : string :=
  "Fix all " +:+ default "undefined" ruleId' +:+ " problems".

Definition allFixesTitle : string := "Fix all auto-fixable problems".

(** The block under [if (result.length > 0)]. *)
Definition bulkActions (uri : string) (document : TextDocument.t)
  (scoped : ScopedLoop) (sorted : list AutoFix)
  : gmap string WorkspaceChange.t * list CodeAction.t :=
  let '(documentVersion', same, all) :=
    bulkLoop (loopRuleId scoped) (loopDocumentVersion scoped) sorted in
  let '(commands1, result1) :=
    if (1 <? length same)%nat then
      let title := sameFixesTitle (loopRuleId scoped) in
      (<[CommandIds.applySameFixes :=
           WorkspaceChange.mk uri documentVersion'
             (createTextEdit document <$> same)]> (loopCommands scoped),
       loopResult scoped ++
       [CodeAction.create title
          (Command.create title CommandIds.applySameFixes)
          CodeActionKind.QuickFix])
    else (loopCommands scoped, loopResult scoped) in
  if (1 <? length all)%nat then
    (<[CommandIds.applyAllFixes :=
         WorkspaceChange.mk uri documentVersion'
           (createTextEdit document <$> all)]> commands1,
     result1 ++
     [CodeAction.create allFixesTitle
        (Command.create allFixesTitle CommandIds.applyAllFixes)
        CodeActionKind.QuickFix])
  else (commands1, result1).

(** The handler registered for [CodeActionRequest]. *)
Definition codeActionHandler (params : Params) (st : State) : State * Outcome :=
  match params with
  | CodeActionParams uri diagnostics =>
      let st := with_commands (Some ∅) st in
      match codeActions st !! uri with
      | None => (st, Returns (CodeActions []))
      | Some edits =>
          if Fixes.isEmpty edits then (st, Returns (CodeActions []))
          else
            let textDocument := documents_get st uri in
            match forEachM (scopedStep uri textDocument)
                    (mkScopedLoop (-1) None ∅ [])
                    (Fixes.getScoped edits diagnostics) with
            | None => (st, Throws)
            | Some scoped =>
                if (0 <? length (loopResult scoped))%nat then
                  match textDocument with
                  | None => (st, Throws)
                  | Some document =>
                      let '(commands', result) :=
                        bulkActions uri document scoped
                          (Fixes.getAllSorted edits) in
                      (with_commands (Some commands') st,
                       Returns (CodeActions result))
                  end
                else
                  (with_commands (Some (loopCommands scoped)) st,
                   Returns (CodeActions (loopResult scoped)))
            end
      end
  | _ => (st, Throws)
  end.

Definition codeActionVersion (params : Params) (st : State) : option Z :=
  match params with
  | CodeActionParams uri _ => TextDocument.version <$> documents_get st uri
  | _ => None
  end.

Definition computeAllFixes (identifier : VersionedTextDocumentIdentifier.t)
  (st : State) : option (list TextEdit.t) :=
  let uri := VersionedTextDocumentIdentifier.uri identifier in
  match documents_get st uri with
  | None => None
  | Some textDocument =>
      if negb (VersionedTextDocumentIdentifier.version identifier
               =? TextDocument.version textDocument)
      then None
      else
        match codeActions st !! uri with
        | Some edits =>
            if negb (Fixes.isEmpty edits)
            then Some (createTextEdit textDocument <$> Fixes.getOverlapFree edits)
            else None
        | None => None
        end
  end.

(** The [workspaceChange] the execute-command handler ends up with; the
    outer [None] is a [TypeError] (no first argument, or [commands] still
    [undefined]). *)
Definition commandWorkspaceChange (command : string)
  (arguments : list VersionedTextDocumentIdentifier.t) (st : State)
  : option (option WorkspaceChange.t) :=
  if String.eqb command CommandIds.applyAutoFix then
    match head arguments with
    | None => None
    | Some identifier =>
        Some (match computeAllFixes identifier st with
              | Some edits =>
                  Some (WorkspaceChange.mk
                          (VersionedTextDocumentIdentifier.uri identifier)
                          (VersionedTextDocumentIdentifier.version identifier)
                          edits)
              | None => None
              end)
    end
  else
    match commands st with
    | None => None
    | Some commands' => Some (commands' !! command)
    end.

(** The handler registered for [ExecuteCommandRequest]. *)
Definition executeCommandHandler (params : Params) (st : State)
  : State * Outcome :=
  match params with
  | ExecuteCommandParams command arguments =>
      match commandWorkspaceChange command arguments st with
      | None => (st, Throws)
      | Some None => (st, Returns EmptyObject)
      | Some (Some workspaceChange) =>
          (send (ApplyEdit workspaceChange) st, Returns ApplyEditThenable)
      end
  | _ => (st, Throws)
  end.

Definition executeCommandVersion (params : Params) (st : State) : option Z :=
  match params with
  | ExecuteCommandParams command arguments =>
      if String.eqb command CommandIds.applyAutoFix
      then VersionedTextDocumentIdentifier.version <$> head arguments
      else None
  | _ => None
  end.

(** ** Validation *)

(** [process.chdir]: it throws, and leaves the working directory as it
    is, when the directory does not exist.  [Some e] is the thrown
    value. *)
Definition chdir (directory : string) (st : State)
  : State * option StylintError :=
  if directoryExists directory then (with_cwd directory st, None)
  else (st, Some (chdirError directory)).

(** The [if (file) { ... }] block of [validate]. *)
Definition changeDirectory (file : option string)
  (settings : TextDocumentSettings) (st : State)
  : State * option StylintError :=
  if truthy file then
    match workingDirectory settings with
    | Some item =>
        if changeProcessCWD item then chdir (directory item) st
        else (st, None)
    | None =>
        match workspaceFolder settings with
        | Some folder =>
            match fileSchemePath (folderUri folder) with
            | Some fsPath => chdir fsPath st
            | None => (st, None)
            end
        | None => (st, None)
        end
    end
  else (st, None).

(** The [try] block up to the awaited call: the linter module to call
    and the state it is called in, or the thrown value. *)
Definition validatePrepare (uri : string) (file : option string)
  (settings : TextDocumentSettings) (st : State)
  : State * (StylintModule + StylintError) :=
  match changeDirectory file settings st with
  | (st, Some thrown) => (st, inr thrown)
  | (st, None) =>
      match library settings with
      | None => (st, inr typeError)
      | Some cli =>
          let cli :=
            mkModule (stylintExecPath cli) (settingsStylintrcPath settings)
              (stylintJsonReporterPath settings) in
          (with_codeActions (delete uri (codeActions st)) st, inl cli)
      end
  end.

(** The messages [validate] walks: those of a report that is an array
    of exactly one element whose [messages] is an array. *)
Definition reportMessages (report : Report) : list (option StylintProblem) :=
  match report with
  | ReportArray [docReport] => default [] (messages docReport)
  | _ => []
  end.

(** One turn of [docReport.messages.forEach]; [document] is read when
    the fix is recorded. *)
Definition problemStep (document : nat) (settings : TextDocumentSettings)
  (acc : list Diagnostic.t * State) (problem : option StylintProblem)
  : list Diagnostic.t * State :=
  match problem with
  | Some problem =>
      let diagnostic := makeDiagnostic problem in
      (acc.1 ++ [diagnostic],
       if autoFix settings
       then recordCodeAction (objects acc.2 document) diagnostic problem acc.2
       else acc.2)
  | None => acc
  end.

(** The [try] block after the awaited call. *)
Definition validateFinish (document : nat) (uri : string)
  (settings : TextDocumentSettings) (publishDiagnostics : bool)
  (settled : State * LinterOutcome) : State * option StylintError :=
  match settled with
  | (st, Rejected reason) => (st, Some reason)
  | (st, Resolved report) =>
      let '(diagnostics, st) :=
        fold_left (problemStep document settings) (reportMessages report)
          ([], st) in
      (if publishDiagnostics then send (SendDiagnostics uri diagnostics) st
       else st, None)
  end.

Definition validateTry (document : nat) (uri : string) (file : option string)
  (settings : TextDocumentSettings) (publishDiagnostics : bool) (st : State)
  : State * option StylintError :=
  match validatePrepare uri file settings st with
  | (st, inr thrown) => (st, Some thrown)
  | (st, inl cli) =>
      validateFinish document uri settings publishDiagnostics
        (awaitLinter cli file st)
  end.

(** [validate]: the [try] block, then the [finally] block.  [Some e] is
    the rejection of the returned promise; a throw in [finally] replaces
    the completion of the [try] block. *)
Definition validate (document : nat) (settings : TextDocumentSettings)
  (publishDiagnostics : bool) (st : State) : State * option StylintError :=
  let uri := TextDocument.uri (objects st document) in
  let file := getFilePath (inr (objects st document)) in
  let cwd' := cwd st in
  let '(st, completion) :=
    validateTry document uri file settings publishDiagnostics st in
  if negb (String.eqb cwd' (cwd st)) then
    match chdir cwd' st with
    | (st, Some thrown) => (st, Some thrown)
    | (st, None) => (st, completion)
    end
  else (st, completion).

(** ** Error classifiers *)

(** [result.replace(/\r?\n/g, ' ')] *)
Fixpoint replaceNewlines (s : string) : string :=
  match s with
  | EmptyString => EmptyString
  | String "013"%char (String "010"%char rest) =>
      String " "%char (replaceNewlines rest)
  | String "010"%char rest => String " "%char (replaceNewlines rest)
  | String c rest => String c (replaceNewlines rest)
  end.

Definition getMessage (err : StylintError) (document : TextDocument.t)
  : string :=
  match errorMessage err with
  | Some result =>
      let result := replaceNewlines result in
      if String.prefix "CLI: " result
      then String.substring 5 (String.length result - 5)%nat result
      else result
  | None =>
      "An unknown error occurred while validating document: "
      +:+ TextDocument.uri document
  end.

Definition isNoConfigFoundError (candidate : StylintError) : bool :=
  bool_decide (messageTemplate candidate = Some "no-config-found")
  || bool_decide (errorMessage candidate
                  = Some "No Stylint configuration found.").

Definition has {V : Type} (m : gmap string V) (key : string) : bool :=
  bool_decide (is_Some (m !! key)).

Definition tryHandleNoConfig (err : StylintError) (document : TextDocument.t)
  (library' : option StylintModule) (st : State) : State * option Status :=
  if negb (isNoConfigFoundError err) then (st, None)
  else
    (if negb (has (noConfigReported st) (TextDocument.uri document)) then
       let st :=
         send (SendNoConfigRequest (getMessage err document)
                 (TextDocument.uri document)) st in
       with_noConfigReported
         (<[TextDocument.uri document := library']> (noConfigReported st)) st
     else st,
     Some warn).

(** [handleFileName] of [tryHandleConfigError] *)
Definition handleFileName (err : StylintError) (document : TextDocument.t)
  (library' : option StylintModule) (filename : string) (st : State)
  : State * option Status :=
  (if negb (has (configErrorReported st) filename) then
     let st := send (ConsoleError (getMessage err document)) st in
     let st :=
       match documents_get st (fileUri filename) with
       | None => send (ShowInformationMessage (getMessage err document)) st
       | Some _ => st
       end in
     with_configErrorReported
       (<[filename := library']> (configErrorReported st)) st
   else st,
   Some warn).

Definition tryHandleConfigError (err : StylintError)
  (document : TextDocument.t) (library' : option StylintModule) (st : State)
  : State * option Status :=
  if negb (truthy (errorMessage err)) then (st, None)
  else
    let text' := default EmptyString (errorMessage err) in
    match matchCannotReadConfig text' with
    | Some filename => handleFileName err document library' filename st
    | None =>
        match matchRuleConfiguration text' with
        | Some filename => handleFileName err document library' filename st
        | None =>
            match matchReferencedFrom text' with
            | Some filename =>
                handleFileName err document library' filename st
            | None => (st, None)
            end
        end
    end.

Definition newline : string := String "010"%char EmptyString.

Definition joinLines (lines : list string) : string :=
  match lines with
  | [] => EmptyString
  | first :: rest => fold_left (λ acc l, acc +:+ newline +:+ l) rest first
  end.

(** The text [handleMissingModule] logs. *)
Definition missingModuleText (err : StylintError) (document : TextDocument.t)
  (module' : string) : string :=
  let fsPath := getFilePath (inr document) in
  let place :=
    if truthy fsPath then default EmptyString fsPath
    else TextDocument.uri document in
  let text' := default EmptyString (errorMessage err) in
  if bool_decide (messageTemplate err = Some "plugin-missing") then
    joinLines
      [ EmptyString;
        text';
        "Happened while validating " +:+ place;
        "This can happen for a couple of reasons:";
        "1. The plugin name is spelled incorrectly in an Stylint configuration file (e.g. .stylintrc).";
        "2. If Stylint is installed globally, then make sure " +:+ module'
          +:+ " is installed globally as well.";
        "3. If Stylint is installed locally, then " +:+ module'
          +:+ " isn't installed correctly.";
        EmptyString;
        "Consider running stylint --debug " +:+ place
          +:+ " from a terminal to obtain a trace about the configuration files used." ]
  else
    joinLines [ text'; "Happened while validating " +:+ place ].

Definition tryHandleMissingModule (err : StylintError)
  (document : TextDocument.t) (library' : option StylintModule) (st : State)
  : State * option Status :=
  if negb (truthy (errorMessage err)) then (st, None)
  else
    match matchFailedToLoadPlugin (default EmptyString (errorMessage err)) with
    | Some (plugin, module') =>
        (if negb (has (missingModuleReported st) plugin) then
           let st :=
             with_missingModuleReported
               (<[plugin := library']> (missingModuleReported st)) st in
           send (ConsoleError (missingModuleText err document module')) st
         else st,
         Some warn)
    | None => (st, None)
    end.

Definition showErrorMessage (err : StylintError) (document : TextDocument.t)
  (library' : option StylintModule) (st : State) : State * option Status :=
  let st :=
    send (ShowErrorMessage
            ("Stylint: " +:+ getMessage err document
             +:+ ". Please see the 'Stylint' output channel for details."))
      st in
  (match stack err with
   | Some trace =>
       send (ConsoleError trace) (send (ConsoleError "Stylint stack trace:") st)
   | None => st
   end,
   Some error).

Definition singleErrorHandlers
  : list (StylintError → TextDocument.t → option StylintModule → State
          → State * option Status) :=
  [tryHandleNoConfig; tryHandleConfigError; tryHandleMissingModule;
   showErrorMessage].

(** The [for (let handler of singleErrorHandlers)] loop with its
    [break]. *)
Fixpoint runErrorHandlers
  (handlers : list (StylintError → TextDocument.t → option StylintModule
                    → State → State * option Status))
  (reason : StylintError) (document : TextDocument.t)
  (library' : option StylintModule) (st : State) : State * option Status :=
  match handlers with
  | [] => (st, None)
  | handler :: handlers =>
      match handler reason document library' st with
      | (st, Some status) => (st, Some status)
      | (st, None) => runErrorHandlers handlers reason document library' st
      end
  end.

(** [resolveSettings]: the cached settings of the document, or those the
    client resolves, which are then cached. *)
Definition resolveSettings (uri : string) (st : State)
  : TextDocumentSettings * State :=
  match document2Settings st !! uri with
  | Some settings => (settings, st)
  | None =>
      let settings := getConfiguration uri in
      (settings,
       with_document2Settings (<[uri := settings]> (document2Settings st)) st)
  end.

(** [validateSingle], run to the end of the chain of promises it
    starts. *)
Definition validateSingle (document : nat) (publishDiagnostics : bool)
  (st : State) : State :=
  let uri := TextDocument.uri (objects st document) in
  match documents_get st uri with
  | None => st
  | Some _ =>
      let '(settings, st) := resolveSettings uri st in
      if negb (validate_ settings) then st
      else
        match validate document settings publishDiagnostics st with
        | (st, None) => send (SendStatus ok) st
        | (st, Some reason) =>
            let '(st, status) :=
              runErrorHandlers singleErrorHandlers reason
                (objects st document) (library settings) st in
            send (SendStatus (default error status)) st
        end
  end.

(** ** [class BufferedMessageQueue] *)

(** An entry of [requestHandlers] or [notificationHandlers].  A handler
    works on the whole server state: it may add messages to the queue. *)
Record Registered := mkRegistered {
  handler : Params → State → State * Outcome;
  versionProvider : option (Params → State → option Z)
}.

(** [trigger]: arm the [setImmediate] timer unless it is armed or the
    queue is empty. *)
Definition trigger (st : State) : State :=
  if timer st || (length (queue st) =? 0)%nat then st
  else with_timer true st.

Definition addNotificationMessage (method : string) (params : Params)
  (version : Z) (st : State) : State :=
  trigger (with_queue (queue st ++ [Notification method params (Some version)]) st).

(** The version test of [processQueue]:
    [elem.versionProvider && documentVersion !== void 0 &&
     documentVersion !== elem.versionProvider(params)]. *)
Definition versionChanged (elem : Registered) (documentVersion : option Z)
  (params : Params) (st : State) : bool :=
  match versionProvider elem, documentVersion with
  | Some provider, Some recorded =>
      negb (bool_decide (Some recorded = provider params st))
  | _, _ => false
  end.

Definition isThenable (result : Result) : bool :=
  match result with
  | ApplyEditThenable => true
  | _ => false
  end.

(** [processQueue].  A method without a registered entry makes
    [elem.versionProvider] a [TypeError], and a handler may throw: in both
    cases the exception leaves [processQueue]. *)
Definition processQueue (requestHandlers notificationHandlers
    : gmap string Registered) (st : State) : State :=
  match queue st with
  | [] => st
  | message :: rest =>
      let st := with_queue rest st in
      match message with
      | Request method params documentVersion id token =>
          if isCancellationRequested token
          then send (Reject id RequestCancelled) st
          else
            match requestHandlers !! method with
            | None => st
            | Some elem =>
                if versionChanged elem documentVersion params st
                then send (Reject id RequestCancelled) st
                else
                  match handler elem params st with
                  | (st, Throws) => st
                  | (st, Returns result) =>
                      trigger
                        (send (if isThenable result
                               then ResolveWhenSettled id result
                               else Resolve id result) st)
                  end
            end
      | Notification method params documentVersion =>
          match notificationHandlers !! method with
          | None => st
          | Some elem =>
              if versionChanged elem documentVersion params st then st
              else
                match handler elem params st with
                | (st, Throws) => st
                | (st, Returns _) => trigger st
                end
          end
      end
  end.

(** The callback [trigger] hands to [setImmediate]. *)
Definition immediateCallback (requestHandlers notificationHandlers
    : gmap string Registered) (st : State) : State :=
  processQueue requestHandlers notificationHandlers (with_timer false st).

(** The event loop with no further input: the armed timer fires, up to
    [fuel] times. *)
Fixpoint drain (requestHandlers notificationHandlers : gmap string Registered)
  (fuel : nat) (st : State) : State :=
  match fuel with
  | O => st
  | S fuel =>
      if timer st
      then drain requestHandlers notificationHandlers fuel
             (immediateCallback requestHandlers notificationHandlers st)
      else st
  end.

(** ** The registered handlers *)

Definition validateMethod : string := "stylint/validate".

Definition validateMany (documents' : list nat) (st : State) : State :=
  fold_left
    (λ st document,
       addNotificationMessage validateMethod (ValidateParams document)
         (TextDocument.version (objects st document)) st)
    documents' st.

Definition environmentChanged (st : State) : State :=
  let st := with_document2Settings ∅ st in
  fold_left
    (λ st document,
       addNotificationMessage validateMethod (ValidateParams document)
         (TextDocument.version (objects st document)) st)
    (documents_all st) st.

(** The handler and the version provider given to
    [messageQueue.onNotification(ValidateNotification.type, ...)]; the
    validation the handler starts is run to its end. *)
Definition validateNotificationHandler (params : Params) (st : State)
  : State * Outcome :=
  match params with
  | ValidateParams document => (validateSingle document true st, Returns Void)
  | _ => (st, Throws)
  end.

Definition validateVersion (params : Params) (st : State) : option Z :=
  match params with
  | ValidateParams document => Some (TextDocument.version (objects st document))
  | _ => None
  end.

(** One turn of [params.changes.forEach] in the watched-files handler. *)
Definition watchedChange (st : State) (changeUri : string) : State :=
  match getFilePath (inl changeUri) with
  | None => st
  | Some fsPath =>
      if String.eqb fsPath EmptyString || isUNC fsPath then st
      else if negb (String.eqb (dirname fsPath) EmptyString) then
        match configErrorReported st !! fsPath with
        | Some (Some cli) =>
            if validateThrows cli (joinPath (dirname fsPath) "*.styl") then st
            else
              with_configErrorReported
                (delete fsPath (configErrorReported st)) st
        | _ => st
        end
      else st
  end.

(** The handler registered for [DidChangeWatchedFilesNotification]. *)
Definition didChangeWatchedFilesHandler (params : Params) (st : State)
  : State * Outcome :=
  match params with
  | DidChangeWatchedFilesParams changes =>
      let st := with_noConfigReported ∅ st in
      let st := with_missingModuleReported ∅ st in
      let st := fold_left watchedChange changes st in
      (validateMany (documents_all st) st, Returns Void)
  | _ => (st, Throws)
  end.

Definition environmentChangedHandler (params : Params) (st : State)
  : State * Outcome :=
  (environmentChanged st, Returns Void).

Definition notificationHandlers : gmap string Registered :=
  <[validateMethod :=
      mkRegistered validateNotificationHandler (Some validateVersion)]>
  (<["workspace/didChangeWatchedFiles" :=
      mkRegistered didChangeWatchedFilesHandler None]>
  (<["workspace/didChangeWorkspaceFolders" :=
      mkRegistered environmentChangedHandler None]>
  (<["workspace/didChangeConfiguration" :=
      mkRegistered environmentChangedHandler None]> ∅))).

Definition requestHandlers : gmap string Registered :=
  <["workspace/executeCommand" :=
      mkRegistered executeCommandHandler (Some executeCommandVersion)]>
  (<["textDocument/codeAction" :=
      mkRegistered codeActionHandler (Some codeActionVersion)]> ∅).

End Server.


(** ** Vocabulary for the statements about handlers *)

(** [result] holds a code action that runs [command']. *)
Definition offers (command' : string) (result : list CodeAction.t) : Prop :=
  ∃ action, action ∈ result ∧
    Command.command (CodeAction.command action) = command'.

(** The edits of the workspace change stored under [command'] in
    [commands]. *)
Definition covered (command' : string) (st : State)
  : option (list TextEdit.t) :=
  match commands st with
  | Some commands' => WorkspaceChange.edits <$> commands' !! command'
  | None => None
  end.

(** The code action pushed for one scoped fix. *)
Definition singleFixAction (editInfo : AutoFix) : CodeAction.t :=
  CodeAction.create (label editInfo)
    (Command.create (label editInfo) CommandIds.applySingleFix)
    CodeActionKind.QuickFix.

(** The entries of [sorted] with the rule id [ruleId']. *)
Definition withRule (ruleId' : string) (sorted : list AutoFix) : list AutoFix :=
  filter (λ editInfo, ruleId editInfo = ruleId') sorted.

(** The identifier given to [stylint.applyAutoFix] names a document that
    is not open, or a version that is not the open document's. *)
Definition staleFor (st : State)
  (identifier : VersionedTextDocumentIdentifier.t) : Prop :=
  match documents_get st (VersionedTextDocumentIdentifier.uri identifier) with
  | None => True
  | Some textDocument =>
      VersionedTextDocumentIdentifier.version identifier
      ≠ TextDocument.version textDocument
  end.

(** The directory [validate] changes to before it calls the linter, if
    any: that of the working-directory item when it asks for the change,
    or else the path of the workspace folder. *)
Definition chdirTarget `{Platform} (file : option string)
  (settings : TextDocumentSettings) : option string :=
  if truthy file then
    match workingDirectory settings with
    | Some item =>
        if changeProcessCWD item then Some (directory item) else None
    | None =>
        match workspaceFolder settings with
        | Some folder => fileSchemePath (folderUri folder)
        | None => None
        end
    end
  else None.

Definition isSendDiagnostics (o : Output) : bool :=
  match o with
  | SendDiagnostics _ _ => true
  | _ => false
  end.

(** From [st] to [st'] the fix store is untouched and no diagnostics
    were published. *)
Definition quietStep (st st' : State) : Prop :=
  codeActions st' = codeActions st ∧
  ∃ sent, output st' = output st ++ sent ∧
          Forall (λ o, isSendDiagnostics o = false) sent.

(** The watched-files handler retries the entry of [path] in
    [configErrorReported]: [path] is the file path of a changed URI, it is
    no UNC path and has a directory name, the entry holds a library, and
    the trial run of that library over the directory does not throw. *)
Definition retried `{Platform} (changes : list string) (st : State)
  (path : string) : Prop :=
  ∃ change cli,
    change ∈ changes ∧
    getFilePath (inl change) = Some path ∧
    path ≠ EmptyString ∧ isUNC path = false ∧
    dirname path ≠ EmptyString ∧
    configErrorReported st !! path = Some (Some cli) ∧
    validateThrows cli (joinPath (dirname path) "*.styl") = false.

(** The notification [validateMany] and [environmentChanged] add for
    the document object [document]. *)
Definition validateMessage (st : State) (document : nat) : Message :=
  Notification validateMethod (ValidateParams document)
    (Some (TextDocument.version (objects st document))).

(** Proves [quietStep st st'] for a [st'] that is [st] with some sets
    and some sends of messages other than diagnostics. *)
Ltac quiet_step :=
  first
    [ split; [done|]; exists []; by rewrite app_nil_r
    | split; [done|]; simpl; rewrite <- ?app_assoc;
      eexists; split; [reflexivity|]; by repeat constructor ].

(** What the code-action handler answers for the fixes [edits] of the
    open document [document] when [lastFix] is the last scoped fix: the
    handler returns a list of actions; the same-rule action is among them
    exactly when the greedy scan of the sorted entries with the rule id of
    [lastFix] keeps more than one entry, and then its command covers the
    edits of exactly these entries; the fix-all action is among them
    exactly when [getOverlapFree] has more than one entry, and then its
    command covers exactly these; and when the four sorted entries do not
    overlap and three of them have the rule id of [lastFix], the same-rule
    command covers these three and the fix-all command all four. *)
Definition BulkFixesOffered `{Platform} (st : State) (uri : string)
  (diagnostics : list Diagnostic.t) (edits : Fixes.t)
  (document : TextDocument.t) (lastFix : AutoFix) : Prop :=
  let sorted := Fixes.getAllSorted edits in
  let same := Fixes.overlapFreeOf (withRule (ruleId lastFix) sorted) in
  let all := Fixes.getOverlapFree edits in
  ∃ st' result,
    codeActionHandler (CodeActionParams uri diagnostics) st
      = (st', Returns (CodeActions result)) ∧
    (offers CommandIds.applySameFixes result ↔ (1 < length same)%nat) ∧
    ((1 < length same)%nat →
       covered CommandIds.applySameFixes st'
         = Some (createTextEdit document <$> same)) ∧
    (offers CommandIds.applyAllFixes result ↔ (1 < length all)%nat) ∧
    ((1 < length all)%nat →
       covered CommandIds.applyAllFixes st'
         = Some (createTextEdit document <$> all)) ∧
    (Fixes.PairwiseNonOverlapping sorted →
     length (withRule (ruleId lastFix) sorted) = 3%nat →
     length sorted = 4%nat →
       covered CommandIds.applySameFixes st'
         = Some (createTextEdit document <$> withRule (ruleId lastFix) sorted) ∧
       covered CommandIds.applyAllFixes st'
         = Some (createTextEdit document <$> sorted)).

(** * Further parts of the server

    The remaining event handlers of the documents manager, the fixes
    handed to the editor on save, the memoized global package-manager
    path and the UNC test of the watched-files handler. *)

(** [_globalNpmPath] and [_globalYarnPath]: [undefined] before the first
    call, then [null] or the path. *)
Inductive CachedPath := NotResolved | ResolvedNull | ResolvedPath (p : string).

(** [globalNpmPath] and [globalYarnPath] (the two have the same body);
    [resolved] is what [Files.resolveGlobalNodePath] (or
    [resolveGlobalYarnPath]) returns if it is called now. *)
Definition globalPath (resolved : option string) (cache : CachedPath)
  : option string * CachedPath :=
  let cache :=
    match cache with
    | NotResolved =>
        match resolved with
        | Some p => ResolvedPath p
        | None => ResolvedNull
        end
    | _ => cache
    end in
  (match cache with
   | ResolvedPath p => Some p
   | _ => None
   end, cache).

Module Paths.

(** [CharCode.Backslash] *)
Definition Backslash : ascii := ascii_of_nat 92.

(** The [for] loop of [isUNC]: the position, counted from [pos], of the
    first backslash of [s], or the position after the end of [s]. *)
Fixpoint scanHost (s : string) (pos : nat) : nat :=
  match s with
  | EmptyString => pos
  | String code rest =>
      if Ascii.eqb code Backslash then pos else scanHost rest (S pos)
  end.

Definition codeIs (code : option ascii) (c : ascii) : bool :=
  match code with
  | Some code => Ascii.eqb code c
  | None => false
  end.

(** [isUNC]; [win32] is [process.platform === 'win32'], and
    [String.get], which is [None] past the end, is [charCodeAt], which is
    [NaN] there. *)
Definition isUNC (win32 : bool) (path : string) : bool :=
  if negb win32 then false
  else if (String.length path <? 5)%nat then false
  else if negb (codeIs (String.get 0 path) Backslash) then false
  else if negb (codeIs (String.get 1 path) Backslash) then false
  else
    let start := 2%nat in
    let pos :=
      scanHost (String.substring 2 (String.length path - 2) path) 2 in
    if (start =? pos)%nat then false
    else
      match String.get (pos + 1) path with
      | None => false
      | Some code => negb (Ascii.eqb code Backslash)
      end.

(** [s] has no backslash. *)
Fixpoint noBackslash (s : string) : Prop :=
  match s with
  | EmptyString => True
  | String code rest => code ≠ Backslash ∧ noBackslash rest
  end.

End Paths.

(** [a === b] on [RunValues] *)
Definition sameRun (a b : RunValues) : bool :=
  match a, b with
  | onType, onType | onSave, onSave => true
  | _, _ => false
  end.

Section ServerEvents.
Context `{Platform}.

(** [getFixes], which answers [onWillSaveWaitUntil]. *)
Definition getFixes (textDocument : TextDocument.t) (st : State)
  : list TextEdit.t :=
  match codeActions st !! TextDocument.uri textDocument with
  | Some edits =>
      if Fixes.isEmpty edits then []
      else if negb (bool_decide (Some (TextDocument.version textDocument)
                                 = Fixes.getDocumentVersion edits))
      then []
      else createTextEdit textDocument <$> Fixes.getOverlapFree edits
  | None => []
  end.

(** [documents.onDidOpen] *)
Definition onDidOpen (document : nat) (st : State) : State :=
  let '(settings, st) :=
    resolveSettings (TextDocument.uri (objects st document)) st in
  if negb (validate_ settings) then st
  else if sameRun (run settings) onSave then
    addNotificationMessage validateMethod (ValidateParams document)
      (TextDocument.version (objects st document)) st
  else st.

(** [documents.onDidChangeContent] *)
Definition onDidChangeContent (document : nat) (st : State) : State :=
  let '(settings, st) :=
    resolveSettings (TextDocument.uri (objects st document)) st in
  if negb (validate_ settings)
     || negb (sameRun (run settings) onType)
  then st
  else
    addNotificationMessage validateMethod (ValidateParams document)
      (TextDocument.version (objects st document)) st.

(** [documents.onDidSave] *)
Definition onDidSave (document : nat) (st : State) : State :=
  let '(settings, st) :=
    resolveSettings (TextDocument.uri (objects st document)) st in
  if negb (validate_ settings)
     || negb (sameRun (run settings) onSave)
  then st
  else
    addNotificationMessage validateMethod (ValidateParams document)
      (TextDocument.version (objects st document)) st.

(** [documents.onDidClose] *)
Definition onDidClose (document : nat) (st : State) : State :=
  let '(settings, st) :=
    resolveSettings (TextDocument.uri (objects st document)) st in
  let uri := TextDocument.uri (objects st document) in
  let st := with_document2Settings (delete uri (document2Settings st)) st in
  let st := with_codeActions (delete uri (codeActions st)) st in
  if validate_ settings then send (SendDiagnostics uri []) st else st.

End ServerEvents.

(** ** Vocabulary for the further statements *)

(** What [recordCodeAction] stores for [problem] when it is recorded
    for [document]: the key and the fix, or nothing when the problem has
    no fix or no rule id. *)
Definition recordedFix (document : TextDocument.t) (problem : StylintProblem)
  : option (string * AutoFix) :=
  match fix_ problem with
  | Some fix' =>
      if truthy (rule problem) then
        Some (computeKey (makeDiagnostic problem),
              {| label :=
                   "Fix this " +:+ default EmptyString (rule problem)
                   +:+ " problem";
                 documentVersion := TextDocument.version document;
                 ruleId := default EmptyString (rule problem);
                 edit := fix' |})
      else None
  | None => None
  end.

(** The problems of a report that [validate] turns into diagnostics. *)
Definition reportProblems (report : Report) : list StylintProblem :=
  omap id (reportMessages report).

(** The line feed that [getMessage] replaces. *)
Definition lineFeed : ascii := "010"%char.

Fixpoint occursIn (c : ascii) (s : string) : Prop :=
  match s with
  | EmptyString => False
  | String c' rest => c' = c ∨ occursIn c rest
  end.



(** The store [recordCodeAction] builds from the fixes of [problems],
    recorded for [document] in this order into [edits]. *)
Definition recordAll (document : TextDocument.t)
  (problems : list StylintProblem) (edits : Fixes.t) : Fixes.t :=
  fold_left
    (λ edits problem,
       match recordedFix document problem with
       | Some (key, autoFix') => Fixes.set edits key autoFix'
       | None => edits
       end)
    problems edits.

(** The awaited linter run sends nothing on the connection. *)
Definition silentLinter `{Platform} : Prop :=
  ∀ cli file st, output (awaitLinter cli file st).1 = output st.


(** From [st] to [st'] nothing was enqueued, the timer was left alone
    and no document object changed. *)
Definition sameQueue (st st' : State) : Prop :=
  queue st' = queue st ∧ timer st' = timer st ∧ objects st' = objects st.

(** While the linter runs, no message arrives and no document
    changes. *)
Definition undisturbedLinter `{Platform} : Prop :=
  ∀ cli file st, sameQueue st (awaitLinter cli file st).1.

(** The stored fixes of [uri] that the diagnostics of a code-action
    request match. *)
Definition scopedFixes (st : State) (uri : string)
  (diagnostics : list Diagnostic.t) : list AutoFix :=
  match codeActions st !! uri with
  | Some edits => Fixes.getScoped edits diagnostics
  | None => []
  end.

(** * The client extension

    The part of the extension that runs in the editor: which documents
    it syncs to the server, and the settings it answers the server's
    [workspace/configuration] request with.  Values of the configuration
    are taken to have the types the extension declares for them. *)
Module Client.

(** An element of the [stylint.validate] setting: a string, an object
    that [ValidateItem.is] accepts ([autoFix] may be [undefined]), or
    anything else. *)
Inductive ValidateEntry :=
| LanguageName (language : string)
| LanguageItem (language : string) (autoFix : option bool)
| OtherValidateEntry.

(** An element of the [stylint.workingDirectories] setting: a string,
    an object that [DirectoryItem.is] accepts, or anything else. *)
Inductive DirectoryEntry :=
| DirectoryName (directory : string)
| DirectoryObject (directory : string) (changeProcessCWD : option bool)
| OtherDirectoryEntry.

(** What the code reads of [Workspace.getConfiguration('stylint', ...)]:
    the keys [enable], [enabled], [validate], [autoFixOnSave] and
    [workingDirectories] (an array or not), each with its default in
    place. *)
Record Configuration := mkConfiguration {
  enable : bool;
  enabled : bool;
  validate : list ValidateEntry;
  autoFixOnSave : bool;
  workingDirectories : option (list DirectoryEntry)
}.

(** A document of the editor: [uri.toString()], [languageId], and
    [uri.fsPath] when the scheme of the URI is [file]. *)
Record Document := mkDocument {
  uri : string;
  languageId : string;
  fsPath : option string
}.

(** The [for] loop of [shouldBeValidated]. *)
Fixpoint languageListed (items : list ValidateEntry) (languageId' : string)
  : bool :=
  match items with
  | [] => false
  | LanguageName item :: items =>
      if String.eqb item languageId' then true
      else languageListed items languageId'
  | LanguageItem language _ :: items =>
      if String.eqb language languageId' then true
      else languageListed items languageId'
  | OtherValidateEntry :: items => languageListed items languageId'
  end.

Definition shouldBeValidated (config : Configuration) (textDocument : Document)
  : bool :=
  if negb (enable config) then false
  else languageListed (validate config) (languageId textDocument).

(** ** The settings of a synced document *)

(** The loop over [validateItems] with its [break]: [settings.validate]
    and [settings.autoFix] after it. *)
Fixpoint validateItemsLoop (items : list ValidateEntry) (languageId' : string)
  (validate' : bool) (autoFix' : option bool) : bool * option bool :=
  match items with
  | [] => (validate', autoFix')
  | LanguageName item :: items =>
      if String.eqb item languageId' then
        (true, if String.eqb item "javascript" then Some true else autoFix')
      else validateItemsLoop items languageId' validate' autoFix'
  | LanguageItem language autoFix'' :: items =>
      if String.eqb language languageId' then (true, autoFix'')
      else validateItemsLoop items languageId' validate' autoFix'
  | OtherValidateEntry :: items =>
      validateItemsLoop items languageId' validate' autoFix'
  end.

(** [a && b] where [a] is a boolean or [undefined]. *)
Definition jsAnd (a : option bool) (b : bool) : option bool :=
  match a with
  | Some true => Some b
  | _ => a
  end.

(** [settings.validate], [settings.autoFix] and [settings.autoFixOnSave]
    of a synced document. *)
Definition validationSettings (config : Configuration) (document : Document)
  : bool * option bool * option bool :=
  let '(validate', autoFix') :=
    if enabled config
    then validateItemsLoop (validate config) (languageId document)
           false (Some false)
    else (false, Some false) in
  let autoFixOnSave' :=
    if validate' then jsAnd autoFix' (autoFixOnSave config)
    else Some false in
  (validate', autoFix', autoFixOnSave').

(** JavaScript truthiness of a boolean that may be [undefined]. *)
Definition truthyFlag (b : option bool) : bool := default false b.

Definition truthyString (s : option string) : bool :=
  match s with
  | Some s => negb (String.eqb s EmptyString)
  | None => false
  end.

Section WorkingDirectories.
(** [path.isAbsolute] and [path.join] *)
Variable isAbsolute : string → bool.
Variable join : string → string → string.

(** One turn of the loop over [workingDirectories]; the accumulator is
    the variable [workingDirectory]. *)
Definition workingDirectoryStep (workspaceFolderPath filePath : option string)
  (workingDirectory : option (string * bool)) (entry : DirectoryEntry)
  : option (string * bool) :=
  let '(directory, changeProcessCWD) :=
    match entry with
    | DirectoryName entry => (Some entry, false)
    | DirectoryObject directory changeProcessCWD =>
        (Some directory, truthyFlag changeProcessCWD)
    | OtherDirectoryEntry => (None, false)
    end in
  if truthyString directory then
    let directory :=
      if isAbsolute (default EmptyString directory) then directory
      else if truthyString workspaceFolderPath
      then Some (join (default EmptyString workspaceFolderPath)
                   (default EmptyString directory))
      else None in
    if truthyString filePath && truthyString directory
       && String.prefix (default EmptyString directory)
            (default EmptyString filePath)
    then
      match workingDirectory with
      | Some (chosen, flag) =>
          if (String.length chosen
              <? String.length (default EmptyString directory))%nat
          then Some (default EmptyString directory, changeProcessCWD)
          else Some (chosen, flag)
      | None => Some (default EmptyString directory, changeProcessCWD)
      end
    else workingDirectory
  else workingDirectory.

(** [settings.workingDirectory] of a synced document. *)
Definition selectWorkingDirectory (config : Configuration)
  (workspaceFolderPath : option string) (document : Document)
  : option (string * bool) :=
  match workingDirectories config with
  | Some entries =>
      fold_left (workingDirectoryStep workspaceFolderPath (fsPath document))
        entries None
  | None => None
  end.

(** What an entry contributes for [filePath]: its directory, made
    absolute, and its flag, when the directory is a prefix of the path of
    the file. *)
Definition candidate (workspaceFolderPath filePath : option string)
  (entry : DirectoryEntry) : option (string * bool) :=
  workingDirectoryStep workspaceFolderPath filePath None entry.

End WorkingDirectories.

(** ** The synced documents *)

(** [syncedDocuments], a [Map] keyed by [uri.toString()]. *)
Definition has (synced : list (string * Document)) (key : string) : bool :=
  bool_decide (key ∈ synced.*1).

Fixpoint set (synced : list (string * Document)) (key : string)
  (document : Document) : list (string * Document) :=
  match synced with
  | [] => [(key, document)]
  | (k, d) :: rest =>
      if String.eqb k key then (k, document) :: rest
      else (k, d) :: set rest key document
  end.

Definition delete (synced : list (string * Document)) (key : string)
  : list (string * Document) :=
  filter (λ entry, entry.1 ≠ key) synced.

(** What the middleware hands on to the server. *)
Inductive Forwarded :=
| DidOpen (uri : string)
| DidChange (uri : string)
| WillSave (uri : string)
| WillSaveWaitUntil (uri : string)
| DidSave (uri : string)
| DidClose (uri : string)
| CodeActionRequest (uri : string) (diagnostics : list Diagnostic.t).

Record Sync := mkSync {
  syncedDocuments : list (string * Document);
  forwarded : list Forwarded
}.

(** What the editor does: the calls of the middleware, and a change of
    the configuration with [Workspace.textDocuments] as they are then. *)
Inductive Event :=
| Opened (document : Document)
| Changed (document : Document)
| Saving (document : Document)
| SavingWaitUntil (document : Document)
| Saved (document : Document)
| Closed (document : Document)
| CodeActionsAsked (document : Document) (diagnostics : list Diagnostic.t)
| ConfigurationChanged (textDocuments : list Document).

Definition forward (message : Forwarded) (s : Sync) : Sync :=
  mkSync (syncedDocuments s) (forwarded s ++ [message]).

Definition forwardIfSynced (document : Document) (message : Forwarded)
  (s : Sync) : Sync :=
  if has (syncedDocuments s) (uri document) then forward message s else s.

(** The first loop of the [onDidChangeConfiguration] listener. *)
Definition closeUnvalidated (validated : Document → bool) (s : Sync)
  (textDocument : Document) : Sync :=
  if negb (validated textDocument) then
    forward (DidClose (uri textDocument))
      (mkSync (delete (syncedDocuments s) (uri textDocument)) (forwarded s))
  else s.

(** Its second loop. *)
Definition openValidated (validated : Document → bool) (s : Sync)
  (textDocument : Document) : Sync :=
  if negb (has (syncedDocuments s) (uri textDocument))
     && validated textDocument
  then
    let s := forward (DidOpen (uri textDocument)) s in
    mkSync (set (syncedDocuments s) (uri textDocument) textDocument)
      (forwarded s)
  else s.

(** The diagnostics [provideCodeActions] keeps. *)
Definition stylintDiagnostics (diagnostics : list Diagnostic.t)
  : list Diagnostic.t :=
  filter (λ diagnostic, Diagnostic.source diagnostic = "stylint") diagnostics.

(** One call of the middleware, or of the configuration listener.
    [filtered] says whether [packageJsonFilter] or [configFileFilter]
    matches the document, [validated] is [shouldBeValidated] under the
    configuration of the moment. *)
Definition step (filtered validated : Document → bool) (s : Sync)
  (event : Event) : Sync :=
  match event with
  | Opened document =>
      if filtered document || validated document then
        let s := forward (DidOpen (uri document)) s in
        mkSync (set (syncedDocuments s) (uri document) document) (forwarded s)
      else s
  | Changed document => forwardIfSynced document (DidChange (uri document)) s
  | Saving document => forwardIfSynced document (WillSave (uri document)) s
  | SavingWaitUntil document =>
      forwardIfSynced document (WillSaveWaitUntil (uri document)) s
  | Saved document => forwardIfSynced document (DidSave (uri document)) s
  | Closed document =>
      if has (syncedDocuments s) (uri document) then
        forward (DidClose (uri document))
          (mkSync (delete (syncedDocuments s) (uri document)) (forwarded s))
      else s
  | CodeActionsAsked document diagnostics =>
      if negb (has (syncedDocuments s) (uri document))
         || (length diagnostics =? 0)%nat
      then s
      else if (length (stylintDiagnostics diagnostics) =? 0)%nat then s
      else
        forward (CodeActionRequest (uri document)
                   (stylintDiagnostics diagnostics)) s
  | ConfigurationChanged textDocuments =>
      let s :=
        fold_left (closeUnvalidated validated) (syncedDocuments s).*2 s in
      fold_left (openValidated validated) textDocuments s
  end.

(** A run of the client from its activation: each event comes with the
    configuration of its moment, which [Workspace.getConfiguration] gives
    for a resource. *)
Definition run (filtered : Document → bool)
  (events : list ((string → Configuration) * Event)) : Sync :=
  fold_left
    (λ s event,
       step filtered
         (λ textDocument,
            shouldBeValidated (event.1 (uri textDocument)) textDocument)
         s event.2)
    events (mkSync [] []).

(** ** Vocabulary for the statements about the client *)

(** The entry of [stylint.validate] names the language. *)
Definition names (languageId' : string) (item : ValidateEntry) : bool :=
  match item with
  | LanguageName language | LanguageItem language _ =>
      String.eqb language languageId'
  | OtherValidateEntry => false
  end.

(** The update of [workingDirectory] by a directory that is a prefix of
    the path of the file. *)
Definition pick (workingDirectory : option (string * bool))
  (found : string * bool) : option (string * bool) :=
  match workingDirectory with
  | Some (chosen, flag) =>
      if (String.length chosen <? String.length found.1)%nat
      then Some found else Some (chosen, flag)
  | None => Some found
  end.

(** The invariant of [syncedDocuments]: no key twice, and every
    document under its own URI. *)
Definition keyedByUri (synced : list (string * Document)) : Prop :=
  NoDup synced.*1 ∧ Forall (λ entry, entry.1 = uri entry.2) synced.

(** The document a forwarded message is about, for the messages that
    presuppose that the server was told the document is open. *)
Definition presupposesOpen (message : Forwarded) : option string :=
  match message with
  | DidOpen _ => None
  | DidChange uri | WillSave uri | WillSaveWaitUntil uri | DidSave uri
  | DidClose uri | CodeActionRequest uri _ => Some uri
  end.

(** Whether, after the messages [sent], the server holds [uri'] as
    open: its last [DidOpen] or [DidClose] is a [DidOpen]. *)
Definition openAtServer (sent : list Forwarded) (uri' : string) : bool :=
  fold_left
    (λ open message,
       match message with
       | DidOpen u => if String.eqb u uri' then true else open
       | DidClose u => if String.eqb u uri' then false else open
       | _ => open
       end)
    sent false.

(** Every message that presupposes an open document was sent while the
    server held the document as open. *)
Definition Bracketed (sent : list Forwarded) : Prop :=
  ∀ before message after uri',
    sent = before ++ message :: after →
    presupposesOpen message = Some uri' →
    openAtServer before uri' = true.

(** What every call of the middleware keeps: the map is keyed by URI,
    the messages sent are bracketed, and the map holds exactly the
    documents the server holds as open. *)
Definition Synced (s : Sync) : Prop :=
  keyedByUri (syncedDocuments s) ∧ Bracketed (forwarded s) ∧
  ∀ uri', has (syncedDocuments s) uri' = openAtServer (forwarded s) uri'.

(** ** Activation *)

(** The variable [activated] of [activate], and how often
    [realActivate] was called. *)
Record Activation := mkActivation {
  activated : bool;
  realActivations : nat
}.

(** The three statements before [realActivate(context)] and the call:
    the listeners are disposed and [activated] is set. *)
Definition activateNow (a : Activation) : Activation :=
  mkActivation true (S (realActivations a)).

Definition didOpenTextDocument (validated : Document → bool)
  (textDocument : Document) (a : Activation) : Activation :=
  if activated a then a
  else if validated textDocument then activateNow a
  else a.

(** The loop of [configurationChanged] with its [return]. *)
Fixpoint firstValidated (validated : Document → bool)
  (textDocuments : list Document) (a : Activation) : Activation :=
  match textDocuments with
  | [] => a
  | textDocument :: textDocuments =>
      if validated textDocument then activateNow a
      else firstValidated validated textDocuments a
  end.

Definition configurationChanged (validated : Document → bool)
  (textDocuments : list Document) (a : Activation) : Activation :=
  if activated a then a else firstValidated validated textDocuments a.

(** What the two listeners of [activate] are called with. *)
Inductive ActivationEvent :=
| DocumentOpened (textDocument : Document)
| ConfigurationTouched (textDocuments : list Document).

Definition activationStep (a : Activation)
  (event : (string → Configuration) * ActivationEvent) : Activation :=
  let validated := λ textDocument,
    shouldBeValidated (event.1 (uri textDocument)) textDocument in
  match event.2 with
  | DocumentOpened textDocument =>
      didOpenTextDocument validated textDocument a
  | ConfigurationTouched textDocuments =>
      configurationChanged validated textDocuments a
  end.

(** [activate], which ends with a call of [configurationChanged] on the
    documents open then, followed by the events the listeners get. *)
Definition activate (getConfiguration : string → Configuration)
  (textDocuments : list Document)
  (events : list ((string → Configuration) * ActivationEvent)) : Activation :=
  fold_left activationStep events
    (activationStep (mkActivation false 0)
       (getConfiguration, ConfigurationTouched textDocuments)).

(** The event shows a document that is to be validated under the
    configuration it comes with. *)
Definition showsValidated
  (event : (string → Configuration) * ActivationEvent) : Prop :=
  match event.2 with
  | DocumentOpened textDocument =>
      shouldBeValidated (event.1 (uri textDocument)) textDocument = true
  | ConfigurationTouched textDocuments =>
      ∃ textDocument, textDocument ∈ textDocuments ∧
        shouldBeValidated (event.1 (uri textDocument)) textDocument = true
  end.

End Client.

(** ** A session used for the concrete checks

    One open document at version 6 in the workspace folder [/work]; the
    linter reports three problems of the rule [colons] and one of the rule
    [semicolons], each with a fix of one character, none overlapping. *)
Module Scenario.

Definition uri : string := "file:///work/main.styl".

Definition document : TextDocument.t := TextDocument.mk uri 6 "a b c d".

Definition problem (line' : Z) (rule' : string) (offset : Z) : StylintProblem :=
  mkProblem line' 1 "Warning" (Some rule') "unexpected" None None
    (Some (mkEdit (offset, offset + 1) ":")).

Definition problemR1 : StylintProblem := problem 1 "colons" 0.
Definition problemR2 : StylintProblem := problem 2 "colons" 2.
Definition problemR3 : StylintProblem := problem 3 "colons" 4.
Definition problemS : StylintProblem := problem 4 "semicolons" 6.

Definition fixOf (rule' : string) (offset : Z) : AutoFix :=
  mkAutoFix ("Fix this " +:+ rule' +:+ " problem") 6 rule'
    (mkEdit (offset, offset + 1) ":").

Definition fixR1 : AutoFix := fixOf "colons" 0.
Definition fixR2 : AutoFix := fixOf "colons" 2.
Definition fixR3 : AutoFix := fixOf "colons" 4.
Definition fixS : AutoFix := fixOf "semicolons" 6.

Definition library' : StylintModule :=
  mkModule "/work/node_modules/stylint/bin/stylint" None "/ext/reporter.js".

Definition settings : TextDocumentSettings :=
  mkSettings true true false None "/ext/reporter.js" onType
    (Some (mkWorkspaceFolder "file:///work")) None (Some library').

Definition report : Report :=
  ReportArray
    [mkReport (Some [Some problemR1; Some problemR2; Some problemR3;
                     Some problemS])].

Definition noConfigFound : StylintError :=
  mkError (Some "no-config-found") (Some "No Stylint configuration found.")
    None.

Definition stripFileScheme (uri' : string) : option string :=
  if String.prefix "file://" uri'
  then Some (String.substring 7 (String.length uri' - 7)%nat uri')
  else None.

(** The linter answers with [linted]; every directory but [/missing]
    exists. *)
Definition platformWith
  (linted : StylintModule → option string → State → State * LinterOutcome)
  : Platform :=
  {| positionAt := λ _ offset, Position.mk 0 offset;
     fileSchemePath := stripFileScheme;
     isUNC := λ _, false;
     dirname := λ _, "/work";
     joinPath := λ a b, a +:+ "/" +:+ b;
     fileUri := λ path, "file://" +:+ path;
     directoryExists := λ d, negb (String.eqb d "/missing");
     chdirError := λ d, mkError None (Some ("ENOENT: chdir " +:+ d)) None;
     typeError := mkError None (Some "Cannot set properties of undefined") None;
     getConfiguration := λ _, settings;
     awaitLinter := linted;
     validateThrows := λ _ _, false;
     matchCannotReadConfig := λ _, None;
     matchRuleConfiguration := λ _, None;
     matchReferencedFrom := λ _, None;
     matchFailedToLoadPlugin := λ _, None |}.

(** The linter resolves with [report]. *)
Definition platform : Platform :=
  platformWith (λ _ _ st, (st, Resolved report)).

(** The linter rejects, and while it ran other work moved the process to
    [/elsewhere]. *)
Definition failing : Platform :=
  platformWith (λ _ _ st, (with_cwd "/elsewhere" st, Rejected noConfigFound)).

Definition initial : State :=
  mkState "/home" (λ _, document) [(uri, 0%nat)] ∅ ∅ None ∅ ∅ ∅ [] false [].

(** The state after the document was validated once. *)
Definition validated : State := validateSingle (H := platform) 0 true initial.

Definition edits : Fixes.t :=
  [(computeKey (makeDiagnostic problemR1), fixR1);
   (computeKey (makeDiagnostic problemR2), fixR2);
   (computeKey (makeDiagnostic problemR3), fixR3);
   (computeKey (makeDiagnostic problemS), fixS)].

(** Four stored fixes, in the order they were recorded: a replacement
    of [0,2), an insertion at 0 (end offset 0), and replacements of [1,3)
    and [2,4). *)
Definition replaceAt0 : AutoFix := mkAutoFix "a" 6 "colons" (mkEdit (0, 2) ":").
Definition insertAt0 : AutoFix := mkAutoFix "b" 6 "colons" (mkEdit (0, 0) ":").
Definition replaceAt1 : AutoFix := mkAutoFix "c" 6 "commas" (mkEdit (1, 3) ",").
Definition replaceAt2 : AutoFix := mkAutoFix "d" 6 "colons" (mkEdit (2, 4) ":").

Definition overlapping : Fixes.t :=
  [("k1", replaceAt1); ("k2", replaceAt0); ("k3", replaceAt2);
   ("k4", insertAt0)].

(** A state in which a missing configuration for the document, a parse
    error of [/work/.stylintrc] and a missing plugin were reported. *)
Definition reported : State :=
  with_noConfigReported {[ uri := Some library' ]}
    (with_configErrorReported {[ "/work/.stylintrc" := Some library' ]}
       (with_missingModuleReported {[ "stylint-plugin" := Some library' ]}
          validated)).

(** The queue holds a validation notification recorded at version 5;
    the document object is at version 6 by now. *)
Definition outdated : State :=
  with_queue [Notification validateMethod (ValidateParams 0) (Some 5)]
    validated.

(** The timer is armed; the queue holds a code-action request whose
    token is cancelled, and behind it a validation notification at the
    live version. *)
Definition cancelledFirst : State :=
  with_timer true
    (with_queue
       [Request "textDocument/codeAction" (CodeActionParams uri []) (Some 6)
          1 (mkToken true);
        Notification validateMethod (ValidateParams 0) (Some 6)]
       validated).

(** Two edits in a row: the timer is armed and the queue holds the
    validation notification of version 5 and that of the live version
    6. *)
Definition typedFast : State :=
  with_timer true
    (with_queue
       [Notification validateMethod (ValidateParams 0) (Some 5);
        Notification validateMethod (ValidateParams 0) (Some 6)]
       validated).

(** The same with a request whose token is not cancelled and whose
    recorded version 5 is no longer the document's. *)
Definition staleFirst : State :=
  with_timer true
    (with_queue
       [Request "textDocument/codeAction" (CodeActionParams uri []) (Some 5)
          1 (mkToken false);
        Notification validateMethod (ValidateParams 0) (Some 6)]
       validated).

Definition diagnosticR1 : Diagnostic.t := makeDiagnostic problemR1.
Definition diagnosticS : Diagnostic.t := makeDiagnostic problemS.

(** An identifier of the document at the earlier version 5, and one at
    the live version 6. *)
Definition staleIdentifier : VersionedTextDocumentIdentifier.t :=
  VersionedTextDocumentIdentifier.mk uri 5.

Definition liveIdentifier : VersionedTextDocumentIdentifier.t :=
  VersionedTextDocumentIdentifier.mk uri 6.

(** The linter resolves with [report], and by then the document object
    is at version 8. *)
Definition slowLinter : Platform :=
  platformWith
    (λ _ _ st,
       (mkState (cwd st) (λ _, TextDocument.mk uri 8 "a b c d e")
          (documents st) (document2Settings st) (codeActions st)
          (commands st) (noConfigReported st) (configErrorReported st)
          (missingModuleReported st) (queue st) (timer st) (output st),
        Resolved report)).

(** Settings with a working directory that does not exist. *)
Definition unreachable : TextDocumentSettings :=
  mkSettings true true false None "/ext/reporter.js" onType None
    (Some (mkDirectoryItem "/missing" true)) (Some library').

End Scenario.

(** * Properties *)

(** ** The sort *)
Section ArraySortFacts.
Context {A : Type} (comparefn : A → A → Z) (R : A → A → Prop).
Hypothesis R_trans : ∀ a b c, R a b → R b c → R a c.
Hypothesis cmp_pos : ∀ a b, comparefn a b > 0 → R b a.
Hypothesis cmp_nonpos : ∀ a b, comparefn a b ≤ 0 → R a b.

Lemma insert_back_perm (x : A) (l : list A) :
  insert_back comparefn x l ≡ₚ x :: l.
Proof.
  induction l as [|t l IH]; simpl; [done|].
  destruct (comparefn t x >? 0); [|done].
  rewrite IH. apply Permutation_swap.
Qed.

Lemma insert_back_sorted (x : A) (l : list A) :
  StronglySorted (flip R) l →
  StronglySorted (flip R) (insert_back comparefn x l).
Proof.
  induction 1 as [|t l Hs IH Hall]; simpl.
  - repeat constructor.
  - destruct (comparefn t x >? 0) eqn:E.
    + constructor; [done|].
      rewrite insert_back_perm. constructor; [|done].
      apply cmp_pos. lia.
    + assert (R t x) as Htx by (apply cmp_nonpos; lia).
      constructor; [by constructor|].
      constructor; [done|].
      eapply Forall_impl; [exact Hall|].
      intros y Hy. unfold flip in *. eauto.
Qed.

Lemma fold_insert_back_perm (a acc : list A) :
  fold_left (λ acc e, insert_back comparefn e acc) a acc ≡ₚ a ++ acc.
Proof.
  revert acc. induction a as [|x a IH]; intros acc; simpl; [done|].
  rewrite IH, insert_back_perm. by rewrite Permutation_middle.
Qed.

Lemma fold_insert_back_sorted (a acc : list A) :
  StronglySorted (flip R) acc →
  StronglySorted (flip R)
    (fold_left (λ acc e, insert_back comparefn e acc) a acc).
Proof.
  revert acc. induction a as [|x a IH]; intros acc Hacc; simpl; [done|].
  apply IH. by apply insert_back_sorted.
Qed.

Lemma StronglySorted_rev_flip (l : list A) :
  StronglySorted (flip R) l → StronglySorted R (rev l).
Proof.
  induction 1 as [|t l Hs IH Hall]; simpl; [constructor|].
  apply StronglySorted_app_2; [|done|repeat constructor].
  intros x1 x2 Hx1 Hx2.
  apply list_elem_of_singleton in Hx2 as ->.
  apply list_elem_of_In, in_rev, list_elem_of_In in Hx1.
  rewrite Forall_forall in Hall. by apply Hall.
Qed.

Lemma array_sort_perm (a : list A) : array_sort comparefn a ≡ₚ a.
Proof.
  unfold array_sort. rewrite <- Permutation_rev, fold_insert_back_perm.
  by rewrite app_nil_r.
Qed.

Lemma array_sort_sorted (a : list A) :
  StronglySorted R (array_sort comparefn a).
Proof.
  apply StronglySorted_rev_flip, fold_insert_back_sorted. constructor.
Qed.
End ArraySortFacts.

(** ** [Fixes.getAllSorted] and [Fixes.getOverlapFree] *)
Module FixesFacts.
Import Fixes.

Lemma sortsBefore_trans (a b c : AutoFix) :
  sortsBefore a b → sortsBefore b c → sortsBefore a c.
Proof. unfold sortsBefore. lia. Qed.

Lemma compareEdits_pos (a b : AutoFix) :
  compareEdits a b > 0 → sortsBefore b a.
Proof.
  unfold compareEdits, sortsBefore. cbv zeta.
  destruct (range0 a - range0 b =? 0) eqn:Ed; simpl; [|lia].
  destruct (range1 a =? 0) eqn:Ea; [lia|].
  destruct (range1 b =? 0) eqn:Eb; lia.
Qed.

Lemma compareEdits_nonpos (a b : AutoFix) :
  compareEdits a b ≤ 0 → sortsBefore a b.
Proof.
  unfold compareEdits, sortsBefore. cbv zeta.
  destruct (range0 a - range0 b =? 0) eqn:Ed; simpl; [|lia].
  destruct (range1 a =? 0) eqn:Ea; [lia|].
  destruct (range1 b =? 0) eqn:Eb; lia.
Qed.

Lemma getAllSorted_sorted (edits : t) :
  StronglySorted sortsBefore (getAllSorted edits).
Proof.
  apply array_sort_sorted;
    eauto using sortsBefore_trans, compareEdits_pos, compareEdits_nonpos.
Qed.

Lemma getAllSorted_perm (edits : t) : getAllSorted edits ≡ₚ values edits.
Proof. apply array_sort_perm. Qed.

Lemma sorted_startsAscend (l : list AutoFix) :
  StronglySorted sortsBefore l → StronglySorted startsAscend l.
Proof.
  induction 1 as [|a l Hs IH Hall]; constructor; [done|].
  eapply Forall_impl; [exact Hall|].
  unfold sortsBefore, startsAscend. intros b. simpl. lia.
Qed.

(** The loop and the function are the scan [scanFrom]. *)
Lemma overlapFree_loop_scan (l : AutoFix) (result rest : list AutoFix) :
  overlapFree_loop l result rest = result ++ scanFrom (Some l) rest.
Proof.
  revert l result. induction rest as [|c rest IH]; intros l result; simpl.
  - by rewrite app_nil_r.
  - destruct (range1 l >? range0 c); simpl.
    + apply IH.
    + rewrite IH. by rewrite <- app_assoc.
Qed.

Lemma overlapFreeOf_scan (sorted : list AutoFix) :
  overlapFreeOf sorted = scanFrom None sorted.
Proof.
  unfold overlapFreeOf.
  destruct sorted as [|x [|y rest]]; [done..|].
  cbn [length Nat.leb]. by rewrite overlapFree_loop_scan.
Qed.

Lemma scanFrom_sublist (lastEdit : option AutoFix) (l : list AutoFix) :
  scanFrom lastEdit l `sublist_of` l.
Proof.
  revert lastEdit. induction l as [|c l IH]; intros lastEdit; simpl.
  - constructor.
  - destruct (overlaps lastEdit c).
    + by apply sublist_cons.
    + by apply sublist_skip.
Qed.

(** In a list that ascends by start offset nothing accepted overlaps
    the entry the scan started from. *)
Lemma scanFrom_clear_of_last (c : AutoFix) (lastEdit : option AutoFix)
    (l : list AutoFix) :
  StronglySorted startsAscend l →
  (∀ x, x ∈ l → lastEdit = Some c ∨ (range1 c ≤ range0 x)) →
  Forall (λ e, overlaps (Some c) e = false) (scanFrom lastEdit l).
Proof.
  revert lastEdit. induction l as [|x l IH]; intros lastEdit Hs Hb; simpl.
  - constructor.
  - apply StronglySorted_inv in Hs as [Hs Hall].
    destruct (overlaps lastEdit x) eqn:Eo.
    + apply IH; [done|]. intros y Hy. apply Hb. by right.
    + assert (range1 c ≤ range0 x) as Hcx.
      { destruct (Hb x) as [->|?]; [by left| |done].
        simpl in Eo. lia. }
      constructor; [simpl; lia|].
      apply IH; [done|]. intros y Hy. right.
      rewrite Forall_forall in Hall.
      specialize (Hall y Hy). unfold startsAscend in Hall. lia.
Qed.

Lemma scanFrom_nonoverlapping (lastEdit : option AutoFix)
    (l : list AutoFix) :
  StronglySorted startsAscend l →
  StronglySorted (λ a b, overlaps (Some a) b = false) (scanFrom lastEdit l).
Proof.
  revert lastEdit. induction l as [|x l IH]; intros lastEdit Hs; simpl.
  - constructor.
  - pose proof Hs as Hs'.
    apply StronglySorted_inv in Hs as [Hs Hall].
    destruct (overlaps lastEdit x); [by apply IH|].
    constructor; [by apply IH|].
    apply scanFrom_clear_of_last; [done|]. by left.
Qed.

Lemma StronglySorted_lookup {A} (R : A → A → Prop) (l : list A)
    (i j : nat) (a b : A) :
  StronglySorted R l → (i < j)%nat →
  l !! i = Some a → l !! j = Some b → R a b.
Proof.
  intros Hs. revert i j. induction Hs as [|x l Hs IH Hall]; intros i j Hij Hi Hj.
  - done.
  - destruct j as [|j]; [lia|]. simpl in Hj.
    destruct i as [|i]; simpl in Hi.
    + injection Hi as ->. rewrite Forall_forall in Hall.
      apply Hall. by eapply list_elem_of_lookup_2.
    + apply (IH i j); [lia|done..].
Qed.

Lemma scanFrom_app (lastEdit : option AutoFix) (pre post : list AutoFix) :
  scanFrom lastEdit (pre ++ post) =
  scanFrom lastEdit pre ++
  scanFrom (lastAfter lastEdit (scanFrom lastEdit pre)) post.
Proof.
  revert lastEdit. induction pre as [|c pre IH]; intros lastEdit; simpl.
  - done.
  - destruct (overlaps lastEdit c); [apply IH|].
    rewrite IH. simpl. f_equal. f_equal.
    unfold lastAfter. rewrite last_cons.
    by destruct (last (scanFrom (Some c) pre)).
Qed.

Lemma overlapFreeOf_greedy (sorted : list AutoFix) :
  LeftGreedyMaximal sorted.
Proof.
  intros pre post x ->. unfold accepted, dropped.
  rewrite !overlapFreeOf_scan.
  split; [|split].
  - rewrite scanFrom_app. by eexists.
  - replace (pre ++ x :: post) with ((pre ++ [x]) ++ post)
      by (by rewrite <- app_assoc).
    rewrite (scanFrom_app _ (pre ++ [x])). by eexists.
  - rewrite scanFrom_app. simpl.
    destruct (overlaps (lastAfter None (scanFrom None pre)) x) eqn:Eo.
    + right. split; [by rewrite app_nil_r|].
      unfold lastAfter in Eo.
      destruct (last (scanFrom None pre)) as [y|] eqn:El; [|done].
      exists y. split; [|done].
      apply last_Some in El as [l' ->]. set_solver.
    + by left.
Qed.

Lemma scanFrom_dropped (lastEdit : option AutoFix) (l : list AutoFix)
    (x : AutoFix) :
  x ∈ l → x ∉ scanFrom lastEdit l →
  overlaps lastEdit x = true ∨
  ∃ y, y ∈ scanFrom lastEdit l ∧ overlaps (Some y) x = true.
Proof.
  revert lastEdit. induction l as [|c l IH]; intros lastEdit Hin Hnot.
  - by apply elem_of_nil in Hin.
  - simpl in *. destruct (overlaps lastEdit c) eqn:Eo.
    + apply elem_of_cons in Hin as [->|Hin]; [by left|by apply IH].
    + apply not_elem_of_cons in Hnot as [Hne Hnot].
      apply elem_of_cons in Hin as [->|Hin]; [done|].
      destruct (IH (Some c) Hin Hnot) as [Hc|(y & Hy & Hyx)].
      * right. exists c. split; [by left|done].
      * right. exists y. split; [by right|done].
Qed.

Example getAllSorted_overlapping :
  getAllSorted Scenario.overlapping
  = [Scenario.insertAt0; Scenario.replaceAt0; Scenario.replaceAt1;
     Scenario.replaceAt2].
Proof. reflexivity. Qed.

Example getOverlapFree_overlapping :
  getOverlapFree Scenario.overlapping
  = [Scenario.insertAt0; Scenario.replaceAt0; Scenario.replaceAt2].
Proof. reflexivity. Qed.

Example computeKey_first_problem :
  computeKey (makeDiagnostic Scenario.problemR1) = "[0,0,0,0]-colons".
Proof. reflexivity. Qed.

(** C2.  [getOverlapFree] returns a subsequence of [getAllSorted]; no
    earlier entry of it overlaps a later one, where an entry overlaps
    the candidate iff its end offset is greater than the candidate's
    start offset; and the selection is left-greedy maximal: an entry of
    [getAllSorted] is dropped only when an entry accepted before it
    overlaps it, so that every entry missing from the result is
    overlapped by an entry of the result. *)
Theorem getOverlapFree_greedy_subsequence (edits : t) :
  (∀ lastEdit newEdit,
     overlaps (Some lastEdit) newEdit = true
     ↔ range1 lastEdit > range0 newEdit) ∧
  getOverlapFree edits `sublist_of` getAllSorted edits ∧
  PairwiseNonOverlapping (getOverlapFree edits) ∧
  LeftGreedyMaximal (getAllSorted edits) ∧
  DroppedOverlapAccepted (getAllSorted edits) (getOverlapFree edits).
Proof.
  split; [intros lastEdit newEdit; simpl; lia|].
  unfold getOverlapFree. rewrite overlapFreeOf_scan.
  split; [apply scanFrom_sublist|].
  split; [|split].
  - intros i j a b Hij Hi Hj.
    pose proof (scanFrom_nonoverlapping None _
      (sorted_startsAscend _ (getAllSorted_sorted edits))) as Hs.
    exact (StronglySorted_lookup _ _ i j a b Hs Hij Hi Hj).
  - apply overlapFreeOf_greedy.
  - intros x Hin Hnot.
    by destruct (scanFrom_dropped None _ x Hin Hnot).
Qed.

(** C8.  [getAllSorted] returns all stored entries, and an earlier entry
    of the result relates to every later one by [sortsBefore]: a smaller
    start offset, or the same start offset with an end offset of 0, or
    the same start offset with both end offsets nonzero and ascending. *)
Theorem getAllSorted_order (edits : t) :
  getAllSorted edits ≡ₚ values edits ∧
  StronglySorted sortsBefore (getAllSorted edits).
Proof. split; [apply getAllSorted_perm|apply getAllSorted_sorted]. Qed.

End FixesFacts.

(** ** [makeDiagnostic] *)
Module DiagnosticFacts.

Lemma convertSeverity_warning (severity : string) :
  severity = "Warning" → convertSeverity severity = DiagnosticSeverity.Warning.
Proof. by intros ->. Qed.

Lemma convertSeverity_other (severity : string) :
  severity ≠ "Warning" → convertSeverity severity = DiagnosticSeverity.Error.
Proof.
  intros Hne. unfold convertSeverity.
  destruct (String.eqb severity "Warning") eqn:E.
  - by apply String.eqb_eq in E.
  - by destruct (String.eqb severity "Error").
Qed.

(** C4.  The diagnostic made from a linter problem starts at
    [(max 0 (line - 1), max 0 (column - 1))]; each coordinate of its end is
    [max 0 (endLine - 1)], respectively [max 0 (endColumn - 1)], when the
    problem has that field and the coordinate of the start otherwise, so
    that the range is zero-width when both are absent; the severity is
    [Warning] for the string [Warning] and [Error] for every other string;
    the message is the problem's message, followed by the rule id in
    parentheses when there is one; the code is the rule id and the source
    is [stylint]. *)
Theorem makeDiagnostic_spec (problem : StylintProblem) :
  let diagnostic := makeDiagnostic problem in
  let start := Range.start (Diagnostic.range diagnostic) in
  let end' := Range.end_ (Diagnostic.range diagnostic) in
  start = Position.mk (Z.max 0 (line problem - 1))
                      (Z.max 0 (column problem - 1)) ∧
  Position.line end' =
    match endLine problem with
    | Some l => Z.max 0 (l - 1)
    | None => Position.line start
    end ∧
  Position.character end' =
    match endColumn problem with
    | Some c => Z.max 0 (c - 1)
    | None => Position.character start
    end ∧
  (∀ l c, endLine problem = Some l → endColumn problem = Some c →
     end' = Position.mk (Z.max 0 (l - 1)) (Z.max 0 (c - 1))) ∧
  (endLine problem = None → endColumn problem = None → end' = start) ∧
  (severity problem = "Warning" →
     Diagnostic.severity diagnostic = DiagnosticSeverity.Warning) ∧
  (severity problem ≠ "Warning" →
     Diagnostic.severity diagnostic = DiagnosticSeverity.Error) ∧
  Diagnostic.message diagnostic =
    match rule problem with
    | Some r => message problem +:+ " (" +:+ r +:+ ")"
    | None => message problem
    end ∧
  Diagnostic.code diagnostic = rule problem ∧
  Diagnostic.source diagnostic = "stylint".
Proof.
  cbv zeta. unfold makeDiagnostic. simpl.
  repeat split.
  - intros l c -> ->. done.
  - intros -> ->. done.
  - apply convertSeverity_warning.
  - apply convertSeverity_other.
Qed.

Example makeDiagnostic_first_position :
  let problem := mkProblem 1 1 "Warning" (Some "colons") "missing colon"
                   None None None in
  makeDiagnostic problem =
  Diagnostic.mk "missing colon (colons)" DiagnosticSeverity.Warning "stylint"
    (Range.mk (Position.mk 0 0) (Position.mk 0 0)) (Some "colons").
Proof. reflexivity. Qed.

Example makeDiagnostic_unknown_severity :
  let problem := mkProblem 3 0 "info" None "note" (Some 4) (Some 7) None in
  makeDiagnostic problem =
  Diagnostic.mk "note" DiagnosticSeverity.Error "stylint"
    (Range.mk (Position.mk 2 0) (Position.mk 3 6)) None.
Proof. reflexivity. Qed.

End DiagnosticFacts.

(** ** The code-action handler *)
Section CodeActionFacts.
Context `{Platform}.
Import Fixes FixesFacts.

Lemma bulkLoop_scan (ruleId' : string) (sorted same all : list AutoFix)
    (documentVersion' : Z) :
  let r := fold_left (bulkStep (Some ruleId')) sorted
             (documentVersion', same, all) in
  r.1.2 = same ++ scanFrom (last same) (withRule ruleId' sorted) ∧
  r.2 = all ++ scanFrom (last all) sorted.
Proof.
  cbv zeta. revert same all documentVersion'.
  induction sorted as [|x sorted IH]; intros same all dv; simpl.
  - by rewrite !app_nil_r.
  - unfold withRule. rewrite filter_cons.
    destruct (IH
      (if bool_decide (Some (ruleId x) = Some ruleId')
          && negb (overlaps (last same) x) then same ++ [x] else same)
      (if negb (overlaps (last all) x) then all ++ [x] else all)
      (if dv =? -1 then documentVersion x else dv)) as [IH1 IH2].
    rewrite IH1, IH2. clear IH IH1 IH2. split.
    + destruct (decide (ruleId x = ruleId')) as [Hr|Hr].
      * rewrite bool_decide_eq_true_2 by congruence. simpl.
        destruct (overlaps (last same) x); simpl; [done|].
        by rewrite last_snoc, <- app_assoc.
      * rewrite bool_decide_eq_false_2 by congruence. done.
    + destruct (overlaps (last all) x); simpl; [done|].
      by rewrite last_snoc, <- app_assoc.
Qed.

Lemma bulkLoop_spec (ruleId' : string) (documentVersion' : Z)
    (sorted : list AutoFix) :
  ∃ version',
    bulkLoop (Some ruleId') documentVersion' sorted =
    (version', overlapFreeOf (withRule ruleId' sorted), overlapFreeOf sorted).
Proof.
  destruct (bulkLoop_scan ruleId' sorted [] [] documentVersion') as [H1 H2].
  unfold bulkLoop. rewrite !overlapFreeOf_scan.
  destruct (fold_left _ _ _) as [[v same] all]. simpl in *.
  exists v. by rewrite H1, H2.
Qed.

Lemma scopedLoop_spec (uri : string) (document : TextDocument.t)
    (scoped : list AutoFix) (acc : ScopedLoop) :
  ∃ acc',
    forEachM (scopedStep uri (Some document)) acc scoped = Some acc' ∧
    loopResult acc' = loopResult acc ++ (singleFixAction <$> scoped) ∧
    loopRuleId acc' =
      match last scoped with
      | Some editInfo => Some (ruleId editInfo)
      | None => loopRuleId acc
      end ∧
    (∀ key, key ≠ CommandIds.applySingleFix →
       loopCommands acc' !! key = loopCommands acc !! key).
Proof.
  revert acc. induction scoped as [|x scoped IH]; intros acc; simpl.
  - exists acc. by rewrite app_nil_r.
  - edestruct IH as (acc' & -> & Hres & Hrule & Hcmd).
    exists acc'. split; [done|]. simpl in *.
    split; [by rewrite Hres, <- app_assoc|].
    split.
    + rewrite Hrule, last_cons. by destruct (last scoped).
    + intros key Hkey. rewrite Hcmd by done. by rewrite lookup_insert_ne.
Qed.

Lemma getScoped_nonempty (edits : Fixes.t) (diagnostics : list Diagnostic.t) :
  getScoped edits diagnostics ≠ [] → isEmpty edits = false.
Proof.
  destruct edits as [|e edits]; [|done].
  intros Hne. exfalso. apply Hne. clear Hne.
  induction diagnostics as [|d diagnostics IH]; simpl; done.
Qed.

Lemma offers_app (command' : string) (l1 l2 : list CodeAction.t) :
  offers command' (l1 ++ l2) ↔ offers command' l1 ∨ offers command' l2.
Proof.
  unfold offers. split.
  - intros (a & Ha & Hc). apply elem_of_app in Ha as [Ha|Ha]; eauto.
  - intros [(a & Ha & Hc)|(a & Ha & Hc)]; exists a;
      (split; [apply elem_of_app; eauto|done]).
Qed.

Lemma offers_single (command' : string) (scoped : list AutoFix) :
  command' ≠ CommandIds.applySingleFix →
  ¬ offers command' (singleFixAction <$> scoped).
Proof.
  intros Hne (a & Ha & Hc).
  apply list_elem_of_fmap in Ha as (e & -> & _). simpl in Hc. congruence.
Qed.

Lemma offers_one (command' title' command'' : string) :
  offers command'
    [CodeAction.create title' (Command.create title' command'')
       CodeActionKind.QuickFix] ↔ command'' = command'.
Proof.
  unfold offers. split.
  - intros (a & Ha & Hc). apply list_elem_of_singleton in Ha as ->. done.
  - intros <-. eexists. split; [apply list_elem_of_singleton; done|done].
Qed.

Lemma offers_nil (command' : string) : ¬ offers command' [].
Proof. intros (a & Ha & _). by apply elem_of_nil in Ha. Qed.

Lemma nonoverlapping_sorted (l : list AutoFix) :
  PairwiseNonOverlapping l →
  StronglySorted (λ a b, overlaps (Some a) b = false) l.
Proof.
  induction l as [|x l IH]; intros Hp; constructor.
  - apply IH. intros i j a b Hij Hi Hj.
    apply (Hp (S i) (S j)); [lia|done..].
  - apply Forall_forall. intros y Hy.
    apply list_elem_of_lookup in Hy as [j Hj].
    apply (Hp 0%nat (S j)); [lia|done..].
Qed.

Lemma StronglySorted_sublist_of {A} (R : A → A → Prop) (k l : list A) :
  k `sublist_of` l → StronglySorted R l → StronglySorted R k.
Proof.
  induction 1 as [|x k l Hsub IH|x k l Hsub IH]; intros Hs.
  - constructor.
  - apply StronglySorted_inv in Hs as [Hs Hall].
    constructor; [by apply IH|].
    apply Forall_forall. intros y Hy. rewrite Forall_forall in Hall.
    apply Hall. by eapply elem_of_sublist.
  - apply StronglySorted_inv in Hs as [Hs _]. by apply IH.
Qed.

Lemma scanFrom_keeps_all (lastEdit : option AutoFix) (l : list AutoFix) :
  StronglySorted (λ a b, overlaps (Some a) b = false) l →
  Forall (λ x, overlaps lastEdit x = false) l →
  scanFrom lastEdit l = l.
Proof.
  revert lastEdit. induction l as [|x l IH]; intros lastEdit Hs Hl; [done|].
  apply StronglySorted_inv in Hs as [Hs Hall].
  apply Forall_cons in Hl as [Hx Hl]. simpl. rewrite Hx.
  f_equal. by apply IH.
Qed.

Lemma overlapFreeOf_keeps_all (l : list AutoFix) :
  StronglySorted (λ a b, overlaps (Some a) b = false) l →
  overlapFreeOf l = l.
Proof.
  intros Hs. rewrite overlapFreeOf_scan.
  apply scanFrom_keeps_all; [done|]. by apply Forall_forall.
Qed.

Lemma bulkActions_spec (uri : string) (document : TextDocument.t)
    (scoped : ScopedLoop) (sorted : list AutoFix) (ruleId' : string) :
  loopRuleId scoped = Some ruleId' →
  let same := overlapFreeOf (withRule ruleId' sorted) in
  let all := overlapFreeOf sorted in
  let r := bulkActions uri document scoped sorted in
  r.2 = loopResult scoped
        ++ (if (1 <? length same)%nat
            then [CodeAction.create (sameFixesTitle (Some ruleId'))
                    (Command.create (sameFixesTitle (Some ruleId'))
                       CommandIds.applySameFixes) CodeActionKind.QuickFix]
            else [])
        ++ (if (1 <? length all)%nat
            then [CodeAction.create allFixesTitle
                    (Command.create allFixesTitle CommandIds.applyAllFixes)
                    CodeActionKind.QuickFix]
            else []) ∧
  ((1 < length same)%nat →
     WorkspaceChange.edits <$> r.1 !! CommandIds.applySameFixes
       = Some (createTextEdit document <$> same)) ∧
  ((1 < length all)%nat →
     WorkspaceChange.edits <$> r.1 !! CommandIds.applyAllFixes
       = Some (createTextEdit document <$> all)).
Proof.
  intros Hrule. cbv zeta. unfold bulkActions. rewrite Hrule.
  destruct (bulkLoop_spec ruleId' (loopDocumentVersion scoped) sorted)
    as [v ->].
  destruct (1 <? length (overlapFreeOf (withRule ruleId' sorted)))%nat eqn:Es;
    destruct (1 <? length (overlapFreeOf sorted))%nat eqn:Ea; simpl;
    try apply Nat.ltb_lt in Es; try apply Nat.ltb_ge in Es;
    try apply Nat.ltb_lt in Ea; try apply Nat.ltb_ge in Ea.
  - split; [by rewrite <- app_assoc|].
    split; intros _.
    + rewrite lookup_insert_ne by done. by rewrite lookup_insert_eq.
    + by rewrite lookup_insert_eq.
  - split; [done|].
    split; [intros _|lia]. by rewrite lookup_insert_eq.
  - split; [done|].
    split; [lia|intros _]. by rewrite lookup_insert_eq.
  - split; [by rewrite app_nil_r|]. split; lia.
Qed.

(** C5, as the code has it.  For a code-action request on an open
    document that matches at least one scoped fix, the same-rule bulk
    action is offered exactly when more than one entry of [getAllSorted]
    with the rule id of the LAST scoped fix is left by an independent
    greedy overlap filter, and it covers exactly these entries; the
    fix-all action is offered exactly when [getOverlapFree] has more than
    one entry and covers exactly these.  With four sorted entries that do
    not overlap, three of them of the rule of the last scoped fix, the
    same-rule action covers the three and the fix-all action the four. *)
Theorem codeAction_bulk_fixes (st : State) (uri : string)
    (diagnostics : list Diagnostic.t) (edits : Fixes.t)
    (document : TextDocument.t) (lastFix : AutoFix) :
  codeActions st !! uri = Some edits →
  documents_get st uri = Some document →
  last (getScoped edits diagnostics) = Some lastFix →
  BulkFixesOffered st uri diagnostics edits document lastFix.
Proof.
  intros Hedits Hdoc Hlast. unfold BulkFixesOffered. cbv zeta.
  unfold codeActionHandler. simpl codeActions. rewrite Hedits.
  assert (getScoped edits diagnostics ≠ []) as Hne
    by (by intros E; rewrite E in Hlast).
  rewrite (getScoped_nonempty _ _ Hne).
  replace (documents_get (with_commands (Some ∅) st) uri)
    with (Some document) by done.
  destruct (scopedLoop_spec uri document (getScoped edits diagnostics)
              (mkScopedLoop (-1) None ∅ []))
    as (acc & -> & Hres & Hrule & Hcmd).
  rewrite Hlast in Hrule. simpl in Hres, Hrule, Hcmd.
  assert ((0 <? length (loopResult acc))%nat = true) as ->.
  { rewrite Hres, length_fmap. apply Nat.ltb_lt.
    destruct (getScoped edits diagnostics); [done|simpl; lia]. }
  destruct (bulkActions_spec uri document acc (getAllSorted edits)
              (ruleId lastFix) Hrule) as (Hr & Hsame & Hall).
  fold (getOverlapFree edits) in Hr, Hsame, Hall.
  destruct (bulkActions uri document acc (getAllSorted edits))
    as [commands' result].
  simpl in Hr, Hsame, Hall. subst result.
  set (same := overlapFreeOf (withRule (ruleId lastFix) (getAllSorted edits)))
    in *.
  set (all := getOverlapFree edits) in *.
  assert (Hsingle : ∀ c, c ≠ CommandIds.applySingleFix →
            ¬ offers c (loopResult acc)).
  { intros c Hc. rewrite Hres. by apply offers_single. }
  eexists _, _. split; [reflexivity|].
  unfold covered. simpl commands.
  split; [|split; [done|split; [|split; [done|]]]].
  - rewrite !offers_app. split.
    + intros [Hc|[Hc|Hc]].
      * by apply Hsingle in Hc.
      * destruct (1 <? length same)%nat eqn:Es; [by apply Nat.ltb_lt|].
        by apply offers_nil in Hc.
      * destruct (1 <? length all)%nat; [|by apply offers_nil in Hc].
        by apply offers_one in Hc.
    + intros Hlen. right; left.
      apply Nat.ltb_lt in Hlen as ->. by apply offers_one.
  - rewrite !offers_app. split.
    + intros [Hc|[Hc|Hc]].
      * by apply Hsingle in Hc.
      * destruct (1 <? length same)%nat; [|by apply offers_nil in Hc].
        by apply offers_one in Hc.
      * destruct (1 <? length all)%nat eqn:Ea; [by apply Nat.ltb_lt|].
        by apply offers_nil in Hc.
    + intros Hlen. right; right.
      apply Nat.ltb_lt in Hlen as ->. by apply offers_one.
  - intros Hp H3 H4. apply nonoverlapping_sorted in Hp.
    assert (same = withRule (ruleId lastFix) (getAllSorted edits)) as Es.
    { apply overlapFreeOf_keeps_all.
      eapply StronglySorted_sublist_of; [|exact Hp]. apply sublist_filter. }
    assert (all = getAllSorted edits) as Ea
      by (by apply overlapFreeOf_keeps_all).
    rewrite <- Es, <- Ea. split.
    + apply Hsame. rewrite Es. lia.
    + apply Hall. rewrite Ea. lia.
Qed.

End CodeActionFacts.

Module ScenarioChecks.
Import Scenario.

Example validated_records_fixes : codeActions validated !! uri = Some edits.
Proof. vm_compute. reflexivity. Qed.

Example validated_restores_cwd : cwd validated = "/home".
Proof. vm_compute. reflexivity. Qed.

Example validated_output :
  output validated =
  [SendDiagnostics uri
     (makeDiagnostic <$> [problemR1; problemR2; problemR3; problemS]);
   SendStatus ok].
Proof. vm_compute. reflexivity. Qed.

End ScenarioChecks.

Module CodeActionChecks.
Import Scenario.

(** The request names the [semicolons] diagnostic first and a [colons]
    diagnostic last: the theorem applies with [fixR1] as last scoped fix. *)
Lemma codeAction_bulk_fixes_witness :
  codeActions validated !! uri = Some edits ∧
  documents_get validated uri = Some document ∧
  last (Fixes.getScoped edits [diagnosticS; diagnosticR1]) = Some fixR1 ∧
  BulkFixesOffered (H := platform) validated uri [diagnosticS; diagnosticR1]
    edits document fixR1.
Proof.
  assert (codeActions validated !! uri = Some edits) as H1
    by (vm_compute; reflexivity).
  assert (documents_get validated uri = Some document) as H2
    by (vm_compute; reflexivity).
  assert (last (Fixes.getScoped edits [diagnosticS; diagnosticR1])
          = Some fixR1) as H3 by (vm_compute; reflexivity).
  split; [exact H1|]. split; [exact H2|]. split; [exact H3|].
  exact (codeAction_bulk_fixes (H := platform) validated uri
           [diagnosticS; diagnosticR1] edits document fixR1 H1 H2 H3).
Defined.

(** The scenario of three [colons] fixes and one [semicolons] fix, run:
    the same-rule command covers three edits, the fix-all command four. *)
Example codeAction_three_and_one :
  ∃ st',
    codeActionHandler (H := platform)
      (CodeActionParams uri [diagnosticS; diagnosticR1]) validated
    = (st',
       Returns (CodeActions
         [singleFixAction fixS; singleFixAction fixR1;
          CodeAction.create "Fix all colons problems"
            (Command.create "Fix all colons problems"
               CommandIds.applySameFixes) CodeActionKind.QuickFix;
          CodeAction.create "Fix all auto-fixable problems"
            (Command.create "Fix all auto-fixable problems"
               CommandIds.applyAllFixes) CodeActionKind.QuickFix])) ∧
    covered CommandIds.applySameFixes st'
      = Some (createTextEdit (H := platform) document
                <$> [fixR1; fixR2; fixR3]) ∧
    covered CommandIds.applyAllFixes st'
      = Some (createTextEdit (H := platform) document
                <$> [fixR1; fixR2; fixR3; fixS]).
Proof. eexists. split; [vm_compute; reflexivity|]. split; vm_compute; reflexivity. Qed.

(** C5 as stated fails: the request names a [colons] diagnostic first
    and the [semicolons] diagnostic last.  The first scoped fix is
    [fixR1], three entries of its rule are left by the overlap filter, and
    yet no same-rule action is offered: the handler compares with the rule
    of the last scoped fix. *)
Lemma sameFixes_first_scoped_counterexample :
  head (Fixes.getScoped edits [diagnosticR1; diagnosticS]) = Some fixR1 ∧
  Fixes.overlapFreeOf (withRule (ruleId fixR1) (Fixes.getAllSorted edits))
    = [fixR1; fixR2; fixR3] ∧
  ∃ st' result,
    codeActionHandler (H := platform)
      (CodeActionParams uri [diagnosticR1; diagnosticS]) validated
    = (st', Returns (CodeActions result)) ∧
    ¬ offers CommandIds.applySameFixes result.
Proof.
  split; [vm_compute; reflexivity|]. split; [vm_compute; reflexivity|].
  eexists _, _. split; [vm_compute; reflexivity|].
  intros (action & Hin & Hcommand).
  repeat (apply elem_of_cons in Hin as [->|Hin]; [discriminate Hcommand|]).
  by apply elem_of_nil in Hin.
Qed.

End CodeActionChecks.

(** ** The execute-command handler *)
Section ExecuteCommandFacts.
Context `{Platform}.

Lemma computeAllFixes_stale (st : State)
    (identifier : VersionedTextDocumentIdentifier.t) :
  staleFor st identifier → computeAllFixes identifier st = None.
Proof.
  unfold staleFor, computeAllFixes.
  destruct (documents_get st _) as [textDocument|]; [|done].
  intros Hne. by apply Z.eqb_neq in Hne as ->.
Qed.

Lemma computeAllFixes_fresh (st : State)
    (identifier : VersionedTextDocumentIdentifier.t)
    (edits' : list TextEdit.t) :
  computeAllFixes identifier st = Some edits' →
  ∃ textDocument fixes,
    documents_get st (VersionedTextDocumentIdentifier.uri identifier)
      = Some textDocument ∧
    VersionedTextDocumentIdentifier.version identifier
      = TextDocument.version textDocument ∧
    codeActions st !! VersionedTextDocumentIdentifier.uri identifier
      = Some fixes ∧
    edits' = createTextEdit textDocument <$> Fixes.getOverlapFree fixes.
Proof.
  unfold computeAllFixes.
  destruct (documents_get st _) as [textDocument|]; [|done].
  destruct (_ =? _) eqn:Ev; [|done]. simpl.
  destruct (codeActions st !! _) as [fixes|]; [|done].
  destruct (Fixes.isEmpty fixes); [done|]. simpl.
  intros [= <-]. exists textDocument, fixes.
  apply Z.eqb_eq in Ev. done.
Qed.

(** C9.  When [stylint.applyAutoFix] is executed with an identifier whose
    document is not open or whose version is not the open document's,
    [computeAllFixes] computes no edits and the handler returns the empty
    object and leaves the state as it is: no workspace edit is sent.  Edits
    are computed only for an open document at the identifier's version,
    and then they are the edits of [getOverlapFree] on the document's
    stored fixes. *)
Theorem applyAutoFix_checks_version (st : State)
    (identifier : VersionedTextDocumentIdentifier.t)
    (arguments : list VersionedTextDocumentIdentifier.t) :
  (staleFor st identifier →
     computeAllFixes identifier st = None ∧
     executeCommandHandler
       (ExecuteCommandParams CommandIds.applyAutoFix (identifier :: arguments))
       st = (st, Returns EmptyObject)) ∧
  (∀ edits', computeAllFixes identifier st = Some edits' →
     ∃ textDocument fixes,
       documents_get st (VersionedTextDocumentIdentifier.uri identifier)
         = Some textDocument ∧
       VersionedTextDocumentIdentifier.version identifier
         = TextDocument.version textDocument ∧
       codeActions st !! VersionedTextDocumentIdentifier.uri identifier
         = Some fixes ∧
       edits' = createTextEdit textDocument <$> Fixes.getOverlapFree fixes).
Proof.
  split; [|apply computeAllFixes_fresh].
  intros Hstale. split; [by apply computeAllFixes_stale|].
  unfold executeCommandHandler, commandWorkspaceChange. simpl.
  by rewrite computeAllFixes_stale.
Qed.

End ExecuteCommandFacts.

Module ExecuteCommandChecks.
Import Scenario.

Lemma applyAutoFix_checks_version_witness :
  staleFor validated staleIdentifier ∧
  executeCommandHandler (H := platform)
    (ExecuteCommandParams CommandIds.applyAutoFix [staleIdentifier]) validated
  = (validated, Returns EmptyObject).
Proof.
  assert (staleFor validated staleIdentifier) as Hstale
    by (vm_compute; discriminate).
  split; [exact Hstale|].
  exact (proj2 (proj1 (applyAutoFix_checks_version (H := platform) validated
                         staleIdentifier []) Hstale)).
Defined.

Example applyAutoFix_live_version :
  executeCommandHandler (H := platform)
    (ExecuteCommandParams CommandIds.applyAutoFix [liveIdentifier]) validated
  = (send (ApplyEdit
             (WorkspaceChange.mk uri 6
                (createTextEdit (H := platform) document
                   <$> [fixR1; fixR2; fixR3; fixS]))) validated,
     Returns ApplyEditThenable).
Proof. vm_compute. reflexivity. Qed.

End ExecuteCommandChecks.

(** ** [validate] and [validateSingle] *)
Section ValidateFacts.
Context `{Platform}.

Lemma chdir_spec (directory' : string) (st : State) :
  (directoryExists directory' = true ∧
   chdir directory' st = (with_cwd directory' st, None)) ∨
  (directoryExists directory' = false ∧
   chdir directory' st = (st, Some (chdirError directory'))).
Proof. unfold chdir. destruct (directoryExists directory'); auto. Qed.

Lemma changeDirectory_spec (file : option string)
    (settings : TextDocumentSettings) (st : State) :
  let r := changeDirectory file settings st in
  codeActions r.1 = codeActions st ∧ output r.1 = output st ∧
  objects r.1 = objects st ∧
  (r.2 = None → cwd r.1 = default (cwd st) (chdirTarget file settings)).
Proof.
  cbv zeta. unfold changeDirectory, chdirTarget.
  destruct (truthy file); [|done].
  destruct (workingDirectory settings) as [item|].
  - destruct (changeProcessCWD item); [|done].
    by destruct (chdir_spec (directory item) st) as [[_ ->]|[_ ->]].
  - destruct (workspaceFolder settings) as [folder|]; [|done].
    destruct (fileSchemePath (folderUri folder)) as [fsPath|]; [|done].
    by destruct (chdir_spec fsPath st) as [[_ ->]|[_ ->]].
Qed.

Lemma validatePrepare_spec (uri : string) (file : option string)
    (settings : TextDocumentSettings) (st st1 : State) (cli : StylintModule) :
  validatePrepare uri file settings st = (st1, inl cli) →
  codeActions st1 = delete uri (codeActions st) ∧ output st1 = output st ∧
  objects st1 = objects st ∧
  cwd st1 = default (cwd st) (chdirTarget file settings).
Proof.
  unfold validatePrepare.
  destruct (changeDirectory_spec file settings st) as (Hc & Ho & Hobj & Hcwd).
  destruct (changeDirectory file settings st) as [st' [thrown|]]; [done|].
  destruct (library settings); [|done].
  intros [= <- <-]. simpl in *. rewrite Hc, Ho, Hobj, Hcwd; done.
Qed.

(** C7.  For every call of [validate], whatever the linter run does
    (resolve, reject, or let other work move the process elsewhere
    meanwhile), the working directory after the call is the one before it,
    provided that directory still exists for [process.chdir]; and the
    linter is called in the directory of the working-directory item that
    asks for the change or, without such an item, in the path of the
    workspace folder. *)
Theorem validate_restores_cwd (document : nat)
    (settings : TextDocumentSettings) (publishDiagnostics : bool)
    (st : State) :
  directoryExists (cwd st) = true →
  cwd (validate document settings publishDiagnostics st).1 = cwd st ∧
  ∀ st1 cli,
    validatePrepare (TextDocument.uri (objects st document))
      (getFilePath (inr (objects st document))) settings st = (st1, inl cli) →
    cwd st1 =
      default (cwd st)
        (chdirTarget (getFilePath (inr (objects st document))) settings).
Proof.
  intros Hexists. split.
  - unfold validate.
    destruct (validateTry _ _ _ _ _ st) as [st1 completion].
    destruct (String.eqb (cwd st) (cwd st1)) eqn:E; simpl.
    + by apply String.eqb_eq in E.
    + unfold chdir. by rewrite Hexists.
  - intros st1 cli Hp. by apply validatePrepare_spec in Hp as (_ & _ & _ & ?).
Qed.

Lemma quietStep_refl (st : State) : quietStep st st.
Proof.
  split; [done|]. exists []. by rewrite app_nil_r.
Qed.

Lemma quietStep_trans (st1 st2 st3 : State) :
  quietStep st1 st2 → quietStep st2 st3 → quietStep st1 st3.
Proof.
  intros [Hc1 (s1 & Ho1 & Hs1)] [Hc2 (s2 & Ho2 & Hs2)].
  split; [congruence|]. exists (s1 ++ s2).
  split; [by rewrite Ho2, Ho1, app_assoc|by apply Forall_app].
Qed.

Lemma quietStep_send (o : Output) (st : State) :
  isSendDiagnostics o = false → quietStep st (send o st).
Proof.
  intros Ho. split; [done|]. exists [o]. split; [done|by constructor].
Qed.

Lemma quietStep_same (st st' : State) :
  codeActions st' = codeActions st → output st' = output st →
  quietStep st st'.
Proof.
  intros Hc Ho. split; [done|]. exists []. by rewrite app_nil_r.
Qed.

Lemma tryHandleNoConfig_quiet err document library' st :
  quietStep st (tryHandleNoConfig err document library' st).1.
Proof.
  unfold tryHandleNoConfig.
  destruct (negb (isNoConfigFoundError err)); simpl; [quiet_step|].
  destruct (negb (has _ _)); quiet_step.
Qed.

Lemma handleFileName_quiet err document library' filename st :
  quietStep st (handleFileName err document library' filename st).1.
Proof.
  unfold handleFileName. simpl.
  destruct (negb (has _ _)); [|quiet_step].
  destruct (documents_get _ _); quiet_step.
Qed.

Lemma tryHandleConfigError_quiet err document library' st :
  quietStep st (tryHandleConfigError err document library' st).1.
Proof.
  unfold tryHandleConfigError.
  destruct (negb (truthy (errorMessage err))); [quiet_step|].
  destruct (matchCannotReadConfig _); [apply handleFileName_quiet|].
  destruct (matchRuleConfiguration _); [apply handleFileName_quiet|].
  destruct (matchReferencedFrom _); [apply handleFileName_quiet|].
  quiet_step.
Qed.

Lemma tryHandleMissingModule_quiet err document library' st :
  quietStep st (tryHandleMissingModule err document library' st).1.
Proof.
  unfold tryHandleMissingModule.
  destruct (negb (truthy (errorMessage err))); [quiet_step|].
  destruct (matchFailedToLoadPlugin _) as [[plugin module']|];
    [|quiet_step].
  simpl. destruct (negb (has _ _)); quiet_step.
Qed.

Lemma showErrorMessage_quiet err document library' st :
  quietStep st (showErrorMessage err document library' st).1.
Proof.
  unfold showErrorMessage. simpl. destruct (stack err); quiet_step.
Qed.

Lemma runErrorHandlers_quiet reason document library' st :
  quietStep st
    (runErrorHandlers singleErrorHandlers reason document library' st).1.
Proof.
  unfold singleErrorHandlers. cbn [runErrorHandlers].
  pose proof (tryHandleNoConfig_quiet reason document library' st) as H1.
  destruct (tryHandleNoConfig reason document library' st) as [st1 [status|]];
    [done|].
  pose proof (tryHandleConfigError_quiet reason document library' st1) as H2.
  destruct (tryHandleConfigError reason document library' st1)
    as [st2 [status|]]; [by eapply quietStep_trans|].
  pose proof (tryHandleMissingModule_quiet reason document library' st2) as H3.
  destruct (tryHandleMissingModule reason document library' st2)
    as [st3 [status|]];
    [exact (quietStep_trans _ _ _ H1 (quietStep_trans _ _ _ H2 H3))|].
  pose proof (showErrorMessage_quiet reason document library' st3) as H4.
  destruct (showErrorMessage reason document library' st3)
    as [st4 [status|]]; simpl in *;
    exact (quietStep_trans _ _ _ H1
             (quietStep_trans _ _ _ H2 (quietStep_trans _ _ _ H3 H4))).
Qed.

Lemma resolveSettings_frame (uri : string) (st : State) :
  let r := resolveSettings uri st in
  objects r.2 = objects st ∧ documents r.2 = documents st ∧
  codeActions r.2 = codeActions st ∧ output r.2 = output st ∧
  cwd r.2 = cwd st.
Proof.
  cbv zeta. unfold resolveSettings.
  by destruct (document2Settings st !! uri).
Qed.

Lemma validate_rejected (document : nat) (settings : TextDocumentSettings)
    (publishDiagnostics : bool) (st st1 : State) (cli : StylintModule)
    (reason : StylintError) :
  let file := getFilePath (inr (objects st document)) in
  validatePrepare (TextDocument.uri (objects st document)) file settings st
    = (st1, inl cli) →
  (awaitLinter cli file st1).2 = Rejected reason →
  let r := validate document settings publishDiagnostics st in
  is_Some r.2 ∧
  codeActions r.1 = codeActions (awaitLinter cli file st1).1 ∧
  output r.1 = output (awaitLinter cli file st1).1.
Proof.
  cbv zeta. intros Hp Hr. unfold validate, validateTry. rewrite Hp.
  destruct (awaitLinter cli _ st1) as [st2 outcome]. simpl in *.
  subst outcome. simpl.
  destruct (String.eqb (cwd st) (cwd st2)); simpl; [by eauto|].
  destruct (chdir_spec (cwd st) st2) as [[_ ->]|[_ ->]]; simpl; by eauto.
Qed.

(** C10.  Whenever [validate] gets as far as calling the linter, the
    state it calls the linter in holds no candidate fixes of the document:
    they are deleted first.  So when the awaited linter run rejects (the
    process fails, or its output does not parse) and has not itself
    touched the fix store or the connection, the validation attempt of
    [validateSingle] ends with no fixes recorded for the document, and
    everything it sent is some message other than diagnostics: what was
    published before stays. *)
Theorem failed_validation_leaves_no_fixes (document : nat)
    (publishDiagnostics : bool) (st : State) :
  let uri := TextDocument.uri (objects st document) in
  let file := getFilePath (inr (objects st document)) in
  (∀ settings st0 st1 cli,
     validatePrepare uri file settings st0 = (st1, inl cli) →
     codeActions st1 !! uri = None) ∧
  (∀ settings st0 st1 cli reason,
     is_Some (documents_get st uri) →
     resolveSettings uri st = (settings, st0) →
     validate_ settings = true →
     validatePrepare uri file settings st0 = (st1, inl cli) →
     (awaitLinter cli file st1).2 = Rejected reason →
     codeActions (awaitLinter cli file st1).1 = codeActions st1 →
     output (awaitLinter cli file st1).1 = output st1 →
     codeActions (validateSingle document publishDiagnostics st) !! uri
       = None ∧
     ∃ sent,
       output (validateSingle document publishDiagnostics st)
         = output st ++ sent ∧
       Forall (λ o, isSendDiagnostics o = false) sent).
Proof.
  cbv zeta. split.
  { intros settings st0 st1 cli Hp.
    apply validatePrepare_spec in Hp as (-> & _).
    apply lookup_delete_eq. }
  intros settings st0 st1 cli reason [d Hopen] Hres Hvalidate Hp Hrej Hca Hout.
  destruct (resolveSettings_frame (TextDocument.uri (objects st document)) st)
    as (Hobj0 & _ & Hca0 & Hout0 & _).
  rewrite Hres in Hobj0, Hca0, Hout0. simpl in Hobj0, Hca0, Hout0.
  unfold validateSingle. rewrite Hopen, Hres, Hvalidate. simpl negb. cbv iota.
  rewrite <- Hobj0 in Hp, Hrej, Hca, Hout.
  destruct (validate_rejected document settings publishDiagnostics st0 st1
              cli reason Hp Hrej) as ([e He] & Hca3 & Hout3).
  destruct (validate document settings publishDiagnostics st0)
    as [st3 completion]. cbn [fst snd] in He, Hca3, Hout3. subst completion.
  pose proof (runErrorHandlers_quiet e (objects st3 document)
                (library settings) st3) as [Hca4 (sent & Hout4 & Hsent)].
  destruct (runErrorHandlers singleErrorHandlers e (objects st3 document)
              (library settings) st3) as [st4 status].
  simpl in Hca4, Hout4. simpl.
  apply validatePrepare_spec in Hp as (Hca1 & Hout1 & _).
  split.
  - rewrite Hca4, Hca3, Hca, Hca1, Hobj0. apply lookup_delete_eq.
  - exists (sent ++ [SendStatus (default error status)]).
    split.
    + rewrite Hout4, Hout3, Hout, Hout1, Hout0. by rewrite app_assoc.
    + apply Forall_app. split; [done|]. by repeat constructor.
Qed.

End ValidateFacts.

Module ValidateChecks.
Import Scenario.

(** The linter rejects and the process was meanwhile moved to
    [/elsewhere]: [validate] still ends in [/home]. *)
Lemma validate_restores_cwd_witness :
  @directoryExists failing (cwd validated) = true ∧
  cwd (validate (H := failing) 0 settings true validated).1 = cwd validated.
Proof.
  assert (@directoryExists failing (cwd validated) = true) as Hexists
    by (vm_compute; reflexivity).
  split; [exact Hexists|].
  exact (proj1 (validate_restores_cwd (H := failing) 0 settings true validated
                  Hexists)).
Defined.

Example validate_runs_linter_in_workspace_folder :
  ∃ st1 cli,
    validatePrepare (H := failing) uri (Some "/work/main.styl") settings
      validated = (st1, inl cli) ∧
    cwd st1 = "/work" ∧ codeActions st1 !! uri = None.
Proof. eexists _, _. split; [vm_compute; reflexivity|]. by vm_compute. Qed.

Example validate_rejects_with_reason :
  (validate (H := failing) 0 settings true validated).2 = Some noConfigFound.
Proof. vm_compute. reflexivity. Qed.

(** A missing target directory: [process.chdir] throws inside [try], the
    linter is not called and the fixes stay. *)
Example validate_missing_directory :
  let settings' :=
    mkSettings true true false None "/ext/reporter.js" onType None
      (Some (mkDirectoryItem "/missing" true)) (Some library') in
  let r := validate (H := platform) 0 settings' true validated in
  cwd r.1 = "/home" ∧ is_Some r.2 ∧ codeActions r.1 !! uri = Some edits.
Proof. vm_compute. split; [done|]. split; [by eexists|done]. Qed.

(** The document has four recorded fixes; a validation whose linter run
    rejects leaves none, and sends the no-config request and a [warn]
    status but no diagnostics. *)
Lemma failed_validation_leaves_no_fixes_witness :
  codeActions validated !! uri = Some edits ∧
  codeActions (validateSingle (H := failing) 0 true validated) !! uri = None ∧
  ∃ sent,
    output (validateSingle (H := failing) 0 true validated)
      = output validated ++ sent ∧
    Forall (λ o, isSendDiagnostics o = false) sent.
Proof.
  split; [vm_compute; reflexivity|].
  eapply (proj2 (failed_validation_leaves_no_fixes (H := failing) 0 true
                   validated)).
  - vm_compute. by eexists.
  - vm_compute. reflexivity.
  - vm_compute. reflexivity.
  - vm_compute. reflexivity.
  - vm_compute. reflexivity.
  - vm_compute. reflexivity.
  - vm_compute. reflexivity.
Defined.

Example getMessage_strips_prefix :
  getMessage
    (mkError None (Some ("CLI: bad" +:+ newline +:+ "config")) None) document
  = "bad config".
Proof. reflexivity. Qed.

Example failed_validation_output :
  output (validateSingle (H := failing) 0 true validated) =
  output validated ++
  [SendNoConfigRequest "No Stylint configuration found." uri; SendStatus warn].
Proof. vm_compute. reflexivity. Qed.

End ValidateChecks.

(** ** The watched-files handler *)
Section WatchedFilesFacts.
Context `{Platform}.

Lemma watchedChange_frame (st : State) (change : string) :
  let st' := watchedChange st change in
  noConfigReported st' = noConfigReported st ∧
  missingModuleReported st' = missingModuleReported st ∧
  objects st' = objects st ∧ documents st' = documents st ∧
  queue st' = queue st ∧ timer st' = timer st.
Proof.
  cbv zeta. unfold watchedChange.
  destruct (getFilePath (inl change)) as [fsPath|]; [|done].
  destruct (String.eqb fsPath EmptyString || isUNC fsPath); [done|].
  destruct (negb (String.eqb (dirname fsPath) EmptyString)); [|done].
  destruct (configErrorReported st !! fsPath) as [[cli|]|]; [|done..].
  by destruct (validateThrows cli _).
Qed.

Lemma retried_single (change : string) (st : State) (path : string) :
  retried [change] st path ↔
  ∃ cli,
    getFilePath (inl change) = Some path ∧
    path ≠ EmptyString ∧ isUNC path = false ∧
    dirname path ≠ EmptyString ∧
    configErrorReported st !! path = Some (Some cli) ∧
    validateThrows cli (joinPath (dirname path) "*.styl") = false.
Proof.
  unfold retried. split.
  - intros (c & cli & Hin & Hrest).
    apply list_elem_of_singleton in Hin as ->. by exists cli.
  - intros (cli & Hrest). exists change, cli.
    split; [by apply list_elem_of_singleton|done].
Qed.

(** One change removes at most the entry of its own file path, and only
    when it retries it. *)
Lemma watchedChange_entry (st : State) (change path : string) :
  let st' := watchedChange st change in
  (configErrorReported st' !! path = None ∧ retried [change] st path) ∨
  (configErrorReported st' !! path = configErrorReported st !! path ∧
   ¬ retried [change] st path).
Proof.
  cbv zeta. rewrite retried_single. unfold watchedChange.
  destruct (getFilePath (inl change)) as [fsPath|] eqn:Efile;
    [|right; split; [done|]; intros (cli & ? & _); congruence].
  destruct (String.eqb fsPath EmptyString) eqn:Eempty; simpl.
  { apply String.eqb_eq in Eempty. right. split; [done|].
    intros (cli & Hp & Hne & _). congruence. }
  apply String.eqb_neq in Eempty.
  destruct (isUNC fsPath) eqn:Eunc.
  { right. split; [done|]. intros (cli & Hp & _ & Hu & _). congruence. }
  destruct (String.eqb (dirname fsPath) EmptyString) eqn:Edir; simpl.
  { apply String.eqb_eq in Edir. right. split; [done|].
    intros (cli & Hp & _ & _ & Hd & _). congruence. }
  apply String.eqb_neq in Edir.
  destruct (configErrorReported st !! fsPath) as [[cli|]|] eqn:Eentry.
  - destruct (validateThrows cli _) eqn:Ethrows.
    + right. split; [done|].
      intros (cli' & Hp & _ & _ & _ & He & Ht).
      assert (path = fsPath) as -> by congruence.
      assert (cli' = cli) as -> by congruence. congruence.
    + destruct (decide (path = fsPath)) as [->|Hne].
      * left. split; [apply lookup_delete_eq|]. by exists cli.
      * right. split; [by apply lookup_delete_ne|].
        intros (cli' & Hp & _). congruence.
  - right. split; [done|].
    intros (cli' & Hp & _ & _ & _ & He & _).
    assert (path = fsPath) as -> by congruence. congruence.
  - right. split; [done|].
    intros (cli' & Hp & _ & _ & _ & He & _).
    assert (path = fsPath) as -> by congruence. congruence.
Qed.

Lemma retried_cons (change : string) (changes : list string) (st st1 : State)
    (path : string) :
  configErrorReported st1 !! path = configErrorReported st !! path →
  retried (change :: changes) st path ↔
  retried [change] st path ∨ retried changes st1 path.
Proof.
  intros Hsame. unfold retried. rewrite Hsame. split.
  - intros (c & cli & Hin & Hrest). apply elem_of_cons in Hin as [->|Hin].
    + left. exists change, cli. split; [by apply list_elem_of_singleton|done].
    + right. by exists c, cli.
  - intros [(c & cli & Hin & Hrest)|(c & cli & Hin & Hrest)].
    + apply list_elem_of_singleton in Hin as ->.
      exists change, cli. split; [by left|done].
    + exists c, cli. split; [by right|done].
Qed.

Lemma watchedChanges_entry (changes : list string) (st : State)
    (path : string) :
  let st' := fold_left watchedChange changes st in
  (configErrorReported st' !! path = None ∧ retried changes st path) ∨
  (configErrorReported st' !! path = configErrorReported st !! path ∧
   ¬ retried changes st path).
Proof.
  cbv zeta. revert st. induction changes as [|change changes IH]; intros st.
  - right. split; [done|]. intros (c & cli & Hin & _).
    by apply elem_of_nil in Hin.
  - simpl.
    destruct (watchedChange_entry st change path) as [[Hnone Hr]|[Hsame Hnr]].
    + left. split.
      * destruct (IH (watchedChange st change)) as [[-> _]|[-> _]]; done.
      * destruct Hr as (c & cli & Hin & Hrest).
        apply list_elem_of_singleton in Hin as ->.
        exists change, cli. split; [by left|done].
    + destruct (IH (watchedChange st change)) as [[Hn Hr]|[Hs Hn]].
      * left. split; [done|].
        apply (retried_cons change changes st _ path Hsame). by right.
      * right. split; [congruence|].
        rewrite (retried_cons change changes st _ path Hsame). tauto.
Qed.

Lemma watchedChanges_frame (changes : list string) (st : State) :
  let st' := fold_left watchedChange changes st in
  noConfigReported st' = noConfigReported st ∧
  missingModuleReported st' = missingModuleReported st ∧
  objects st' = objects st ∧ documents st' = documents st ∧
  queue st' = queue st ∧ timer st' = timer st.
Proof.
  cbv zeta. revert st. induction changes as [|change changes IH]; intros st;
    [done|].
  simpl. destruct (IH (watchedChange st change)) as (-> & -> & -> & -> & -> & ->).
  apply watchedChange_frame.
Qed.

Lemma addNotificationMessage_frame method params version' (st : State) :
  let st' := addNotificationMessage method params version' st in
  queue st' = queue st ++ [Notification method params (Some version')] ∧
  objects st' = objects st ∧ documents st' = documents st ∧
  noConfigReported st' = noConfigReported st ∧
  missingModuleReported st' = missingModuleReported st ∧
  configErrorReported st' = configErrorReported st ∧
  timer st' = true.
Proof.
  cbv zeta. unfold addNotificationMessage, trigger. simpl.
  destruct (timer st) eqn:Et; simpl; [done|].
  rewrite length_app. simpl.
  replace (length (queue st) + 1 =? 0)%nat with false
    by (symmetry; apply Nat.eqb_neq; lia).
  done.
Qed.

Lemma validateMany_frame (documents' : list nat) (st : State) :
  let st' := validateMany documents' st in
  queue st' = queue st ++ (validateMessage st <$> documents') ∧
  objects st' = objects st ∧ documents st' = documents st ∧
  noConfigReported st' = noConfigReported st ∧
  missingModuleReported st' = missingModuleReported st ∧
  configErrorReported st' = configErrorReported st.
Proof.
  cbv zeta. unfold validateMany. revert st.
  induction documents' as [|document documents' IH]; intros st; simpl.
  - by rewrite app_nil_r.
  - destruct (addNotificationMessage_frame validateMethod
                (ValidateParams document)
                (TextDocument.version (objects st document)) st)
      as (Hq & Ho & Hd & Hn & Hm & Hc & _).
    destruct (IH (addNotificationMessage validateMethod
                    (ValidateParams document)
                    (TextDocument.version (objects st document)) st))
      as (-> & -> & -> & -> & -> & ->).
    split; [|by rewrite Ho, Hd, Hn, Hm, Hc].
    rewrite Hq, <- app_assoc. simpl. f_equal. f_equal.
    apply list_fmap_ext. intros i d _. unfold validateMessage. by rewrite Ho.
Qed.

(** C6, as the code has it.  The watched-files handler empties the
    no-config set and the missing-module set.  From the config-error set
    it removes exactly the entries it retries: those keyed by the file path
    of a changed file whose library runs over the file's directory without
    throwing; every other entry is kept.  Then it adds a validation
    notification for every open document to the queue. *)
Theorem watchedFiles_clears_reports (changes : list string) (st : State) :
  let st' :=
    (didChangeWatchedFilesHandler (DidChangeWatchedFilesParams changes) st).1 in
  noConfigReported st' = ∅ ∧
  missingModuleReported st' = ∅ ∧
  (∀ path,
     (configErrorReported st' !! path = None ∧ retried changes st path) ∨
     (configErrorReported st' !! path = configErrorReported st !! path ∧
      ¬ retried changes st path)) ∧
  queue st' = queue st ++ (validateMessage st <$> documents_all st).
Proof.
  cbv zeta. unfold didChangeWatchedFilesHandler. cbn [fst].
  set (st0 := with_missingModuleReported ∅ (with_noConfigReported ∅ st)).
  destruct (watchedChanges_frame changes st0) as (Hn & Hm & Ho & Hd & Hq & _).
  destruct (validateMany_frame
              (documents_all (fold_left watchedChange changes st0))
              (fold_left watchedChange changes st0))
    as (Hq' & _ & _ & Hn' & Hm' & Hc').
  rewrite Hn', Hm', Hc', Hq', Hn, Hm, Hq. unfold documents_all. rewrite Hd.
  split; [done|]. split; [done|]. split.
  - intros path. apply (watchedChanges_entry changes st0 path).
  - simpl. f_equal. apply list_fmap_ext. intros i document _.
    unfold validateMessage. by rewrite Ho.
Qed.

End WatchedFilesFacts.

Module WatchedFilesChecks.
Import Scenario.

(** C6 as stated fails: another configuration file changes, and the
    config-error entry of [/work/.stylintrc] is still there after the
    handler, while the two other sets are empty. *)
Lemma configErrorReported_kept_counterexample :
  configErrorReported
    (didChangeWatchedFilesHandler (H := platform)
       (DidChangeWatchedFilesParams ["file:///work/sub/.stylintrc"])
       reported).1
  !! "/work/.stylintrc" = Some (Some library').
Proof. vm_compute. reflexivity. Qed.

Lemma watchedFiles_clears_reports_witness :
  noConfigReported reported !! uri = Some (Some library') ∧
  missingModuleReported reported !! "stylint-plugin" = Some (Some library') ∧
  noConfigReported
    (didChangeWatchedFilesHandler (H := platform)
       (DidChangeWatchedFilesParams ["file:///work/sub/.stylintrc"])
       reported).1 = ∅ ∧
  missingModuleReported
    (didChangeWatchedFilesHandler (H := platform)
       (DidChangeWatchedFilesParams ["file:///work/sub/.stylintrc"])
       reported).1 = ∅.
Proof.
  split; [vm_compute; reflexivity|]. split; [vm_compute; reflexivity|].
  pose proof (watchedFiles_clears_reports (H := platform)
                ["file:///work/sub/.stylintrc"] reported) as (Hn & Hm & _).
  split; [exact Hn|exact Hm].
Defined.

(** The changed file is the one whose error was reported and the trial
    run does not throw: its entry goes, and the open document is queued
    for validation with the timer armed. *)
Example watchedFiles_retries_changed_file :
  let st' :=
    (didChangeWatchedFilesHandler (H := platform)
       (DidChangeWatchedFilesParams ["file:///work/.stylintrc"]) reported).1 in
  configErrorReported st' = ∅ ∧
  queue st' = [Notification validateMethod (ValidateParams 0) (Some 6)] ∧
  timer st' = true.
Proof. vm_compute. done. Qed.

End WatchedFilesChecks.

(** ** The message queue *)
Section QueueFacts.
Context `{Platform}.

Lemma versionChanged_stale (elem : Registered) (recorded : Z)
    (provider : Params → State → option Z) (params : Params) (st : State) :
  versionProvider elem = Some provider →
  provider params st ≠ Some recorded →
  versionChanged elem (Some recorded) params st = true.
Proof.
  intros Hp Hne. unfold versionChanged. rewrite Hp.
  rewrite bool_decide_eq_false_2; [done|congruence].
Qed.

Lemma processQueue_stale_request (rh nh : gmap string Registered) (st : State)
    (method : string) (params : Params) (recorded : Z) (id : nat)
    (token : CancellationToken) (rest : list Message) (elem : Registered)
    (provider : Params → State → option Z) :
  queue st = Request method params (Some recorded) id token :: rest →
  rh !! method = Some elem →
  versionProvider elem = Some provider →
  provider params (with_queue rest st) ≠ Some recorded →
  processQueue rh nh st = send (Reject id RequestCancelled) (with_queue rest st).
Proof.
  intros Hq Hrh Hp Hne. unfold processQueue. rewrite Hq.
  destruct (isCancellationRequested token); [done|].
  rewrite Hrh. by rewrite (versionChanged_stale _ _ provider).
Qed.

Lemma processQueue_stale_notification (rh nh : gmap string Registered)
    (st : State) (method : string) (params : Params) (recorded : Z)
    (rest : list Message) (elem : Registered)
    (provider : Params → State → option Z) :
  queue st = Notification method params (Some recorded) :: rest →
  nh !! method = Some elem →
  versionProvider elem = Some provider →
  provider params (with_queue rest st) ≠ Some recorded →
  processQueue rh nh st = with_queue rest st.
Proof.
  intros Hq Hnh Hp Hne. unfold processQueue. rewrite Hq, Hnh.
  by rewrite (versionChanged_stale _ _ provider).
Qed.

(** C1.  A dequeued message with a recorded document version whose
    registered version provider, applied to the message's params, returns
    another version (or none) is not handled, whatever its handler is: a
    request is rejected with [RequestCancelled], and a notification is
    dropped with the state otherwise as it was.  In particular, with the
    handlers the server registers, a [stylint/validate] notification
    recorded at version [vi] and dequeued when its document object is at
    a version [vj > vi] is dropped: no validation runs. *)
Theorem stale_message_not_handled :
  (∀ (rh nh : gmap string Registered) (st : State) (method : string)
     (params : Params) (recorded : Z) (id : nat) (token : CancellationToken)
     (rest : list Message) (elem : Registered)
     (provider : Params → State → option Z),
     queue st = Request method params (Some recorded) id token :: rest →
     rh !! method = Some elem →
     versionProvider elem = Some provider →
     provider params (with_queue rest st) ≠ Some recorded →
     processQueue rh nh st
       = send (Reject id RequestCancelled) (with_queue rest st)) ∧
  (∀ (rh nh : gmap string Registered) (st : State) (method : string)
     (params : Params) (recorded : Z) (rest : list Message)
     (elem : Registered) (provider : Params → State → option Z),
     queue st = Notification method params (Some recorded) :: rest →
     nh !! method = Some elem →
     versionProvider elem = Some provider →
     provider params (with_queue rest st) ≠ Some recorded →
     processQueue rh nh st = with_queue rest st) ∧
  (∀ (st : State) (document : nat) (vi vj : Z) (rest : list Message),
     queue st
       = Notification validateMethod (ValidateParams document) (Some vi)
         :: rest →
     TextDocument.version (objects st document) = vj →
     vi < vj →
     processQueue requestHandlers notificationHandlers st
       = with_queue rest st).
Proof.
  split; [apply processQueue_stale_request|].
  split; [apply processQueue_stale_notification|].
  intros st document vi vj rest Hq Hv Hlt.
  eapply (processQueue_stale_notification _ _ _ _ _ _ _ _ validateVersion);
    [exact Hq|apply lookup_insert_eq|done|].
  simpl. intros [= E]. lia.
Qed.

(** Where the handler runs and returns, [processQueue] ends with
    [trigger], which arms the timer when the queue is not empty. *)
Lemma processQueue_handled_notification (rh nh : gmap string Registered)
    (st st' : State) (method : string) (params : Params)
    (documentVersion' : option Z) (rest : list Message) (elem : Registered)
    (result : Result) :
  queue st = Notification method params documentVersion' :: rest →
  nh !! method = Some elem →
  versionChanged elem documentVersion' params (with_queue rest st) = false →
  handler elem params (with_queue rest st) = (st', Returns result) →
  processQueue rh nh st = trigger st'.
Proof.
  intros Hq Hnh Hv Hh. unfold processQueue. by rewrite Hq, Hnh, Hv, Hh.
Qed.

Lemma trigger_arms (st : State) :
  timer (trigger st) = timer st || negb (length (queue st) =? 0)%nat.
Proof.
  unfold trigger. destruct (timer st) eqn:Et; simpl; [done|].
  by destruct (length (queue st) =? 0)%nat.
Qed.

(** A request that is rejected at the head of the queue leaves the timer
    unarmed, whatever is left in the queue. *)
Lemma immediateCallback_cancelled (rh nh : gmap string Registered)
    (st : State) (method : string) (params : Params)
    (documentVersion' : option Z) (id : nat) (rest : list Message) :
  queue st = Request method params documentVersion' id (mkToken true) :: rest →
  immediateCallback rh nh st
    = send (Reject id RequestCancelled)
        (with_queue rest (with_timer false st)).
Proof.
  intros Hq. unfold immediateCallback, processQueue. simpl. by rewrite Hq.
Qed.

End QueueFacts.

Module QueueChecks.
Import Scenario.

Lemma stale_message_not_handled_witness :
  queue outdated
    = [Notification validateMethod (ValidateParams 0) (Some 5)] ∧
  TextDocument.version (objects outdated 0) = 6 ∧
  processQueue (requestHandlers (H := platform))
    (notificationHandlers (H := platform)) outdated
  = with_queue [] outdated.
Proof.
  split; [reflexivity|]. split; [reflexivity|].
  exact (proj2 (proj2 (stale_message_not_handled (H := platform)))
           outdated 0%nat 5 6 [] eq_refl eq_refl eq_refl).
Defined.

(** At the live version the same notification is handled: the document
    is validated again. *)
Example live_message_is_handled :
  output
    (processQueue (requestHandlers (H := platform))
       (notificationHandlers (H := platform))
       (with_queue [Notification validateMethod (ValidateParams 0) (Some 6)]
          validated))
  = output validated ++ output validated.
Proof. vm_compute. reflexivity. Qed.

(** C3 fails on the code.  The timer fires with a cancelled request at
    the head of the queue: the request is rejected, [processQueue] returns
    before [trigger], and the timer stays unarmed with the validation
    notification still queued.  However often the event loop turns, the
    notification is not processed until something else is enqueued. *)
Theorem cancelled_request_stalls_queue (fuel : nat) :
  drain (requestHandlers (H := platform)) (notificationHandlers (H := platform))
    (S fuel) cancelledFirst
  = send (Reject 1 RequestCancelled)
      (with_timer false
         (with_queue [Notification validateMethod (ValidateParams 0) (Some 6)]
            validated)).
Proof.
  cbn [drain].
  replace (timer cancelledFirst) with true by reflexivity.
  replace (immediateCallback requestHandlers notificationHandlers
             cancelledFirst)
    with (send (Reject 1 RequestCancelled)
            (with_timer false
               (with_queue
                  [Notification validateMethod (ValidateParams 0) (Some 6)]
                  validated)))
    by (vm_compute; reflexivity).
  by destruct fuel.
Qed.

(** The same stall after a request that is rejected for its stale
    version. *)
Example stale_request_stalls_queue (fuel : nat) :
  let st' :=
    drain (requestHandlers (H := platform))
      (notificationHandlers (H := platform)) (S fuel) staleFirst in
  timer st' = false ∧
  queue st' = [Notification validateMethod (ValidateParams 0) (Some 6)].
Proof.
  cbv zeta. cbn [drain].
  replace (timer staleFirst) with true by reflexivity.
  replace (immediateCallback requestHandlers notificationHandlers staleFirst)
    with (send (Reject 1 RequestCancelled)
            (with_timer false
               (with_queue
                  [Notification validateMethod (ValidateParams 0) (Some 6)]
                  validated)))
    by (vm_compute; reflexivity).
  by destruct fuel.
Qed.

(** And after a dropped notification: the validation of the live
    version stays in the queue. *)
Example stale_notification_stalls_queue (fuel : nat) :
  drain (requestHandlers (H := platform)) (notificationHandlers (H := platform))
    (S fuel) typedFast
  = with_timer false
      (with_queue [Notification validateMethod (ValidateParams 0) (Some 6)]
         validated).
Proof.
  cbn [drain].
  replace (timer typedFast) with true by reflexivity.
  replace (immediateCallback requestHandlers notificationHandlers typedFast)
    with (with_timer false
            (with_queue
               [Notification validateMethod (ValidateParams 0) (Some 6)]
               validated))
    by (vm_compute; reflexivity).
  by destruct fuel.
Qed.

(** With a request that is handled the queue drains: the notification
    behind it is processed by the next turn. *)
Example handled_request_drains_queue :
  let st' :=
    drain (requestHandlers (H := platform))
      (notificationHandlers (H := platform)) 3
      (with_timer true
         (with_queue
            [Request "textDocument/codeAction" (CodeActionParams uri [])
               (Some 6) 1 (mkToken false);
             Notification validateMethod (ValidateParams 0) (Some 6)]
            validated)) in
  timer st' = false ∧ queue st' = [].
Proof. vm_compute. done. Qed.

End QueueChecks.

(** * Further properties *)

(** ** Diagnostic keys *)
Module KeyFacts.









(** An absent code and the code [undefined] give the same key. *)
Example computeKey_undefined_code :
  computeKey
    (Diagnostic.mk "m" DiagnosticSeverity.Error "stylint"
       (Range.mk (Position.mk 1 2) (Position.mk 3 4)) None)
  = computeKey
    (Diagnostic.mk "m" DiagnosticSeverity.Error "stylint"
       (Range.mk (Position.mk 1 2) (Position.mk 3 4)) (Some "undefined")).
Proof. reflexivity. Qed.

End KeyFacts.

(** ** The fix store *)
Module StoreFacts.
Import Fixes FixesFacts.

Lemma get_set_eq (edits : Fixes.t) (key : string) (v : AutoFix) :
  get (set edits key v) key = Some v.
Proof.
  induction edits as [|[k w] edits IH]; simpl.
  - by rewrite decide_True.
  - destruct (decide (k = key)) as [->|Hne]; simpl.
    + by rewrite decide_True.
    + by rewrite decide_False.
Qed.

Lemma get_set_ne (edits : Fixes.t) (key key' : string) (v : AutoFix) :
  key ≠ key' → get (set edits key v) key' = get edits key'.
Proof.
  intros Hne. induction edits as [|[k w] edits IH]; simpl.
  - by rewrite decide_False.
  - destruct (decide (k = key)) as [->|Hk]; simpl.
    + by rewrite !decide_False.
    + by rewrite IH.
Qed.

Lemma get_Some_elem (edits : Fixes.t) (key : string) (v : AutoFix) :
  get edits key = Some v → (key, v) ∈ edits.
Proof.
  induction edits as [|[k w] edits IH]; simpl; [done|].
  destruct (decide (k = key)) as [->|Hk].
  - intros [= ->]. by left.
  - intros Hg. right. by apply IH.
Qed.

Lemma get_None_key (edits : Fixes.t) (key : string) :
  get edits key = None ↔ key ∉ edits.*1.
Proof.
  induction edits as [|[k w] edits IH]; simpl.
  - split; [intros _; apply not_elem_of_nil|done].
  - destruct (decide (k = key)) as [->|Hk].
    + split; [done|]. intros Hn. exfalso. apply Hn. by left.
    + rewrite IH, not_elem_of_cons.
      split; [intros ?; split; [congruence|done]|by intros [_ ?]].
Qed.

Lemma set_elem (edits : Fixes.t) (key k : string) (v w : AutoFix) :
  (k, w) ∈ set edits key v → (k, w) = (key, v) ∨ (k, w) ∈ edits.
Proof.
  induction edits as [|[k' w'] edits IH]; simpl.
  - intros Hin. apply list_elem_of_singleton in Hin. by left.
  - destruct (decide (k' = key)) as [->|Hk]; intros Hin;
      apply elem_of_cons in Hin as [Hin|Hin].
    + by left.
    + right. by right.
    + right. rewrite Hin. by left.
    + destruct (IH Hin); [by left|right; by right].
Qed.

(** X2.  [getScoped] looks every diagnostic up by its key and returns
    what it finds in the order of the diagnostics: each returned fix is
    stored under the key of one of the diagnostics, diagnostics whose key
    is not stored contribute nothing, and scoping a concatenation is
    concatenating the scoped lists. *)
Theorem getScoped_spec (edits : Fixes.t) (ds ds' : list Diagnostic.t) :
  getScoped edits ds = omap (λ d, get edits (computeKey d)) ds ∧
  getScoped edits (ds ++ ds') = getScoped edits ds ++ getScoped edits ds' ∧
  (∀ e, e ∈ getScoped edits ds →
     ∃ d, d ∈ ds ∧ (computeKey d, e) ∈ edits) ∧
  ((∀ d, d ∈ ds → computeKey d ∉ edits.*1) → getScoped edits ds = []) ∧
  (length (getScoped edits ds) ≤ length ds)%nat.
Proof.
  assert (Homap : ∀ l, getScoped edits l
                       = omap (λ d, get edits (computeKey d)) l).
  { induction l as [|d l IH]; simpl; [done|].
    rewrite IH. by destruct (get edits (computeKey d)). }
  split; [apply Homap|]. split; [by rewrite !Homap, omap_app|].
  rewrite Homap. split; [|split].
  - intros e He. apply list_elem_of_omap in He as (d & Hd & Hg).
    exists d. split; [done|]. by apply get_Some_elem.
  - intros Habsent. induction ds as [|d ds IH]; simpl; [done|].
    rewrite (proj2 (get_None_key edits (computeKey d)))
      by (apply Habsent; by left).
    apply IH. intros d' Hd'. apply Habsent. by right.
  - clear. induction ds as [|d ds IH]; csimpl; [done|].
    destruct (get edits (computeKey d)); csimpl; lia.
Qed.

(** X3.  [getOverlapFree] of a store that is not empty is not empty: it
    starts with the first entry of [getAllSorted].  Filtering its result
    again changes nothing. *)
Theorem getOverlapFree_head_idempotent (edits : Fixes.t) :
  (isEmpty edits = false →
     getOverlapFree edits ≠ [] ∧
     head (getOverlapFree edits) = head (getAllSorted edits)) ∧
  overlapFreeOf (getOverlapFree edits) = getOverlapFree edits.
Proof.
  unfold getOverlapFree. rewrite !overlapFreeOf_scan. split.
  - intros Hne.
    assert (getAllSorted edits ≠ []) as Hsorted.
    { intros E. pose proof (getAllSorted_perm edits) as Hp.
      rewrite E in Hp. apply Permutation_nil in Hp.
      unfold values in Hp. destruct edits; done. }
    destruct (getAllSorted edits) as [|x l]; [done|]. simpl. done.
  - rewrite <- overlapFreeOf_scan. apply overlapFreeOf_keeps_all.
    apply scanFrom_nonoverlapping, sorted_startsAscend, getAllSorted_sorted.
Qed.

End StoreFacts.

(** ** Recording fixes and publishing diagnostics *)
Section RecordFacts.
Context `{Platform}.
Import StoreFacts.

Lemma recordCodeAction_recorded (document : TextDocument.t)
    (problem : StylintProblem) (st : State) :
  recordCodeAction document (makeDiagnostic problem) problem st =
  match recordedFix document problem with
  | Some (key, autoFix') =>
      with_codeActions
        (<[TextDocument.uri document :=
             Fixes.set (default [] (codeActions st !! TextDocument.uri document))
               key autoFix']> (codeActions st)) st
  | None => st
  end.
Proof.
  unfold recordCodeAction, recordedFix.
  destruct (fix_ problem); [|done]. by destruct (truthy (rule problem)).
Qed.

(** X4.  [recordCodeAction] leaves the state as it is for a problem
    without a fix or without a rule id.  Otherwise the fix can afterwards
    be looked up under the key of the diagnostic, with the label made from
    the rule id and stamped with the version of the document; what was
    stored under other keys and for other documents stays. *)
Theorem recordCodeAction_spec (document : TextDocument.t)
    (diagnostic : Diagnostic.t) (problem : StylintProblem) (st : State) :
  let st' := recordCodeAction document diagnostic problem st in
  let uri := TextDocument.uri document in
  ((fix_ problem = None ∨ truthy (rule problem) = false) → st' = st) ∧
  (∀ fix' rule',
     fix_ problem = Some fix' → rule problem = Some rule' →
     rule' ≠ EmptyString →
     ∃ edits',
       codeActions st' !! uri = Some edits' ∧
       Fixes.get edits' (computeKey diagnostic)
         = Some (mkAutoFix ("Fix this " +:+ rule' +:+ " problem")
                   (TextDocument.version document) rule' fix') ∧
       ∀ key, key ≠ computeKey diagnostic →
         Fixes.get edits' key
           = Fixes.get (default [] (codeActions st !! uri)) key) ∧
  (∀ u, u ≠ uri → codeActions st' !! u = codeActions st !! u).
Proof.
  cbv zeta. unfold recordCodeAction. split; [|split].
  - intros [->|Hr]; [done|]. destruct (fix_ problem); [|done]. by rewrite Hr.
  - intros fix' rule' -> -> Hne. simpl.
    apply String.eqb_neq in Hne as ->. simpl.
    eexists. split; [apply lookup_insert_eq|].
    split; [apply get_set_eq|]. intros key Hkey. by apply get_set_ne.
  - intros u Hu. destruct (fix_ problem); [|done].
    destruct (truthy (rule problem)); [|done]. simpl.
    by rewrite lookup_insert_ne.
Qed.

Lemma problemSteps_spec (document : nat) (settings : TextDocumentSettings)
    (messages' : list (option StylintProblem)) (diagnostics : list Diagnostic.t)
    (st : State) :
  let r := fold_left (problemStep document settings) messages'
             (diagnostics, st) in
  let uri := TextDocument.uri (objects st document) in
  r.1 = diagnostics ++ (makeDiagnostic <$> omap id messages') ∧
  output r.2 = output st ∧ objects r.2 = objects st ∧ cwd r.2 = cwd st ∧
  (∀ u, u ≠ uri → codeActions r.2 !! u = codeActions st !! u) ∧
  (autoFix settings = false → codeActions r.2 = codeActions st) ∧
  (autoFix settings = true →
     default [] (codeActions r.2 !! uri)
     = recordAll (objects st document) (omap id messages')
         (default [] (codeActions st !! uri))).
Proof.
  cbv zeta. revert diagnostics st.
  induction messages' as [|[problem|] messages' IH]; intros diagnostics st.
  - simpl. by rewrite app_nil_r.
  - cbn [fold_left problemStep fst snd omap list_omap id].
    set (st1 := if autoFix settings
                then recordCodeAction (objects st document)
                       (makeDiagnostic problem) problem st
                else st).
    assert (Hframe : output st1 = output st ∧ objects st1 = objects st ∧
                     cwd st1 = cwd st).
    { unfold st1. destruct (autoFix settings); [|done].
      rewrite recordCodeAction_recorded.
      by destruct (recordedFix _ _) as [[??]|]. }
    destruct Hframe as (Ho & Hobj & Hcwd).
    destruct (IH (diagnostics ++ [makeDiagnostic problem]) st1)
      as (-> & -> & -> & -> & Hother & Hoff & Hon).
    rewrite Hobj in *.
    split; [by rewrite <- app_assoc|].
    split; [done|]. split; [done|]. split; [done|]. split; [|split].
    + intros u Hu. rewrite (Hother u Hu). unfold st1.
      destruct (autoFix settings); [|done].
      rewrite recordCodeAction_recorded.
      destruct (recordedFix _ _) as [[??]|]; [|done]. simpl.
      by rewrite lookup_insert_ne.
    + intros Hf. rewrite (Hoff Hf). unfold st1. by rewrite Hf.
    + intros Hf. rewrite (Hon Hf). unfold st1. rewrite Hf.
      rewrite recordCodeAction_recorded.
      unfold recordAll. cbn [fold_left].
      destruct (recordedFix (objects st document) problem) as [[key fix']|];
        [|done].
      simpl. by rewrite lookup_insert_eq.
  - cbn [fold_left problemStep omap list_omap id]. apply IH.
Qed.

End RecordFacts.

Section ValidateMoreFacts.
Context `{Platform}.
Import StoreFacts.

Lemma recordAll_elem (document : TextDocument.t)
    (problems : list StylintProblem) (edits : Fixes.t) (k : string)
    (v : AutoFix) :
  (k, v) ∈ recordAll document problems edits →
  (k, v) ∈ edits ∨
  ∃ problem, problem ∈ problems ∧ recordedFix document problem = Some (k, v).
Proof.
  revert edits. induction problems as [|p problems IH]; intros edits Hin.
  - by left.
  - unfold recordAll in Hin. cbn [fold_left] in Hin.
    fold (recordAll document problems) in Hin.
    apply IH in Hin as [Hin|(q & Hq & Hrec)].
    + destruct (recordedFix document p) as [[k' v']|] eqn:Erec.
      * apply set_elem in Hin as [[= -> ->]|Hin]; [|by left].
        right. exists p. split; [by left|done].
      * by left.
    + right. exists q. split; [by right|done].
Qed.

Lemma get_set_is_Some (edits : Fixes.t) (k k' : string) (v : AutoFix) :
  is_Some (Fixes.get edits k) → is_Some (Fixes.get (Fixes.set edits k' v) k).
Proof.
  intros Hs. destruct (decide (k' = k)) as [->|Hne].
  - rewrite get_set_eq. by eexists.
  - by rewrite get_set_ne.
Qed.

Lemma recordAll_keeps (document : TextDocument.t)
    (problems : list StylintProblem) (edits : Fixes.t) (k : string) :
  is_Some (Fixes.get edits k) →
  is_Some (Fixes.get (recordAll document problems edits) k).
Proof.
  revert edits. induction problems as [|p problems IH]; intros edits Hs;
    [done|].
  unfold recordAll. cbn [fold_left]. fold (recordAll document problems).
  apply IH. destruct (recordedFix document p) as [[k' v']|]; [|done].
  by apply get_set_is_Some.
Qed.

Lemma recordAll_get (document : TextDocument.t)
    (problems : list StylintProblem) (edits : Fixes.t)
    (problem : StylintProblem) (k : string) (v : AutoFix) :
  problem ∈ problems → recordedFix document problem = Some (k, v) →
  is_Some (Fixes.get (recordAll document problems edits) k).
Proof.
  revert edits. induction problems as [|p problems IH]; intros edits Hin Hrec.
  - by apply elem_of_nil in Hin.
  - unfold recordAll. cbn [fold_left]. fold (recordAll document problems).
    apply elem_of_cons in Hin as [<-|Hin].
    + rewrite Hrec. apply recordAll_keeps. rewrite get_set_eq. by eexists.
    + by apply IH.
Qed.

Lemma validate_resolved (document : nat) (settings : TextDocumentSettings)
    (publishDiagnostics : bool) (st st1 st2 : State) (cli : StylintModule)
    (report : Report) :
  let uri := TextDocument.uri (objects st document) in
  let file := getFilePath (inr (objects st document)) in
  directoryExists (cwd st) = true →
  validatePrepare uri file settings st = (st1, inl cli) →
  awaitLinter cli file st1 = (st2, Resolved report) →
  let r := validate document settings publishDiagnostics st in
  let steps :=
    fold_left (problemStep document settings) (reportMessages report)
      ([], st2) in
  r.2 = None ∧
  codeActions r.1 = codeActions steps.2 ∧
  output r.1 =
    output st2 ++
    (if publishDiagnostics
     then [SendDiagnostics uri (makeDiagnostic <$> reportProblems report)]
     else []) ∧
  cwd r.1 = cwd st.
Proof.
  cbv zeta. intros Hdir Hp Hl. unfold validate, validateTry.
  rewrite Hp, Hl. unfold validateFinish.
  destruct (problemSteps_spec document settings (reportMessages report) [] st2)
    as (Hd & Ho & _ & Hcwd & _).
  destruct (fold_left _ _ _) as [diagnostics st3]. simpl in Hd, Ho, Hcwd.
  cbn [fst snd].
  set (st4 := if publishDiagnostics
              then send (SendDiagnostics _ diagnostics) st3 else st3).
  assert (codeActions st4 = codeActions st3 ∧
          output st4 = output st2 ++
            (if publishDiagnostics
             then [SendDiagnostics (TextDocument.uri (objects st document))
                     (makeDiagnostic <$> reportProblems report)]
             else [])) as [Hc4 Ho4].
  { unfold st4. destruct publishDiagnostics; simpl.
    - by rewrite Ho, Hd.
    - by rewrite app_nil_r. }
  destruct (String.eqb (cwd st) (cwd st4)) eqn:E; simpl.
  - apply String.eqb_eq in E. by rewrite Hc4, Ho4.
  - unfold chdir. rewrite Hdir. simpl. by rewrite Hc4, Ho4.
Qed.


(** X6.  When the linter resolves and has left the document without
    stored fixes, the fixes stored after [validate] all come from the
    report that was just read: each is the fix of one of its problems,
    stored under the key of that problem's diagnostic and stamped with the
    version the document object has when the linter settles.  With
    [autoFix] every problem that has a fix and a rule id has an entry
    under its key; without [autoFix] the document has no entry. *)
Theorem validate_replaces_fixes (document : nat)
    (settings : TextDocumentSettings) (publishDiagnostics : bool)
    (st st1 st2 : State) (cli : StylintModule) (report : Report) :
  let uri := TextDocument.uri (objects st document) in
  let file := getFilePath (inr (objects st document)) in
  directoryExists (cwd st) = true →
  validatePrepare uri file settings st = (st1, inl cli) →
  awaitLinter cli file st1 = (st2, Resolved report) →
  codeActions st2 !! uri = None →
  TextDocument.uri (objects st2 document) = uri →
  let r := validate document settings publishDiagnostics st in
  let edits := default [] (codeActions r.1 !! uri) in
  (autoFix settings = false → codeActions r.1 !! uri = None) ∧
  (∀ k v, (k, v) ∈ edits →
     ∃ problem,
       problem ∈ reportProblems report ∧
       recordedFix (objects st2 document) problem = Some (k, v) ∧
       documentVersion v = TextDocument.version (objects st2 document)) ∧
  (autoFix settings = true →
   ∀ problem k v,
     problem ∈ reportProblems report →
     recordedFix (objects st2 document) problem = Some (k, v) →
     is_Some (Fixes.get edits k)).
Proof.
  cbv zeta. intros Hdir Hp Hl Hfree Huri.
  destruct (validate_resolved document settings publishDiagnostics st st1 st2
              cli report Hdir Hp Hl) as (_ & Hc & _).
  rewrite Hc. clear Hc.
  destruct (problemSteps_spec document settings (reportMessages report) [] st2)
    as (_ & _ & _ & _ & _ & Hoff & Hon).
  unfold Fixes.t in *. rewrite Huri in Hon. rewrite Hfree in Hon.
  simpl in Hon.
  fold (reportProblems report) in Hon.
  destruct (autoFix settings) eqn:Ef.
  - rewrite (Hon eq_refl). split; [done|]. split.
    + intros k v Hin. apply recordAll_elem in Hin as [Hin|(p & Hp' & Hrec)].
      { by apply elem_of_nil in Hin. }
      exists p. split; [done|]. split; [done|].
      unfold recordedFix in Hrec. destruct (fix_ p); [|done].
      destruct (truthy (rule p)); [|done]. by injection Hrec as _ <-.
    + intros _ p k v Hin Hrec. by eapply recordAll_get.
  - rewrite (Hoff eq_refl), Hfree. split; [done|]. split; [|done].
    intros k v Hin. by apply elem_of_nil in Hin.
Qed.

End ValidateMoreFacts.

Module ValidateMoreChecks.
Import Scenario.


(** The document was at version 6 when the linter was started and is at
    version 8 when it settles: the fixes are stamped 8. *)
Lemma validate_replaces_fixes_witness :
  ∃ problem,
    problem ∈ [problemR1; problemR2; problemR3; problemS] ∧
    recordedFix (TextDocument.mk uri 8 "a b c d e") problem
      = Some (computeKey (makeDiagnostic problemR1),
              mkAutoFix "Fix this colons problem" 8 "colons"
                (mkEdit (0, 1) ":")) ∧
    documentVersion
      (mkAutoFix "Fix this colons problem" 8 "colons" (mkEdit (0, 1) ":"))
    = 8.
Proof.
  edestruct (validate_replaces_fixes (H := slowLinter) 0 settings true
               validated) as (_ & Helem & _).
  - vm_compute. reflexivity.
  - vm_compute. reflexivity.
  - vm_compute. reflexivity.
  - vm_compute. reflexivity.
  - vm_compute. reflexivity.
  - apply Helem. vm_compute. by left.
Defined.

End ValidateMoreChecks.

(** ** Outcomes of a validation attempt *)
Section AttemptFacts.
Context `{Platform}.



Lemma validate_silent (document : nat) (settings : TextDocumentSettings)
    (st : State) :
  silentLinter →
  output (validate document settings false st).1 = output st.
Proof.
  intros Hsilent. unfold validate, validateTry, validatePrepare.
  destruct (changeDirectory_spec
              (getFilePath (inr (objects st document))) settings st)
    as (_ & Ho & _).
  destruct (changeDirectory _ settings st) as [st1 [thrown|]];
    cbn [fst snd] in Ho.
  - destruct (String.eqb (cwd st) (cwd st1)); simpl; [done|].
    destruct (chdir_spec (cwd st) st1) as [[_ ->]|[_ ->]]; done.
  - destruct (library settings) as [cli|].
    + match goal with |- context [awaitLinter ?c ?f ?s] =>
        pose proof (Hsilent c f s) as Hl;
        destruct (awaitLinter c f s) as [st2 [report|reason]]
      end; cbn [fst snd] in Hl; unfold validateFinish.
      * destruct (problemSteps_spec document settings (reportMessages report)
                    [] st2) as (_ & Ho3 & _).
        destruct (fold_left _ _ _) as [diagnostics st3].
        cbn [fst snd] in *.
        destruct (String.eqb (cwd st) (cwd st3)); simpl;
          [by rewrite Ho3, Hl|].
        destruct (chdir_spec (cwd st) st3) as [[_ ->]|[_ ->]]; simpl;
          by rewrite Ho3, Hl.
      * destruct (String.eqb (cwd st) (cwd st2)); simpl; [by rewrite Hl|].
        destruct (chdir_spec (cwd st) st2) as [[_ ->]|[_ ->]]; simpl;
          by rewrite Hl.
    + destruct (String.eqb (cwd st) (cwd st1)); simpl; [done|].
      destruct (chdir_spec (cwd st) st1) as [[_ ->]|[_ ->]]; done.
Qed.

(** X8.  [validateSingle] called without [publishDiagnostics], as on
    save, never sends diagnostics, whether the linter resolves or rejects,
    as long as the linter run itself sends nothing: all it may send are
    the messages of the error classifiers and the status. *)
Theorem validateSingle_unpublished (document : nat) (st : State) :
  silentLinter →
  ∃ sent,
    output (validateSingle document false st) = output st ++ sent ∧
    Forall (λ o, isSendDiagnostics o = false) sent.
Proof.
  intros Hsilent. unfold validateSingle.
  destruct (documents_get st _); [|exists []; by rewrite app_nil_r].
  destruct (resolveSettings_frame (TextDocument.uri (objects st document)) st)
    as (_ & _ & _ & Ho0 & _).
  destruct (resolveSettings _ st) as [settings st0]. cbn [fst snd] in Ho0.
  destruct (validate_ settings); cbn [negb];
    [|exists []; by rewrite app_nil_r].
  pose proof (validate_silent document settings st0 Hsilent) as Hv.
  destruct (validate document settings false st0) as [st1 [reason|]];
    cbn [fst snd] in Hv.
  - pose proof (runErrorHandlers_quiet reason (objects st1 document)
                  (library settings) st1) as [_ (sent & Ho2 & Hsent)].
    destruct (runErrorHandlers _ _ _ _ _) as [st2 status].
    cbn [fst snd send output] in *.
    exists (sent ++ [SendStatus (default error status)]).
    split; [by rewrite Ho2, Hv, Ho0, app_assoc|].
    apply Forall_app. split; [done|]. by repeat constructor.
  - exists [SendStatus ok]. cbn [send output]. split; [by rewrite Hv, Ho0|].
    by repeat constructor.
Qed.

(** X9.  When the directory [validate] is to change to does not exist,
    [process.chdir] throws inside [try]: [validate] rejects with that
    error and leaves the state exactly as it was; the linter is not
    called and the stored fixes are not deleted.  When the settings hold
    no library, [validate] rejects with the [TypeError] of the assignment
    to [cli], again before the fixes are deleted. *)
Theorem validate_fails_before_linter (document : nat)
    (settings : TextDocumentSettings) (publishDiagnostics : bool)
    (st : State) :
  let file := getFilePath (inr (objects st document)) in
  (∀ d, chdirTarget file settings = Some d → directoryExists d = false →
     validate document settings publishDiagnostics st
       = (st, Some (chdirError d))) ∧
  (library settings = None → directoryExists (cwd st) = true →
   (∀ d, chdirTarget file settings = Some d → directoryExists d = true) →
     (validate document settings publishDiagnostics st).2 = Some typeError ∧
     codeActions (validate document settings publishDiagnostics st).1
       = codeActions st ∧
     output (validate document settings publishDiagnostics st).1 = output st ∧
     cwd (validate document settings publishDiagnostics st).1 = cwd st).
Proof.
  cbv zeta. split.
  - intros d Htarget Hmissing.
    unfold validate, validateTry, validatePrepare, changeDirectory.
    unfold chdirTarget in Htarget.
    destruct (truthy (getFilePath _)); [|done].
    assert (chdir d st = (st, Some (chdirError d))) as Hchdir
      by (unfold chdir; by rewrite Hmissing).
    destruct (workingDirectory settings) as [item|].
    + destruct (changeProcessCWD item); [|done].
      injection Htarget as ->. rewrite Hchdir. simpl.
      by rewrite String.eqb_refl.
    + destruct (workspaceFolder settings) as [folder|]; [|done].
      rewrite Htarget, Hchdir. simpl. by rewrite String.eqb_refl.
  - intros Hlib Hcwd Hexists.
    unfold validate, validateTry, validatePrepare.
    destruct (changeDirectory_spec
                (getFilePath (inr (objects st document))) settings st)
      as (Hc & Ho & _ & _).
    assert ((changeDirectory (getFilePath (inr (objects st document)))
               settings st).2 = None) as Hnone.
    { unfold changeDirectory, chdirTarget in *.
      destruct (truthy _); [|done].
      destruct (workingDirectory settings) as [item|].
      - destruct (changeProcessCWD item); [|done].
        unfold chdir. by rewrite (Hexists _ eq_refl).
      - destruct (workspaceFolder settings) as [folder|]; [|done].
        destruct (fileSchemePath _) as [p|]; [|done].
        unfold chdir. by rewrite (Hexists _ eq_refl). }
    destruct (changeDirectory _ settings st) as [st1 thrown].
    cbn [fst snd] in *. subst thrown. rewrite Hlib. cbn [fst snd].
    destruct (String.eqb (cwd st) (cwd st1)) eqn:E; simpl.
    + apply String.eqb_eq in E. done.
    + unfold chdir. rewrite Hcwd. simpl. done.
Qed.

End AttemptFacts.

Module AttemptChecks.
Import Scenario.


Lemma validateSingle_unpublished_witness :
  @silentLinter failing ∧
  ∃ sent,
    output (validateSingle (H := failing) 0 false validated)
      = output validated ++ sent ∧
    Forall (λ o, isSendDiagnostics o = false) sent.
Proof.
  assert (@silentLinter failing) as Hsilent by (intros cli file st; done).
  split; [exact Hsilent|].
  exact (validateSingle_unpublished (H := failing) 0 validated Hsilent).
Defined.

Lemma validate_fails_before_linter_witness :
  validate (H := platform) 0 unreachable true validated
  = (validated, Some (@chdirError platform "/missing")).
Proof.
  apply (proj1 (validate_fails_before_linter (H := platform) 0 unreachable
                  true validated)).
  - vm_compute. reflexivity.
  - vm_compute. reflexivity.
Defined.

End AttemptChecks.


(** ** Errors are reported once *)
Section ClassifierFacts.
Context `{Platform}.

Lemma has_insert {V : Type} (m : gmap string V) (key : string) (v : V) :
  has (<[key := v]> m) key = true.
Proof.
  unfold has. apply bool_decide_eq_true_2. rewrite lookup_insert_eq. by eexists.
Qed.

Lemma tryHandleNoConfig_again err document library' library'' st :
  (tryHandleNoConfig err document library' st).2 = Some warn →
  tryHandleNoConfig err document library''
    (tryHandleNoConfig err document library' st).1
  = ((tryHandleNoConfig err document library' st).1, Some warn).
Proof.
  unfold tryHandleNoConfig.
  destruct (negb (isNoConfigFoundError err)); [done|]. intros _.
  cbn [fst snd].
  destruct (negb (has (noConfigReported st) (TextDocument.uri document)))
    eqn:E.
  - cbn [with_noConfigReported noConfigReported send]. by rewrite has_insert.
  - by rewrite E.
Qed.

Lemma handleFileName_again err document library' library'' filename st :
  handleFileName err document library'' filename
    (handleFileName err document library' filename st).1
  = ((handleFileName err document library' filename st).1, Some warn).
Proof.
  unfold handleFileName. cbn [fst snd].
  destruct (negb (has (configErrorReported st) filename)) eqn:E.
  - destruct (documents_get (send _ st) _);
      cbn [with_configErrorReported configErrorReported send];
      by rewrite has_insert.
  - by rewrite E.
Qed.

Lemma tryHandleConfigError_again err document library' library'' st :
  (tryHandleConfigError err document library' st).2 = Some warn →
  tryHandleConfigError err document library''
    (tryHandleConfigError err document library' st).1
  = ((tryHandleConfigError err document library' st).1, Some warn).
Proof.
  unfold tryHandleConfigError.
  destruct (negb (truthy (errorMessage err))); [done|].
  destruct (matchCannotReadConfig _);
    [intros _; apply handleFileName_again|].
  destruct (matchRuleConfiguration _);
    [intros _; apply handleFileName_again|].
  destruct (matchReferencedFrom _);
    [intros _; apply handleFileName_again|done].
Qed.

Lemma tryHandleMissingModule_again err document library' library'' st :
  (tryHandleMissingModule err document library' st).2 = Some warn →
  tryHandleMissingModule err document library''
    (tryHandleMissingModule err document library' st).1
  = ((tryHandleMissingModule err document library' st).1, Some warn).
Proof.
  unfold tryHandleMissingModule.
  destruct (negb (truthy (errorMessage err))); [done|].
  destruct (matchFailedToLoadPlugin _) as [[plugin module']|]; [|done].
  intros _. cbn [fst snd].
  destruct (negb (has (missingModuleReported st) plugin)) eqn:E.
  - cbn [with_missingModuleReported missingModuleReported send].
    by rewrite has_insert.
  - by rewrite E.
Qed.

Lemma classifier_passes
    (classifier : StylintError → TextDocument.t → option StylintModule
                  → State → State * option Status)
    err document library' st :
  classifier = tryHandleNoConfig ∨ classifier = tryHandleConfigError ∨
  classifier = tryHandleMissingModule →
  (classifier err document library' st).2 = None →
  (classifier err document library' st).1 = st ∧
  ∀ library'' st', (classifier err document library'' st').2 = None ∧
                   (classifier err document library'' st').1 = st'.
Proof.
  intros [->|[->| ->]].
  - unfold tryHandleNoConfig.
    destruct (negb (isNoConfigFoundError err)); [done|done].
  - unfold tryHandleConfigError, handleFileName.
    destruct (negb (truthy (errorMessage err))); [done|].
    destruct (matchCannotReadConfig _); [done|].
    destruct (matchRuleConfiguration _); [done|].
    destruct (matchReferencedFrom _); [done|done].
  - unfold tryHandleMissingModule.
    destruct (negb (truthy (errorMessage err))); [done|].
    destruct (matchFailedToLoadPlugin _) as [[??]|]; [done|done].
Qed.

(** X10.  An error that one of the three classifiers takes (the status
    is [warn]) is reported once: classifying the same error for the same
    document again, in the state the first classification left and with
    whatever library, sends nothing and changes nothing, and the status is
    [warn] again. *)
Theorem classified_error_reported_once (err : StylintError)
    (document : TextDocument.t) (library' library'' : option StylintModule)
    (st : State) :
  let first := runErrorHandlers singleErrorHandlers err document library' st in
  first.2 = Some warn →
  runErrorHandlers singleErrorHandlers err document library'' first.1
  = (first.1, Some warn).
Proof.
  cbv zeta. unfold singleErrorHandlers. cbn [runErrorHandlers].
  pose proof (tryHandleNoConfig_again err document library' library'' st)
    as A1.
  pose proof (classifier_passes tryHandleNoConfig err document library' st
                (or_introl eq_refl)) as P1.
  destruct (tryHandleNoConfig err document library' st) as [st1 [s1|]];
    cbn [fst snd] in *.
  { intros [= ->]. by rewrite A1. }
  destruct (P1 eq_refl) as [-> P1'].
  destruct (P1' library'' st) as [E1 E1'].
  pose proof (tryHandleConfigError_again err document library' library'' st)
    as A2.
  pose proof (classifier_passes tryHandleConfigError err document library' st
                (or_intror (or_introl eq_refl))) as P2.
  destruct (tryHandleConfigError err document library' st) as [st2 [s2|]];
    cbn [fst snd] in *.
  { intros [= ->].
    destruct (P1' library'' st2) as [F1 F1'].
    destruct (tryHandleNoConfig err document library'' st2) as [st' o].
    cbn [fst snd] in *. subst. by rewrite A2. }
  destruct (P2 eq_refl) as [-> P2'].
  pose proof (tryHandleMissingModule_again err document library' library'' st)
    as A3.
  destruct (tryHandleMissingModule err document library' st) as [st3 [s3|]];
    cbn [fst snd] in *.
  { intros [= ->].
    destruct (P1' library'' st3) as [F1 F1'].
    destruct (tryHandleNoConfig err document library'' st3) as [st' o].
    cbn [fst snd] in *. subst.
    destruct (P2' library'' st3) as [F2 F2'].
    destruct (tryHandleConfigError err document library'' st3) as [st' o].
    cbn [fst snd] in *. subst. by rewrite A3. }
  unfold showErrorMessage. done.
Qed.

End ClassifierFacts.

Module ClassifierChecks.
Import Scenario.

Lemma classified_error_reported_once_witness :
  let first :=
    runErrorHandlers (singleErrorHandlers (H := platform)) noConfigFound
      document (Some library') validated in
  output first.1
    = output validated
      ++ [SendNoConfigRequest "No Stylint configuration found." uri] ∧
  runErrorHandlers (singleErrorHandlers (H := platform)) noConfigFound
    document None first.1
  = (first.1, Some warn).
Proof.
  split; [vm_compute; reflexivity|].
  apply (classified_error_reported_once (H := platform) noConfigFound document
           (Some library') None validated).
  vm_compute. reflexivity.
Defined.

End ClassifierChecks.


(** ** Document events *)
Section EventFacts.
Context `{Platform}.

Lemma resolveSettings_queue (uri : string) (st : State) :
  queue (resolveSettings uri st).2 = queue st ∧
  timer (resolveSettings uri st).2 = timer st.
Proof. unfold resolveSettings. by destruct (document2Settings st !! uri). Qed.

Lemma addNotificationMessage_more method params version' (st : State) :
  let st' := addNotificationMessage method params version' st in
  output st' = output st ∧ codeActions st' = codeActions st ∧
  document2Settings st' = document2Settings st ∧ cwd st' = cwd st ∧
  commands st' = commands st.
Proof.
  cbv zeta. unfold addNotificationMessage, trigger. simpl.
  by destruct (timer st || _).
Qed.





Lemma validateMany_more (documents' : list nat) (st : State) :
  let st' := validateMany documents' st in
  output st' = output st ∧ codeActions st' = codeActions st ∧
  document2Settings st' = document2Settings st ∧ cwd st' = cwd st ∧
  commands st' = commands st ∧
  timer st' = timer st || negb (length documents' =? 0)%nat.
Proof.
  cbv zeta. unfold validateMany. revert st.
  induction documents' as [|document documents' IH]; intros st; simpl.
  - by rewrite orb_false_r.
  - destruct (addNotificationMessage_more validateMethod
                (ValidateParams document)
                (TextDocument.version (objects st document)) st)
      as (Ho & Hc & Hs & Hw & Hm).
    destruct (addNotificationMessage_frame validateMethod
                (ValidateParams document)
                (TextDocument.version (objects st document)) st)
      as (_ & _ & _ & _ & _ & _ & Ht).
    destruct (IH (addNotificationMessage validateMethod
                    (ValidateParams document)
                    (TextDocument.version (objects st document)) st))
      as (-> & -> & -> & -> & -> & ->).
    rewrite Ho, Hc, Hs, Hw, Hm, Ht, orb_true_r. done.
Qed.

(** X13.  [environmentChanged] empties the settings cache and adds, for
    each open document in the order of [documents.all()], one validation
    notification at the document's current version behind what the queue
    holds; the timer is armed when a document is open; it sends nothing
    and keeps the stored fixes.  So the next time settings are resolved,
    for whatever document, they are those the client gives then. *)
Theorem environmentChanged_revalidates (st : State) :
  let st' := environmentChanged st in
  document2Settings st' = ∅ ∧
  queue st' = queue st ++ (validateMessage st <$> documents_all st) ∧
  timer st' = timer st || negb (length (documents_all st) =? 0)%nat ∧
  output st' = output st ∧ codeActions st' = codeActions st ∧
  (∀ uri, (resolveSettings uri st').1 = getConfiguration uri).
Proof.
  cbv zeta.
  change (environmentChanged st)
    with (validateMany (documents_all st) (with_document2Settings ∅ st)).
  destruct (validateMany_frame (documents_all st)
              (with_document2Settings ∅ st)) as (Hq & _).
  destruct (validateMany_more (documents_all st)
              (with_document2Settings ∅ st)) as (Ho & Hc & Hs & _ & _ & Ht).
  rewrite Hq, Ho, Hc, Hs, Ht. repeat split; try done.
  intros uri. unfold resolveSettings. rewrite Hs. simpl.
  by rewrite lookup_empty.
Qed.

End EventFacts.

Module EventChecks.
Import Scenario.

(** The document of the session is validated as it is typed: a change
    enqueues its validation, a save enqueues nothing. *)
Example change_enqueues_save_does_not :
  queue (onDidChangeContent (H := platform) 0 validated)
    = [Notification validateMethod (ValidateParams 0) (Some 6)] ∧
  queue (onDidSave (H := platform) 0 validated) = [] ∧
  queue (onDidOpen (H := platform) 0 validated) = [].
Proof. vm_compute. done. Qed.

Example close_clears_diagnostics :
  output (onDidClose (H := platform) 0 validated)
    = output validated ++ [SendDiagnostics uri []] ∧
  codeActions (onDidClose (H := platform) 0 validated) = ∅.
Proof. vm_compute. done. Qed.

End EventChecks.


(** ** The queue drains *)
Section DrainFacts.
Context `{Platform}.

Lemma sameQueue_refl (st : State) : sameQueue st st.
Proof. done. Qed.

Lemma sameQueue_trans (st1 st2 st3 : State) :
  sameQueue st1 st2 → sameQueue st2 st3 → sameQueue st1 st3.
Proof. intros (? & ? & ?) (? & ? & ?). unfold sameQueue. split_and!; congruence. Qed.

Lemma chdir_sameQueue (directory' : string) (st : State) :
  sameQueue st (chdir directory' st).1.
Proof. by destruct (chdir_spec directory' st) as [[_ ->]|[_ ->]]. Qed.

Lemma changeDirectory_sameQueue file settings (st : State) :
  sameQueue st (changeDirectory file settings st).1.
Proof.
  unfold changeDirectory. destruct (truthy file); [|done].
  destruct (workingDirectory settings) as [item|].
  - destruct (changeProcessCWD item); [apply chdir_sameQueue|done].
  - destruct (workspaceFolder settings) as [folder|]; [|done].
    destruct (fileSchemePath _); [apply chdir_sameQueue|done].
Qed.

Lemma recordCodeAction_sameQueue document diagnostic problem (st : State) :
  sameQueue st (recordCodeAction document diagnostic problem st).
Proof.
  unfold recordCodeAction.
  destruct (fix_ problem); [|done]. by destruct (truthy (rule problem)).
Qed.

Lemma problemSteps_sameQueue document settings messages' diagnostics
    (st : State) :
  sameQueue st
    (fold_left (problemStep document settings) messages' (diagnostics, st)).2.
Proof.
  revert diagnostics st.
  induction messages' as [|[problem|] messages' IH]; intros diagnostics st;
    simpl; [done| |apply IH].
  eapply sameQueue_trans; [|apply IH].
  destruct (autoFix settings); [apply recordCodeAction_sameQueue|done].
Qed.

Lemma restore_sameQueue (cwd' : string) (st : State)
    (completion : option StylintError) :
  sameQueue st
    (if negb (String.eqb cwd' (cwd st)) then
       match chdir cwd' st with
       | (st, Some thrown) => (st, Some thrown)
       | (st, None) => (st, completion)
       end
     else (st, completion)).1.
Proof.
  destruct (negb _); [|done].
  pose proof (chdir_sameQueue cwd' st) as Hs.
  by destruct (chdir cwd' st) as [st' [thrown|]].
Qed.

Lemma validate_sameQueue document settings publishDiagnostics (st : State) :
  undisturbedLinter →
  sameQueue st (validate document settings publishDiagnostics st).1.
Proof.
  intros Hlinter. unfold validate.
  assert (sameQueue st
            (validateTry document (TextDocument.uri (objects st document))
               (getFilePath (inr (objects st document))) settings
               publishDiagnostics st).1) as Htry.
  { unfold validateTry, validatePrepare.
    pose proof (changeDirectory_sameQueue
                  (getFilePath (inr (objects st document))) settings st) as H1.
    destruct (changeDirectory _ settings st) as [st1 [thrown|]]; [done|].
    destruct (library settings) as [cli|]; [|done].
    cbn [fst] in H1.
    match goal with |- context [awaitLinter ?c ?f ?s] =>
      pose proof (Hlinter c f s) as H2;
      destruct (awaitLinter c f s) as [st2 [report|reason]]
    end; cbn [fst] in H2; unfold validateFinish.
    - pose proof (problemSteps_sameQueue document settings
                    (reportMessages report) [] st2) as H3.
      destruct (fold_left _ _ _) as [diagnostics st3]. cbn [fst snd] in *.
      eapply sameQueue_trans; [exact H1|].
      eapply sameQueue_trans; [|eapply sameQueue_trans; [exact H2|]].
      + done.
      + by destruct publishDiagnostics.
    - eapply sameQueue_trans; [exact H1|].
      eapply sameQueue_trans; [|exact H2]. done. }
  destruct (validateTry _ _ _ _ _ _) as [st1 completion]. cbn [fst] in Htry.
  eapply sameQueue_trans; [exact Htry|]. apply restore_sameQueue.
Qed.

Lemma runErrorHandlers_sameQueue reason document library' (st : State) :
  sameQueue st
    (runErrorHandlers singleErrorHandlers reason document library' st).1.
Proof.
  assert (H1 : ∀ st, sameQueue st
                       (tryHandleNoConfig reason document library' st).1).
  { intros st'. unfold tryHandleNoConfig.
    destruct (negb (isNoConfigFoundError reason)); [done|].
    by destruct (negb (has _ _)). }
  assert (H2 : ∀ st, sameQueue st
                       (tryHandleConfigError reason document library' st).1).
  { intros st'.
    assert (∀ filename,
              sameQueue st'
                (handleFileName reason document library' filename st').1)
      as Hf.
    { intros filename. unfold handleFileName.
      destruct (negb (has _ _)); [|done]. cbn [fst].
      by destruct (documents_get _ _). }
    unfold tryHandleConfigError.
    destruct (negb (truthy (errorMessage reason))); [done|].
    destruct (matchCannotReadConfig _); [apply Hf|].
    destruct (matchRuleConfiguration _); [apply Hf|].
    destruct (matchReferencedFrom _); [apply Hf|done]. }
  assert (H3 : ∀ st, sameQueue st
                       (tryHandleMissingModule reason document library' st).1).
  { intros st'. unfold tryHandleMissingModule.
    destruct (negb (truthy (errorMessage reason))); [done|].
    destruct (matchFailedToLoadPlugin _) as [[??]|]; [|done].
    by destruct (negb (has _ _)). }
  unfold singleErrorHandlers. cbn [runErrorHandlers].
  specialize (H1 st).
  destruct (tryHandleNoConfig reason document library' st) as [st1 [s|]];
    [done|].
  specialize (H2 st1).
  destruct (tryHandleConfigError reason document library' st1)
    as [st2 [s|]]; [by eapply sameQueue_trans|].
  specialize (H3 st2).
  destruct (tryHandleMissingModule reason document library' st2)
    as [st3 [s|]];
    [exact (sameQueue_trans _ _ _ H1 (sameQueue_trans _ _ _ H2 H3))|].
  eapply sameQueue_trans; [exact H1|].
  eapply sameQueue_trans; [exact H2|].
  eapply sameQueue_trans; [exact H3|].
  unfold showErrorMessage. by destruct (stack reason).
Qed.

Lemma validateSingle_sameQueue document publishDiagnostics (st : State) :
  undisturbedLinter →
  sameQueue st (validateSingle document publishDiagnostics st).
Proof.
  intros Hlinter. unfold validateSingle.
  destruct (documents_get st _); [|done].
  destruct (resolveSettings_frame (TextDocument.uri (objects st document)) st)
    as (Hobj & _).
  destruct (resolveSettings_queue (TextDocument.uri (objects st document)) st)
    as (Hq & Ht).
  destruct (resolveSettings _ st) as [settings st0]. cbn [fst snd] in *.
  assert (sameQueue st st0) as H0 by done.
  destruct (negb (validate_ settings)); [done|].
  pose proof (validate_sameQueue document settings publishDiagnostics st0
                Hlinter) as H1.
  destruct (validate document settings publishDiagnostics st0)
    as [st1 [reason|]]; cbn [fst] in H1.
  - pose proof (runErrorHandlers_sameQueue reason (objects st1 document)
                  (library settings) st1) as H2.
    destruct (runErrorHandlers _ _ _ _ _) as [st2 status]. cbn [fst] in H2.
    eapply sameQueue_trans; [exact H0|].
    eapply sameQueue_trans; [exact H1|].
    eapply sameQueue_trans; [exact H2|]. done.
  - eapply sameQueue_trans; [exact H0|].
    eapply sameQueue_trans; [exact H1|]. done.
Qed.

Lemma drain_turn (rh nh : gmap string Registered) (fuel : nat) (st : State) :
  drain rh nh (S fuel) st
  = if timer st then drain rh nh fuel (immediateCallback rh nh st) else st.
Proof. done. Qed.

(** X14.  A queue that holds only validation notifications recorded at
    the live versions of their documents drains: once the timer is armed,
    and with no message arriving and no document changing while the
    linter runs, one turn of the event loop per notification (and one
    more) leaves the queue empty and the timer unarmed, whatever the
    validations do: resolve, reject or find the document closed. *)
Theorem live_validations_drain (documents' : list nat) (st : State) :
  undisturbedLinter →
  timer st = true →
  queue st = validateMessage st <$> documents' →
  let st' :=
    drain requestHandlers notificationHandlers (S (length documents')) st in
  queue st' = [] ∧ timer st' = false ∧ objects st' = objects st.
Proof.
  intros Hlinter. cbv zeta. revert st.
  induction documents' as [|document documents' IH]; intros st Ht Hq.
  - cbn [length]. rewrite drain_turn, Ht. cbn [drain].
    unfold immediateCallback, processQueue. cbn [with_timer queue].
    by rewrite Hq.
  - cbn [length]. rewrite drain_turn, Ht. cbn [fmap list_fmap] in Hq.
    set (st0 := with_queue (validateMessage st <$> documents')
                  (with_timer false st)).
    pose proof (validateSingle_sameQueue document true st0 Hlinter)
      as (Hq1 & Ht1 & Hobj1).
    assert (immediateCallback requestHandlers notificationHandlers st
            = trigger (validateSingle document true st0)) as ->.
    { unfold immediateCallback.
      eapply (processQueue_handled_notification _ _ _ _ validateMethod
                (ValidateParams document)).
      - cbn [with_timer queue]. exact Hq.
      - apply lookup_insert_eq.
      - cbn [versionChanged versionProvider validateVersion with_queue
             with_timer objects].
        by rewrite bool_decide_eq_true_2.
      - reflexivity. }
    set (st1 := validateSingle document true st0) in *.
    cbn [st0 with_queue with_timer queue timer objects] in Hq1, Ht1, Hobj1.
    unfold trigger. rewrite Ht1, Hq1, length_fmap. cbn [orb].
    destruct documents' as [|next documents'].
    + cbn [length Nat.eqb]. rewrite drain_turn, Ht1. by rewrite Hq1.
    + cbn [length Nat.eqb].
      destruct (IH (with_timer true st1)) as (Hq2 & Ht2 & Hobj2).
      * done.
      * cbn [with_timer queue]. rewrite Hq1.
        apply list_fmap_ext. intros i d _. unfold validateMessage.
        cbn [with_timer objects]. by rewrite Hobj1.
      * cbn [length] in Hq2, Ht2, Hobj2. rewrite Hq2, Ht2, Hobj2.
        cbn [with_timer objects]. by rewrite Hobj1.
Qed.

End DrainFacts.

Module DrainChecks.
Import Scenario.

Lemma live_validations_drain_witness :
  let st :=
    with_timer true
      (with_queue
         [Notification validateMethod (ValidateParams 0) (Some 6);
          Notification validateMethod (ValidateParams 0) (Some 6)]
         validated) in
  let st' :=
    drain (requestHandlers (H := failing)) (notificationHandlers (H := failing))
      3 st in
  queue st' = [] ∧ timer st' = false ∧ objects st' = objects st.
Proof.
  apply (live_validations_drain (H := failing) [0%nat; 0%nat]).
  - intros cli file st. done.
  - reflexivity.
  - reflexivity.
Defined.

End DrainChecks.


(** ** From a code action to its command *)
Section CommandFacts.
Context `{Platform}.
Import Fixes.

Lemma scopedLoop_single (uri : string) (document : TextDocument.t)
    (scoped : list AutoFix) (acc acc' : ScopedLoop) (lastFix : AutoFix) :
  forEachM (scopedStep uri (Some document)) acc scoped = Some acc' →
  last scoped = Some lastFix →
  loopDocumentVersion acc' = documentVersion lastFix ∧
  loopCommands acc' !! CommandIds.applySingleFix
  = Some (WorkspaceChange.mk uri (documentVersion lastFix)
            [createTextEdit document lastFix]).
Proof.
  revert acc. induction scoped as [|x scoped IH]; intros acc; [done|].
  cbn [forEachM scopedStep]. rewrite last_cons.
  destruct (last scoped) as [y|] eqn:El.
  - intros Hloop [= <-]. by eapply IH.
  - intros Hloop [= <-].
    apply last_None in El. subst scoped. injection Hloop as <-.
    cbn [loopDocumentVersion loopCommands]. by rewrite lookup_insert_eq.
Qed.

Lemma bulkActions_single (uri : string) (document : TextDocument.t)
    (scoped : ScopedLoop) (sorted : list AutoFix) :
  (bulkActions uri document scoped sorted).1 !! CommandIds.applySingleFix
  = loopCommands scoped !! CommandIds.applySingleFix ∧
  loopResult scoped `prefix_of` (bulkActions uri document scoped sorted).2.
Proof.
  unfold bulkActions.
  destruct (bulkLoop _ _ _) as [[v same] all].
  destruct (1 <? length same)%nat; destruct (1 <? length all)%nat;
    cbn [fst snd]; rewrite ?lookup_insert_ne by done;
    (split; [done|]).
  - rewrite <- app_assoc. by apply prefix_app_r.
  - by apply prefix_app_r.
  - by apply prefix_app_r.
  - done.
Qed.

(** X15.  A code-action request on an open document answers with one
    single-fix action for each stored fix that its diagnostics match, in
    the order of the diagnostics, before any bulk action.  All of them run
    the one command [stylint.applySingleFix], and the workspace change
    stored for it holds the edit of the LAST matched fix only, stamped
    with that fix's document version: executing the command afterwards
    sends exactly this change, whichever of the actions was chosen. *)
Theorem codeAction_single_fix_is_last (st : State) (uri : string)
    (diagnostics : list Diagnostic.t) (document : TextDocument.t)
    (lastFix : AutoFix)
    (arguments : list VersionedTextDocumentIdentifier.t) :
  documents_get st uri = Some document →
  last (scopedFixes st uri diagnostics) = Some lastFix →
  let change :=
    WorkspaceChange.mk uri (documentVersion lastFix)
      [createTextEdit document lastFix] in
  ∃ st' result,
    codeActionHandler (CodeActionParams uri diagnostics) st
      = (st', Returns (CodeActions result)) ∧
    (singleFixAction <$> scopedFixes st uri diagnostics) `prefix_of` result ∧
    executeCommandHandler
      (ExecuteCommandParams CommandIds.applySingleFix arguments) st'
    = (send (ApplyEdit change) st', Returns ApplyEditThenable).
Proof.
  intros Hdoc Hlast. cbv zeta. unfold scopedFixes in *.
  destruct (codeActions st !! uri) as [edits|] eqn:Hedits; [|done].
  unfold codeActionHandler. simpl codeActions. rewrite Hedits.
  assert (getScoped edits diagnostics ≠ []) as Hne
    by (by intros E; rewrite E in Hlast).
  rewrite (getScoped_nonempty _ _ Hne).
  replace (documents_get (with_commands (Some ∅) st) uri)
    with (Some document) by done.
  destruct (scopedLoop_spec uri document (getScoped edits diagnostics)
              (mkScopedLoop (-1) None ∅ []))
    as (acc & Hloop & Hres & _ & _).
  destruct (scopedLoop_single _ _ _ _ _ _ Hloop Hlast) as (_ & Hcmd).
  rewrite Hloop. cbn [loopResult app] in Hres.
  assert ((0 <? length (loopResult acc))%nat = true) as ->.
  { rewrite Hres, length_fmap. apply Nat.ltb_lt.
    destruct (getScoped edits diagnostics); [done|simpl; lia]. }
  destruct (bulkActions_single uri document acc (getAllSorted edits))
    as (Hkeep & Hprefix).
  destruct (bulkActions uri document acc (getAllSorted edits))
    as [commands' result]. cbn [fst snd] in *.
  eexists _, _. split; [reflexivity|]. split; [by rewrite <- Hres|].
  unfold executeCommandHandler, commandWorkspaceChange.
  replace (String.eqb CommandIds.applySingleFix CommandIds.applyAutoFix)
    with false by (vm_compute; reflexivity).
  cbn [with_commands commands]. by rewrite Hkeep, Hcmd.
Qed.

(** X16.  A code-action request that matches no stored fix (no fixes
    are stored for the document, or none has the key of a diagnostic of
    the request) answers with no action and leaves the command table
    empty, whatever an earlier request stored there and whether or not the
    document is open: executing any command but [stylint.applyAutoFix]
    afterwards returns the empty object and applies nothing. *)
Theorem codeAction_without_match_resets_commands (st : State) (uri : string)
    (diagnostics : list Diagnostic.t) :
  scopedFixes st uri diagnostics = [] →
  let r := codeActionHandler (CodeActionParams uri diagnostics) st in
  r = (with_commands (Some ∅) st, Returns (CodeActions [])) ∧
  (∀ command arguments,
     command ≠ CommandIds.applyAutoFix →
     executeCommandHandler (ExecuteCommandParams command arguments) r.1
     = (r.1, Returns EmptyObject)).
Proof.
  intros Hnone. cbv zeta.
  assert (codeActionHandler (CodeActionParams uri diagnostics) st
          = (with_commands (Some ∅) st, Returns (CodeActions []))) as ->.
  { unfold codeActionHandler, scopedFixes in *. simpl codeActions.
    destruct (codeActions st !! uri) as [edits|]; [|done].
    destruct (isEmpty edits); [done|]. by rewrite Hnone. }
  split; [done|]. intros command arguments Hne.
  unfold executeCommandHandler, commandWorkspaceChange.
  apply String.eqb_neq in Hne as ->.
  cbn [fst with_commands commands]. by rewrite lookup_empty.
Qed.

(** X17.  The fixes handed to the editor on save.  [getFixes] returns
    edits only when fixes are stored for the document and the first stored
    fix was recorded at the version of the document passed in; the edits
    are then those of [getOverlapFree], in its order.  Whenever it returns
    edits for the open document, [computeAllFixes], which answers
    [stylint.applyAutoFix], computes the same edits for that version. *)
Theorem getFixes_checks_recorded_version (textDocument : TextDocument.t)
    (st : State) :
  let uri := TextDocument.uri textDocument in
  let identifier :=
    VersionedTextDocumentIdentifier.mk uri
      (TextDocument.version textDocument) in
  (getFixes textDocument st ≠ [] →
     ∃ edits,
       codeActions st !! uri = Some edits ∧
       getDocumentVersion edits = Some (TextDocument.version textDocument) ∧
       getFixes textDocument st
         = createTextEdit textDocument <$> getOverlapFree edits) ∧
  (∀ edits,
     codeActions st !! uri = Some edits →
     getDocumentVersion edits ≠ Some (TextDocument.version textDocument) →
     getFixes textDocument st = []) ∧
  (documents_get st uri = Some textDocument →
   getFixes textDocument st ≠ [] →
     computeAllFixes identifier st = Some (getFixes textDocument st)).
Proof.
  cbv zeta. unfold getFixes, computeAllFixes.
  cbn [VersionedTextDocumentIdentifier.uri
       VersionedTextDocumentIdentifier.version].
  destruct (codeActions st !! TextDocument.uri textDocument) as [edits|];
    [|by repeat split].
  split; [|split].
  - destruct (isEmpty edits); [done|].
    destruct (decide (Some (TextDocument.version textDocument)
                      = getDocumentVersion edits)) as [E|E].
    + rewrite bool_decide_eq_true_2 by done. intros _. by exists edits.
    + by rewrite bool_decide_eq_false_2.
  - intros ? [= <-] Hne. destruct (isEmpty edits); [done|].
    by rewrite bool_decide_eq_false_2.
  - intros ->. rewrite Z.eqb_refl. cbn [negb].
    destruct (isEmpty edits); [done|]. cbn [negb].
    by destruct (negb (bool_decide _)).
Qed.

End CommandFacts.

Module CommandChecks.
Import Scenario.

Lemma codeAction_single_fix_is_last_witness :
  ∃ st' result,
    codeActionHandler (H := platform)
      (CodeActionParams uri [diagnosticS; diagnosticR1]) validated
      = (st', Returns (CodeActions result)) ∧
    (singleFixAction <$> [fixS; fixR1]) `prefix_of` result ∧
    executeCommandHandler (H := platform)
      (ExecuteCommandParams CommandIds.applySingleFix []) st'
    = (send
         (ApplyEdit
            (WorkspaceChange.mk uri 6
               [createTextEdit (H := platform) document fixR1])) st',
       Returns ApplyEditThenable).
Proof.
  apply (codeAction_single_fix_is_last (H := platform) validated uri
           [diagnosticS; diagnosticR1] document fixR1 []).
  - vm_compute. reflexivity.
  - vm_compute. reflexivity.
Defined.

Lemma codeAction_without_match_resets_commands_witness :
  let r :=
    codeActionHandler (H := platform) (CodeActionParams uri [])
      (with_commands (Some {[ CommandIds.applyAllFixes :=
                                WorkspaceChange.mk uri 6 [] ]}) validated) in
  commands r.1 = Some ∅ ∧
  executeCommandHandler (H := platform)
    (ExecuteCommandParams CommandIds.applyAllFixes []) r.1
  = (r.1, Returns EmptyObject).
Proof.
  cbv zeta.
  edestruct (codeAction_without_match_resets_commands (H := platform)
               (with_commands (Some {[ CommandIds.applyAllFixes :=
                                         WorkspaceChange.mk uri 6 [] ]})
                  validated) uri []) as [Hr Hexec].
  - vm_compute. reflexivity.
  - split; [by rewrite Hr|]. by apply Hexec.
Defined.

(** The stored fixes were recorded at version 6: for the document at
    version 7 [getFixes] returns nothing. *)
Example getFixes_after_edit :
  getFixes (H := platform) document validated
    = createTextEdit (H := platform) document <$> [fixR1; fixR2; fixR3; fixS] ∧
  getFixes (H := platform) (TextDocument.mk uri 7 "a b c d e") validated = [].
Proof. vm_compute. done. Qed.

End CommandChecks.


(** ** UNC paths *)
Module PathFacts.
Import Paths.

Lemma substring_all (s : string) : String.substring 0 (String.length s) s = s.
Proof. induction s as [|c s IH]; simpl; [done|by rewrite IH]. Qed.

Lemma get_append (host tail : string) (n : nat) :
  String.get (String.length host + n) (host +:+ tail) = String.get n tail.
Proof. induction host as [|c host IH]; simpl; [done|exact IH]. Qed.

Lemma scanHost_split (s : string) (pos : nat) :
  ∃ host tail,
    s = host +:+ tail ∧ noBackslash host ∧
    scanHost s pos = (pos + String.length host)%nat ∧
    (tail = EmptyString ∨ ∃ tail', tail = String Backslash tail').
Proof.
  revert pos. induction s as [|c s IH]; intros pos.
  - exists EmptyString, EmptyString. simpl. split_and!; auto with lia.
  - simpl. destruct (Ascii.eqb c Backslash) eqn:E.
    + apply Ascii.eqb_eq in E as ->.
      exists EmptyString, (String Backslash s). simpl.
      split_and!; eauto with lia.
    + apply Ascii.eqb_neq in E.
      destruct (IH (S pos)) as (host & tail & -> & Hno & -> & Htail).
      exists (String c host), tail. simpl. split_and!; auto with lia.
Qed.

Lemma scanHost_host (host tail : string) (pos : nat) :
  noBackslash host →
  scanHost (host +:+ String Backslash tail) pos
  = (pos + String.length host)%nat.
Proof.
  revert pos. induction host as [|c host IH]; intros pos Hno; simpl.
  - lia.
  - destruct Hno as [Hc Hno].
    apply Ascii.eqb_neq in Hc as ->. rewrite IH by done. lia.
Qed.

Lemma length_append (a b : string) :
  String.length (a +:+ b) = (String.length a + String.length b)%nat.
Proof. induction a as [|c a IH]; simpl; [done|by rewrite IH]. Qed.

Lemma scanHost_ge (s : string) (pos : nat) : (pos ≤ scanHost s pos)%nat.
Proof.
  revert pos. induction s as [|c s IH]; intros pos; simpl; [done|].
  destruct (Ascii.eqb c Backslash); [done|]. specialize (IH (S pos)). lia.
Qed.

Lemma isUNC_two (c0 c1 : ascii) (s : string) :
  isUNC true (String c0 (String c1 s))
  = if (String.length s <? 3)%nat then false
    else if negb (Ascii.eqb c0 Backslash) then false
    else if negb (Ascii.eqb c1 Backslash) then false
    else if (2 =? scanHost s 2)%nat then false
    else match String.get (scanHost s 2 - 1) s with
         | None => false
         | Some code => negb (Ascii.eqb code Backslash)
         end.
Proof.
  unfold isUNC. cbn [negb String.length].
  replace (S (S (String.length s)) <? 5)%nat with (String.length s <? 3)%nat
    by (destruct (Nat.ltb_spec (String.length s) 3);
        symmetry; [apply Nat.ltb_lt|apply Nat.ltb_ge]; lia).
  destruct (String.length s <? 3)%nat; [done|].
  change (codeIs (String.get 0 (String c0 (String c1 s))) Backslash)
    with (Ascii.eqb c0 Backslash).
  change (codeIs (String.get 1 (String c0 (String c1 s))) Backslash)
    with (Ascii.eqb c1 Backslash).
  destruct (negb (Ascii.eqb c0 Backslash)); [done|].
  destruct (negb (Ascii.eqb c1 Backslash)); [done|].
  replace (S (S (String.length s)) - 2)%nat with (String.length s) by lia.
  change (String.substring 2 (String.length s) (String c0 (String c1 s)))
    with (String.substring 0 (String.length s) s).
  rewrite substring_all.
  pose proof (scanHost_ge s 2) as Hge.
  destruct (2 =? scanHost s 2)%nat; [done|].
  replace (scanHost s 2 + 1)%nat with (S (S (scanHost s 2 - 1))) by lia.
  done.
Qed.

(** X18.  [isUNC] accepts exactly the paths of the form
    [\\host\share...] on Windows: two backslashes, a host name that is not
    empty and has no backslash, one backslash, and then at least one
    character, the first of which is no backslash.  Elsewhere than on
    Windows it accepts no path. *)
Theorem isUNC_spec (win32 : bool) (path : string) :
  isUNC win32 path = true ↔
  win32 = true ∧
  ∃ host c rest,
    path = String Backslash (String Backslash
             (host +:+ String Backslash (String c rest))) ∧
    host ≠ EmptyString ∧ noBackslash host ∧ c ≠ Backslash.
Proof.
  split.
  - destruct win32; [|done]. intros Hunc. split; [done|].
    destruct path as [|c0 [|c1 s]]; [done|done|].
    rewrite isUNC_two in Hunc.
    destruct (String.length s <? 3)%nat; [done|].
    destruct (Ascii.eqb c0 Backslash) eqn:E0; [|done].
    destruct (Ascii.eqb c1 Backslash) eqn:E1; [|done].
    apply Ascii.eqb_eq in E0 as ->. apply Ascii.eqb_eq in E1 as ->.
    cbn [negb] in Hunc.
    destruct (scanHost_split s 2) as (host & tail & -> & Hno & Hpos & Htail).
    rewrite Hpos in Hunc.
    destruct host as [|h host].
    { by rewrite Nat.add_0_r, Nat.eqb_refl in Hunc. }
    replace (2 =? 2 + String.length (String h host))%nat with false in Hunc
      by (symmetry; apply Nat.eqb_neq; simpl; lia).
    replace (2 + String.length (String h host) - 1)%nat
      with (String.length (String h host) + 1)%nat in Hunc by lia.
    rewrite get_append in Hunc.
    destruct Htail as [->|[tail' ->]]; [done|].
    cbn [String.get] in Hunc. destruct tail' as [|c rest]; [done|].
    cbn [String.get] in Hunc.
    exists (String h host), c, rest. split_and!; [done|done|done|].
    intros ->. by rewrite Ascii.eqb_refl in Hunc.
  - intros (-> & host & c & rest & -> & Hne & Hno & Hc).
    rewrite isUNC_two, length_append. cbn [String.length].
    destruct host as [|h host]; [done|].
    replace (String.length (String h host) + S (S (String.length rest)) <? 3)%nat
      with false by (symmetry; apply Nat.ltb_ge; simpl; lia).
    rewrite Ascii.eqb_refl. cbn [negb].
    rewrite scanHost_host by done.
    replace (2 =? 2 + String.length (String h host))%nat with false
      by (symmetry; apply Nat.eqb_neq; simpl; lia).
    replace (2 + String.length (String h host) - 1)%nat
      with (String.length (String h host) + 1)%nat by lia.
    rewrite get_append. cbn [String.get].
    by apply Ascii.eqb_neq in Hc as ->.
Qed.

Example isUNC_share : isUNC true "\\host\share" = true.
Proof. vm_compute. reflexivity. Qed.

Example isUNC_no_share : isUNC true "\\host\" = false.
Proof. vm_compute. reflexivity. Qed.

Example isUNC_drive : isUNC true "C:\work\main.styl" = false.
Proof. vm_compute. reflexivity. Qed.

Example isUNC_elsewhere : isUNC false "\\host\share" = false.
Proof. vm_compute. reflexivity. Qed.

(** X19.  The global package-manager path is resolved at most once.
    The first call of [globalNpmPath] (or [globalYarnPath]) asks the
    resolver and caches what it said, also when it found nothing; every
    later call returns what the first returned and leaves the cache as it
    is, whatever the resolver would say by then. *)
Theorem globalPath_resolved_once (resolved later : option string)
    (cache : CachedPath) :
  let first := globalPath resolved cache in
  first.2 ≠ NotResolved ∧
  globalPath later first.2 = first ∧
  (cache = NotResolved → first.1 = resolved).
Proof.
  cbv zeta. unfold globalPath.
  destruct cache; destruct resolved; simpl; split_and!; done.
Qed.

End PathFacts.


(** ** Messages shown to the user *)
Module MessageFacts.

Lemma replaceNewlines_cons (c : ascii) (rest : string) :
  replaceNewlines (String c rest)
  = if Ascii.eqb c lineFeed then String " "%char (replaceNewlines rest)
    else
      match rest with
      | String c' rest' =>
          if Ascii.eqb c "013"%char && Ascii.eqb c' lineFeed
          then String " "%char (replaceNewlines rest')
          else String c (replaceNewlines rest)
      | EmptyString => String c (replaceNewlines rest)
      end.
Proof.
  destruct c as [[] [] [] [] [] [] [] []]; try (by destruct rest).
  destruct rest as [|c' rest']; [done|].
  destruct c' as [[] [] [] [] [] [] [] []]; done.
Qed.

Lemma replaceNewlines_single_line (n : nat) (s : string) :
  (String.length s ≤ n)%nat →
  ¬ occursIn lineFeed (replaceNewlines s) ∧
  (String.length (replaceNewlines s) ≤ String.length s)%nat.
Proof.
  revert s. induction n as [|n IH]; intros s Hn.
  - destruct s; [|simpl in Hn; lia]. simpl. split; [tauto|lia].
  - destruct s as [|c rest]; [simpl; split; [tauto|lia]|].
    rewrite replaceNewlines_cons. simpl in Hn.
    destruct (IH rest ltac:(lia)) as [Hrest Hlen].
    destruct (Ascii.eqb c lineFeed) eqn:Ec.
    { simpl. split; [|lia]. intros [E|E]; [done|tauto]. }
    apply Ascii.eqb_neq in Ec.
    assert (¬ occursIn lineFeed (String c (replaceNewlines rest)) ∧
            (String.length (String c (replaceNewlines rest))
             ≤ String.length (String c rest))%nat) as Hkeep.
    { simpl. split; [|lia]. intros [E|E]; [done|tauto]. }
    destruct rest as [|c' rest']; [exact Hkeep|].
    destruct (Ascii.eqb c "013"%char && Ascii.eqb c' lineFeed);
      [|exact Hkeep].
    simpl in Hn. destruct (IH rest' ltac:(lia)) as [Hrest' Hlen'].
    simpl. split; [|lia]. intros [E|E]; [done|tauto].
Qed.

Lemma occursIn_substring (c : ascii) (n m : nat) (s : string) :
  occursIn c (String.substring n m s) → occursIn c s.
Proof.
  revert n m. induction s as [|c' s IH]; intros n m.
  - by destruct n, m.
  - destruct n as [|n]; simpl.
    + destruct m as [|m]; simpl; [done|].
      intros [E|E]; [by left|right; by eapply IH].
    + intros E. right. by eapply IH.
Qed.

Lemma length_substring_le (n m : nat) (s : string) :
  (String.length (String.substring n m s) ≤ String.length s)%nat.
Proof.
  revert n m. induction s as [|c s IH]; intros n m.
  - by destruct n, m.
  - destruct n as [|n]; simpl.
    + destruct m as [|m]; simpl; [lia|]. specialize (IH 0%nat m). lia.
    + specialize (IH n m). lia.
Qed.

Lemma replaceNewlines_CLI (s : string) :
  replaceNewlines ("CLI: " +:+ s) = "CLI: " +:+ replaceNewlines s.
Proof.
  reflexivity.
Qed.

(** X20.  The message [getMessage] makes of an error whose [message]
    is a string is one line: it holds no line feed (each line feed, with
    the carriage return before it if there is one, became one space), and
    it is not longer than the error's message.  A message with the prefix
    [CLI: ] is shown without it. *)
Theorem getMessage_single_line (err : StylintError)
    (document : TextDocument.t) (message : string) :
  errorMessage err = Some message →
  ¬ occursIn lineFeed (getMessage err document) ∧
  (String.length (getMessage err document) ≤ String.length message)%nat ∧
  (∀ rest, message = "CLI: " +:+ rest →
     getMessage err document = replaceNewlines rest).
Proof.
  intros Hm. unfold getMessage. rewrite Hm.
  destruct (replaceNewlines_single_line (String.length message) message
              (le_n _)) as [Hline Hlen].
  split; [|split].
  - destruct (String.prefix _ _); [|done].
    intros Hin. by apply occursIn_substring in Hin.
  - destruct (String.prefix _ _); [|done].
    pose proof (length_substring_le 5
                  (String.length (replaceNewlines message) - 5)
                  (replaceNewlines message)).
    lia.
  - intros rest ->. rewrite replaceNewlines_CLI.
    change ("CLI: " +:+ replaceNewlines rest)
      with (String "C" (String "L" (String "I" (String ":"
              (String " " (replaceNewlines rest)))))).
    assert (∀ s, String.prefix "CLI: "
                   (String "C" (String "L" (String "I" (String ":"
                      (String " " s))))) = true) as ->
      by (intros s; by destruct s).
    cbn [String.length String.substring Nat.sub].
    rewrite Nat.sub_0_r. apply PathFacts.substring_all.
Qed.

Lemma getMessage_single_line_witness :
  getMessage
    (mkError None
       (Some ("CLI: no rules" +:+ String "013" (String "010" "in .stylintrc")))
       None)
    Scenario.document
  = "no rules in .stylintrc".
Proof.
  etransitivity.
  - apply (proj2 (proj2 (getMessage_single_line
                           (mkError None
                              (Some ("CLI: no rules"
                                     +:+ String "013"
                                           (String "010" "in .stylintrc")))
                              None)
                           Scenario.document _ eq_refl))
             ("no rules" +:+ String "013" (String "010" "in .stylintrc"))).
    reflexivity.
  - vm_compute. reflexivity.
Defined.

End MessageFacts.


(** * Properties of the client extension *)
Module ClientFacts.
Import Client.

Lemma languageListed_find (items : list ValidateEntry) (languageId' : string) :
  languageListed items languageId'
  = match List.find (names languageId') items with
    | Some _ => true
    | None => false
    end.
Proof.
  induction items as [|[item|language autoFix'|] items IH]; simpl.
  - done.
  - by destruct (String.eqb item languageId').
  - by destruct (String.eqb language languageId').
  - done.
Qed.

Lemma validateItemsLoop_find (items : list ValidateEntry)
    (languageId' : string) :
  validateItemsLoop items languageId' false (Some false)
  = match List.find (names languageId') items with
    | Some (LanguageName _) =>
        (true, Some (String.eqb languageId' "javascript"))
    | Some (LanguageItem _ autoFix') => (true, autoFix')
    | _ => (false, Some false)
    end.
Proof.
  induction items as [|[item|language autoFix'|] items IH]; simpl.
  - done.
  - destruct (String.eqb item languageId') eqn:E; [|done].
    apply String.eqb_eq in E as ->.
    by destruct (String.eqb languageId' "javascript").
  - by destruct (String.eqb language languageId').
  - done.
Qed.

(** X21.  The validation settings the client answers for a synced
    document.  [validate] is on exactly when the key [enabled] is on and
    an entry of [stylint.validate] names the language of the document, so
    it agrees with [shouldBeValidated], which reads the key [enable],
    whenever the two keys agree.  The first entry that names the language
    decides [autoFix]: an object gives its own [autoFix] (possibly
    [undefined]); a plain string gives [true] only for the language
    [javascript].  [autoFixOnSave] is truthy exactly when [validate] and
    [autoFix] are and the key [autoFixOnSave] is on. *)
Theorem validationSettings_first_entry (config : Configuration)
    (document : Document) :
  let validate' := (validationSettings config document).1.1 in
  let autoFix' := (validationSettings config document).1.2 in
  let autoFixOnSave' := (validationSettings config document).2 in
  validate'
    = enabled config
      && languageListed (validate config) (languageId document) ∧
  (enable config = enabled config →
     validate' = shouldBeValidated config document) ∧
  (enabled config = true →
     match List.find (names (languageId document)) (validate config) with
     | Some (LanguageName _) =>
         autoFix' = Some (String.eqb (languageId document) "javascript")
     | Some (LanguageItem _ autoFix'') => autoFix' = autoFix''
     | _ => validate' = false ∧ autoFix' = Some false
     end) ∧
  (truthyFlag autoFixOnSave' = true ↔
     validate' = true ∧ truthyFlag autoFix' = true ∧
     autoFixOnSave config = true).
Proof.
  cbv zeta. unfold validationSettings, shouldBeValidated.
  destruct (enabled config) eqn:Een.
  - rewrite validateItemsLoop_find, languageListed_find. cbn [andb].
    destruct (List.find (names (languageId document)) (validate config))
      as [[item|language autoFix''|]|] eqn:Ef; cbn [fst snd].
    + split; [done|]. split; [by intros ->|]. split; [done|].
      destruct (String.eqb (languageId document) "javascript"); simpl;
        [|by intuition].
      destruct (autoFixOnSave config); by intuition.
    + split; [done|]. split; [by intros ->|]. split; [done|].
      destruct autoFix'' as [[]|]; simpl; [|by intuition..].
      destruct (autoFixOnSave config); by intuition.
    + apply List.find_some in Ef as [_ Hn]. done.
    + split; [done|]. split; [intros ->; done|]. split; [done|].
      simpl. by intuition.
  - cbn [fst snd andb]. split; [done|]. split; [by intros ->|].
    split; [done|]. simpl. by intuition.
Qed.

Lemma validationSettings_first_entry_witness :
  (validationSettings
     (mkConfiguration true true
        [LanguageName "stylus"; LanguageItem "stylus" (Some true)] true None)
     (mkDocument "file:///work/main.styl" "stylus"
        (Some "/work/main.styl"))).1.2
  = Some false.
Proof.
  apply (proj1 (proj2 (proj2
           (validationSettings_first_entry
              (mkConfiguration true true
                 [LanguageName "stylus"; LanguageItem "stylus" (Some true)]
                 true None)
              (mkDocument "file:///work/main.styl" "stylus"
                 (Some "/work/main.styl")))))).
  reflexivity.
Defined.

(** ** The working directory *)

Lemma prefix_nil (s : string) : String.prefix EmptyString s = true.
Proof. by destruct s. Qed.

Lemma prefix_cons (a b : ascii) (s1 s2 : string) :
  String.prefix (String a s1) (String b s2) = true ↔
  a = b ∧ String.prefix s1 s2 = true.
Proof.
  simpl. destruct (ascii_dec a b) as [->|Hne]; [by intuition|].
  split; [done|by intros [? _]].
Qed.

Lemma prefix_of_prefixes (a b f : string) :
  String.prefix a f = true → String.prefix b f = true →
  (String.length a ≤ String.length b)%nat →
  String.prefix a b = true.
Proof.
  revert a b. induction f as [|c f IH]; intros a b Ha Hb Hlen.
  - destruct a; [apply prefix_nil|done].
  - destruct a as [|x a]; [apply prefix_nil|].
    destruct b as [|y b]; [simpl in Hlen; lia|].
    apply prefix_cons in Ha as [-> Ha]. apply prefix_cons in Hb as [-> Hb].
    apply prefix_cons. split; [done|]. apply IH; [done..|].
    simpl in Hlen. lia.
Qed.

Section WorkingDirectoryFacts.
Variable isAbsolute : string → bool.
Variable join : string → string → string.

Lemma workingDirectoryStep_pick (workspaceFolderPath filePath : option string)
    (workingDirectory : option (string * bool)) (entry : DirectoryEntry) :
  workingDirectoryStep isAbsolute join workspaceFolderPath filePath
    workingDirectory entry
  = match candidate isAbsolute join workspaceFolderPath filePath entry with
    | Some found => pick workingDirectory found
    | None => workingDirectory
    end.
Proof.
  unfold candidate, workingDirectoryStep, pick.
  destruct entry as [entry|directory changeProcessCWD|]; cbn [fst snd];
    [| |done].
  - destruct (truthyString (Some entry)); [|done].
    destruct (truthyString filePath && _ && _); [|done].
    by destruct workingDirectory as [[chosen flag]|].
  - destruct (truthyString (Some directory)); [|done].
    destruct (truthyString filePath && _ && _); [|done].
    by destruct workingDirectory as [[chosen flag]|].
Qed.

Lemma candidate_prefix (workspaceFolderPath filePath : option string)
    (entry : DirectoryEntry) (found : string * bool) :
  candidate isAbsolute join workspaceFolderPath filePath entry = Some found →
  ∃ path, filePath = Some path ∧ String.prefix found.1 path = true.
Proof.
  unfold candidate, workingDirectoryStep.
  destruct entry as [entry|directory changeProcessCWD|]; cbn [fst snd];
    [| |done].
  - destruct (truthyString (Some entry)); [|done].
    destruct filePath as [path|]; [|by rewrite andb_false_l].
    destruct (truthyString (Some path) && _ && _) eqn:E; [|done].
    intros [= <-]. exists path. split; [done|].
    by apply andb_prop in E as [_ E].
  - destruct (truthyString (Some directory)); [|done].
    destruct filePath as [path|]; [|by rewrite andb_false_l].
    destruct (truthyString (Some path) && _ && _) eqn:E; [|done].
    intros [= <-]. exists path. split; [done|].
    by apply andb_prop in E as [_ E].
Qed.

Lemma fold_workingDirectoryStep (workspaceFolderPath filePath : option string)
    (entries : list DirectoryEntry) (workingDirectory : option (string * bool)) :
  fold_left (workingDirectoryStep isAbsolute join workspaceFolderPath filePath)
    entries workingDirectory
  = fold_left pick
      (omap (candidate isAbsolute join workspaceFolderPath filePath) entries)
      workingDirectory.
Proof.
  revert workingDirectory.
  induction entries as [|entry entries IH]; intros workingDirectory; [done|].
  cbn [fold_left]. rewrite IH, workingDirectoryStep_pick. csimpl.
  by destruct (candidate _ _ _ _ entry).
Qed.

(** What the loop has chosen after the candidates [seen]: nothing when
    there was none; otherwise a candidate before which every candidate is
    strictly shorter and after which none is longer. *)
Lemma fold_pick_longest (candidates seen : list (string * bool))
    (workingDirectory : option (string * bool)) :
  match workingDirectory with
  | None => seen = []
  | Some found =>
      ∃ before after,
        seen = before ++ found :: after ∧
        Forall (λ c, (String.length c.1 < String.length found.1)%nat) before ∧
        Forall (λ c, (String.length c.1 ≤ String.length found.1)%nat) after
  end →
  match fold_left pick candidates workingDirectory with
  | None => seen ++ candidates = []
  | Some found =>
      ∃ before after,
        seen ++ candidates = before ++ found :: after ∧
        Forall (λ c, (String.length c.1 < String.length found.1)%nat) before ∧
        Forall (λ c, (String.length c.1 ≤ String.length found.1)%nat) after
  end.
Proof.
  revert seen workingDirectory.
  induction candidates as [|c candidates IH]; intros seen workingDirectory Hinv.
  - rewrite app_nil_r. exact Hinv.
  - cbn [fold_left].
    replace (seen ++ c :: candidates) with ((seen ++ [c]) ++ candidates)
      by (by rewrite <- app_assoc).
    apply IH. unfold pick.
    destruct workingDirectory as [[chosen flag]|].
    + destruct Hinv as (before & after & -> & Hb & Ha). cbn [fst] in *.
      destruct (String.length chosen <? String.length c.1)%nat eqn:E.
      * apply Nat.ltb_lt in E.
        exists (before ++ (chosen, flag) :: after), [].
        split; [done|]. split; [|done].
        apply Forall_app. split.
        -- eapply Forall_impl; [exact Hb|]. intros ? ?. simpl in *. lia.
        -- constructor; [done|].
           eapply Forall_impl; [exact Ha|]. intros ? ?. simpl in *. lia.
      * apply Nat.ltb_ge in E.
        exists before, (after ++ [c]).
        split; [by rewrite <- app_assoc|]. split; [done|].
        apply Forall_app. split; [done|]. by constructor.
    + subst seen. exists [], []. by split.
Qed.

(** X22.  The working directory the client picks from
    [stylint.workingDirectories] is the most specific one.  Of the
    entries whose directory (joined to the workspace folder when it is
    relative) is a prefix of the path of the file, it picks the longest:
    every such directory is a prefix of the chosen one; its flag
    [changeProcessCWD] is that of the first entry with this directory.
    No working directory is picked exactly when no entry qualifies. *)
Theorem selectWorkingDirectory_most_specific (config : Configuration)
    (workspaceFolderPath : option string) (document : Document)
    (entries : list DirectoryEntry) :
  workingDirectories config = Some entries →
  let candidates :=
    omap (candidate isAbsolute join workspaceFolderPath (fsPath document))
      entries in
  match selectWorkingDirectory isAbsolute join config workspaceFolderPath
          document with
  | None => candidates = []
  | Some chosen =>
      (∃ path, fsPath document = Some path ∧
               String.prefix chosen.1 path = true) ∧
      (∀ found, found ∈ candidates → String.prefix found.1 chosen.1 = true) ∧
      ∃ before after,
        candidates = before ++ chosen :: after ∧
        Forall (λ found, found.1 ≠ chosen.1) before
  end.
Proof.
  intros Hentries. cbv zeta. unfold selectWorkingDirectory.
  rewrite Hentries, fold_workingDirectoryStep.
  pose proof (fold_pick_longest
                (omap (candidate isAbsolute join workspaceFolderPath
                         (fsPath document)) entries) [] None eq_refl) as Hfold.
  cbn [app] in Hfold.
  assert (∀ found,
            found ∈ omap (candidate isAbsolute join workspaceFolderPath
                            (fsPath document)) entries →
            ∃ path, fsPath document = Some path ∧
                    String.prefix found.1 path = true) as Hprefix.
  { intros found Hin. apply list_elem_of_omap in Hin as (entry & _ & Hc).
    by eapply candidate_prefix. }
  destruct (fold_left pick _ None) as [chosen|]; [|done].
  destruct Hfold as (before & after & Heq & Hb & Ha).
  assert (chosen ∈ omap (candidate isAbsolute join workspaceFolderPath
                           (fsPath document)) entries) as Hin.
  { rewrite Heq. apply elem_of_app. right. by left. }
  destruct (Hprefix chosen Hin) as (path & Hpath & Hchosen).
  split; [by exists path|]. split.
  - intros found Hfound.
    destruct (Hprefix found Hfound) as (path' & Hpath' & Hf).
    rewrite Hpath in Hpath'. injection Hpath' as <-.
    apply (prefix_of_prefixes _ _ path); [done..|].
    rewrite Heq in Hfound. apply elem_of_app in Hfound as [Hfound|Hfound].
    + rewrite Forall_forall in Hb. specialize (Hb _ Hfound). lia.
    + apply elem_of_cons in Hfound as [->|Hfound]; [done|].
      rewrite Forall_forall in Ha. by apply Ha.
  - exists before, after. split; [done|].
    eapply Forall_impl; [exact Hb|]. intros found Hlt E.
    cbv beta in Hlt. rewrite E in Hlt. lia.
Qed.

End WorkingDirectoryFacts.

(** Of [/work], [/work/packages/app] and [/work/packages], each a prefix
    of the path of the file, the second is picked, with its flag. *)
Lemma selectWorkingDirectory_most_specific_witness :
  let config :=
    mkConfiguration true true [LanguageName "stylus"] false
      (Some [DirectoryName "/work";
             DirectoryObject "packages/app" (Some true);
             DirectoryName "/work/packages";
             DirectoryName "/other"]) in
  let isAbsolute := String.prefix "/" in
  let join := λ a b, a +:+ "/" +:+ b in
  let document :=
    mkDocument "file:///work/packages/app/main.styl" "stylus"
      (Some "/work/packages/app/main.styl") in
  selectWorkingDirectory isAbsolute join config (Some "/work") document
    = Some ("/work/packages/app", true) ∧
  ∀ found,
    found ∈ omap (candidate isAbsolute join (Some "/work")
                    (fsPath document))
              [DirectoryName "/work";
               DirectoryObject "packages/app" (Some true);
               DirectoryName "/work/packages";
               DirectoryName "/other"] →
    String.prefix found.1 "/work/packages/app" = true.
Proof.
  cbv zeta.
  pose proof (selectWorkingDirectory_most_specific (String.prefix "/")
                (λ a b, a +:+ "/" +:+ b)
                (mkConfiguration true true [LanguageName "stylus"] false
                   (Some [DirectoryName "/work";
                          DirectoryObject "packages/app" (Some true);
                          DirectoryName "/work/packages";
                          DirectoryName "/other"]))
                (Some "/work")
                (mkDocument "file:///work/packages/app/main.styl" "stylus"
                   (Some "/work/packages/app/main.styl"))
                _ eq_refl) as Hspec.
  cbv zeta in Hspec.
  assert (selectWorkingDirectory (String.prefix "/")
            (λ a b, a +:+ "/" +:+ b)
            (mkConfiguration true true [LanguageName "stylus"] false
               (Some [DirectoryName "/work";
                      DirectoryObject "packages/app" (Some true);
                      DirectoryName "/work/packages";
                      DirectoryName "/other"]))
            (Some "/work")
            (mkDocument "file:///work/packages/app/main.styl" "stylus"
               (Some "/work/packages/app/main.styl"))
          = Some ("/work/packages/app", true)) as Hsel
    by (vm_compute; reflexivity).
  rewrite Hsel in Hspec. split; [done|].
  exact (proj1 (proj2 Hspec)).
Defined.

End ClientFacts.


(** ** The synced documents and what the server is told *)
Module SyncFacts.
Import Client.

Lemma has_true (synced : list (string * Document)) (k : string) :
  has synced k = true ↔ k ∈ synced.*1.
Proof. unfold has. by rewrite bool_decide_eq_true. Qed.

Lemma set_keys (synced : list (string * Document)) (key k : string)
    (document : Document) :
  k ∈ (set synced key document).*1 ↔ k = key ∨ k ∈ synced.*1.
Proof.
  induction synced as [|[k' d] synced IH]; simpl.
  - rewrite list_elem_of_singleton. split; [by left|].
    intros [?|Hin]; [done|by apply elem_of_nil in Hin].
  - destruct (String.eqb k' key) eqn:E; simpl.
    + apply String.eqb_eq in E as ->. rewrite !elem_of_cons. by intuition.
    + rewrite !elem_of_cons, IH. by intuition.
Qed.

Lemma has_set (synced : list (string * Document)) (key k : string)
    (document : Document) :
  has (set synced key document) k
  = bool_decide (k = key) || has synced k.
Proof.
  apply Bool.eq_iff_eq_true.
  by rewrite orb_true_iff, bool_decide_eq_true, !has_true, set_keys.
Qed.

Lemma has_delete (synced : list (string * Document)) (key k : string) :
  has (delete synced key) k = negb (bool_decide (k = key)) && has synced k.
Proof.
  apply Bool.eq_iff_eq_true.
  rewrite andb_true_iff, negb_true_iff, bool_decide_eq_false, !has_true.
  unfold delete. rewrite !list_elem_of_fmap. split.
  - intros (e & -> & Hin). apply list_elem_of_filter in Hin as [Hne Hin].
    split; [done|]. by exists e.
  - intros (Hne & e & -> & Hin). exists e. split; [done|].
    by apply list_elem_of_filter.
Qed.

Lemma set_keyed (synced : list (string * Document)) (document : Document) :
  keyedByUri synced → keyedByUri (set synced (uri document) document).
Proof.
  intros [Hnodup Hkeys]. unfold keyedByUri.
  induction synced as [|[k d] synced IH]; simpl.
  - split; [apply NoDup_singleton|]. by repeat constructor.
  - apply NoDup_cons in Hnodup as [Hk Hnodup].
    apply Forall_cons in Hkeys as [Hd Hkeys].
    destruct (String.eqb k (uri document)) eqn:E; simpl.
    + apply String.eqb_eq in E. split; [by constructor|].
      constructor; [done|done].
    + destruct (IH Hnodup Hkeys) as [IH1 IH2].
      split; [|by constructor].
      constructor; [|done]. intros Hin.
      assert (has (set synced (uri document) document) k = true) as Hhas
        by (by apply bool_decide_eq_true_2).
      rewrite has_set in Hhas. apply orb_prop in Hhas as [Hhas|Hhas].
      * apply bool_decide_eq_true_1 in Hhas.
        apply String.eqb_neq in E. done.
      * by apply bool_decide_eq_true_1 in Hhas.
Qed.

Lemma delete_keyed (synced : list (string * Document)) (key : string) :
  keyedByUri synced → keyedByUri (delete synced key).
Proof.
  intros [Hnodup Hkeys]. unfold keyedByUri, delete. split.
  - clear Hkeys. induction synced as [|[k d] synced IH]; [constructor|].
    apply NoDup_cons in Hnodup as [Hk Hnodup].
    rewrite filter_cons. destruct (decide _); simpl; [|by apply IH].
    constructor; [|by apply IH]. intros Hin. apply Hk.
    apply list_elem_of_fmap in Hin as (e & -> & Hin).
    apply list_elem_of_filter in Hin as [_ Hin].
    apply list_elem_of_fmap. by exists e.
  - apply Forall_forall. intros e He.
    apply list_elem_of_filter in He as [_ He].
    rewrite Forall_forall in Hkeys. by apply Hkeys.
Qed.

Lemma openAtServer_snoc (sent : list Forwarded) (message : Forwarded)
    (uri' : string) :
  openAtServer (sent ++ [message]) uri'
  = match message with
    | DidOpen u => if String.eqb u uri' then true else openAtServer sent uri'
    | DidClose u => if String.eqb u uri' then false else openAtServer sent uri'
    | _ => openAtServer sent uri'
    end.
Proof. unfold openAtServer. by rewrite fold_left_app. Qed.

Lemma Bracketed_nil : Bracketed [].
Proof. intros before message after uri' E. by destruct before. Qed.

Lemma Bracketed_snoc (sent : list Forwarded) (message : Forwarded) :
  Bracketed sent →
  (∀ uri', presupposesOpen message = Some uri' →
           openAtServer sent uri' = true) →
  Bracketed (sent ++ [message]).
Proof.
  intros Hsent Hmessage before m after uri' E Hm.
  destruct after as [|m' after _] using rev_ind.
  - apply app_inj_tail in E as [-> ->]. by apply Hmessage.
  - rewrite app_comm_cons, app_assoc in E.
    apply app_inj_tail in E as [-> _]. by eapply Hsent.
Qed.

Lemma eqb_decide (a b : string) : String.eqb a b = bool_decide (b = a).
Proof.
  destruct (String.eqb_spec a b) as [->|Hne].
  - by rewrite bool_decide_eq_true_2.
  - by rewrite bool_decide_eq_false_2.
Qed.

Lemma open_Synced (s : Sync) (document : Document) :
  Synced s →
  Synced (mkSync (set (syncedDocuments s) (uri document) document)
            (forwarded s ++ [DidOpen (uri document)])).
Proof.
  intros (Hkeys & Hsent & Hsame). split; [by apply set_keyed|].
  split; [by apply Bracketed_snoc|].
  intros uri'. cbn [syncedDocuments forwarded].
  rewrite has_set, openAtServer_snoc, eqb_decide, Hsame.
  by destruct (bool_decide _).
Qed.

Lemma close_Synced (s : Sync) (key : string) :
  Synced s → has (syncedDocuments s) key = true →
  Synced (mkSync (delete (syncedDocuments s) key)
            (forwarded s ++ [DidClose key])).
Proof.
  intros (Hkeys & Hsent & Hsame) Hhas. split; [by apply delete_keyed|].
  split.
  - apply Bracketed_snoc; [done|]. intros uri' [= <-]. by rewrite <- Hsame.
  - intros uri'. cbn [syncedDocuments forwarded].
    rewrite has_delete, openAtServer_snoc, eqb_decide, Hsame.
    by destruct (bool_decide _).
Qed.

Lemma forwardIfSynced_Synced (s : Sync) (document : Document)
    (message : Forwarded) :
  presupposesOpen message = Some (uri document) →
  (∀ sent uri', openAtServer (sent ++ [message]) uri'
                = openAtServer sent uri') →
  Synced s → Synced (forwardIfSynced document message s).
Proof.
  intros Hm Hquiet (Hkeys & Hsent & Hsame). unfold forwardIfSynced.
  destruct (has (syncedDocuments s) (uri document)) eqn:Hhas;
    [|by split].
  split; [done|]. split.
  - apply Bracketed_snoc; [done|]. intros uri' Hu.
    rewrite Hm in Hu. injection Hu as <-. by rewrite <- Hsame.
  - intros uri'. cbn [forward syncedDocuments forwarded].
    by rewrite Hquiet.
Qed.

Lemma closeUnvalidated_Synced (validated : Document → bool)
    (textDocuments : list Document) (s : Sync) :
  Synced s →
  NoDup (uri <$> textDocuments) →
  Forall (λ d, has (syncedDocuments s) (uri d) = true) textDocuments →
  Synced (fold_left (closeUnvalidated validated) textDocuments s).
Proof.
  revert s.
  induction textDocuments as [|d textDocuments IH]; intros s Hs Hnodup Hall;
    [done|].
  cbn [fold_left]. rewrite fmap_cons in Hnodup.
  apply NoDup_cons in Hnodup as [Hd Hnodup].
  apply Forall_cons in Hall as [Hhas Hall].
  apply IH; [|done|].
  - unfold closeUnvalidated. destruct (negb (validated d)); [|done].
    exact (close_Synced s _ Hs Hhas).
  - unfold closeUnvalidated. destruct (negb (validated d)); [|done].
    cbn [forward syncedDocuments].
    rewrite Forall_forall in Hall. apply Forall_forall. intros d' Hd'.
    rewrite has_delete, (Hall _ Hd'), andb_true_r.
    rewrite bool_decide_eq_false_2; [done|].
    intros E. apply Hd. rewrite <- E. apply list_elem_of_fmap. by exists d'.
Qed.

Lemma openValidated_Synced (validated : Document → bool)
    (textDocuments : list Document) (s : Sync) :
  Synced s → Synced (fold_left (openValidated validated) textDocuments s).
Proof.
  revert s. induction textDocuments as [|d textDocuments IH]; intros s Hs;
    [done|].
  cbn [fold_left]. apply IH. unfold openValidated.
  destruct (negb _ && _); [|done]. exact (open_Synced s _ Hs).
Qed.

Lemma step_Synced (filtered validated : Document → bool) (s : Sync)
    (event : Event) :
  Synced s → Synced (step filtered validated s event).
Proof.
  intros Hs.
  destruct event as [d|d|d|d|d|d|d diagnostics|textDocuments];
    cbn [step].
  - destruct (filtered d || validated d); [|done]. exact (open_Synced s _ Hs).
  - apply forwardIfSynced_Synced; [done| |done].
    intros sent uri'. by rewrite openAtServer_snoc.
  - apply forwardIfSynced_Synced; [done| |done].
    intros sent uri'. by rewrite openAtServer_snoc.
  - apply forwardIfSynced_Synced; [done| |done].
    intros sent uri'. by rewrite openAtServer_snoc.
  - apply forwardIfSynced_Synced; [done| |done].
    intros sent uri'. by rewrite openAtServer_snoc.
  - destruct (has (syncedDocuments s) (uri d)) eqn:Hhas; [|done].
    exact (close_Synced s _ Hs Hhas).
  - destruct (has (syncedDocuments s) (uri d)) eqn:Hhas; [|done].
    cbn [negb orb].
    destruct (length diagnostics =? 0)%nat; [done|].
    destruct (length (stylintDiagnostics diagnostics) =? 0)%nat; [done|].
    destruct Hs as (Hkeys & Hsent & Hsame).
    split; [done|]. split.
    + apply Bracketed_snoc; [done|]. intros uri' [= <-].
      by rewrite <- Hsame.
    + intros uri'. cbn [forward syncedDocuments forwarded].
      by rewrite openAtServer_snoc.
  - apply openValidated_Synced. apply closeUnvalidated_Synced; [done| |].
    + destruct Hs as ((Hnodup & Hkeys) & _).
      assert (uri <$> (syncedDocuments s).*2 = (syncedDocuments s).*1) as ->;
        [|done].
      clear Hnodup. induction Hkeys as [|[k d] synced Hk _ IH]; [done|].
      cbn [fmap list_fmap fst snd] in *. by rewrite IH, Hk.
    + apply Forall_forall. intros d Hd.
      apply list_elem_of_fmap in Hd as ([k d'] & -> & Hin).
      destruct Hs as ((_ & Hkeys) & _).
      rewrite Forall_forall in Hkeys. specialize (Hkeys _ Hin).
      simpl in *. subst k. apply bool_decide_eq_true_2.
      apply list_elem_of_fmap. by exists (uri d', d').
Qed.

(** X23.  The server is told of changes, saves, closes and code-action
    requests only for documents it holds as open.  After any run of the
    client (calls of the middleware and changes of the configuration, in
    any order and under any configurations), every message sent to the
    server that presupposes an open document came after a [didOpen] of
    that document with no [didClose] of it in between, and the documents
    in [syncedDocuments] are exactly those the server holds as open. *)
Theorem run_bracketed (filtered : Document → bool)
    (events : list ((string → Configuration) * Event)) :
  Bracketed (forwarded (run filtered events)) ∧
  ∀ uri',
    has (syncedDocuments (run filtered events)) uri'
    = openAtServer (forwarded (run filtered events)) uri'.
Proof.
  assert (Synced (run filtered events)) as (_ & Hsent & Hsame); [|done].
  unfold run.
  assert (Synced (mkSync [] [])) as Hinit.
  { split; [split; constructor|]. split; [apply Bracketed_nil|done]. }
  revert Hinit. generalize (mkSync [] []).
  induction events as [|event events IH]; intros s Hs; [done|].
  cbn [fold_left]. apply IH. by apply step_Synced.
Qed.



(** A document that is opened, loses its validation by a change of the
    configuration, and is edited: the server gets the open and the close,
    and not the edit. *)
Example unvalidated_document_is_closed :
  let document :=
    mkDocument "file:///work/main.styl" "stylus" (Some "/work/main.styl") in
  let on := λ _ : string,
    mkConfiguration true true [LanguageName "stylus"] false None in
  let off := λ _ : string,
    mkConfiguration false true [LanguageName "stylus"] false None in
  forwarded
    (run (λ _, false)
       [(on, Opened document); (on, Changed document);
        (off, ConfigurationChanged [document]); (off, Changed document)])
  = [DidOpen "file:///work/main.styl"; DidChange "file:///work/main.styl";
     DidClose "file:///work/main.styl"].
Proof. vm_compute. reflexivity. Qed.

End SyncFacts.


(** ** Activation of the client *)
Module ActivationFacts.
Import Client.

Lemma firstValidated_spec (validated : Document → bool)
    (textDocuments : list Document) (a : Activation) :
  (firstValidated validated textDocuments a = activateNow a ∧
   ∃ textDocument, textDocument ∈ textDocuments ∧
                   validated textDocument = true) ∨
  (firstValidated validated textDocuments a = a ∧
   ∀ textDocument, textDocument ∈ textDocuments →
                   validated textDocument = false).
Proof.
  induction textDocuments as [|d textDocuments IH]; simpl.
  - right. split; [done|]. intros d Hd. by apply elem_of_nil in Hd.
  - destruct (validated d) eqn:E.
    + left. split; [done|]. exists d. split; [by left|done].
    + destruct IH as [(-> & d' & Hd' & Hv)|(-> & Hall)].
      * left. split; [done|]. exists d'. split; [by right|done].
      * right. split; [done|]. intros d' Hd'.
        apply elem_of_cons in Hd' as [->|Hd']; [done|by apply Hall].
Qed.

Lemma activationStep_spec (a : Activation)
    (event : (string → Configuration) * ActivationEvent) :
  (activated a = true → activationStep a event = a) ∧
  (activated a = false →
     (activationStep a event = activateNow a ∧ showsValidated event) ∨
     (activationStep a event = a ∧ ¬ showsValidated event)).
Proof.
  unfold activationStep, showsValidated, didOpenTextDocument,
    configurationChanged.
  destruct event as [getConfiguration [d|textDocuments]]; cbn [fst snd].
  - split; [by intros ->|]. intros ->.
    destruct (shouldBeValidated _ d); [by left|right]. by split.
  - split; [by intros ->|]. intros ->.
    destruct (firstValidated_spec
                (λ textDocument,
                   shouldBeValidated (getConfiguration (uri textDocument))
                     textDocument) textDocuments a)
      as [(-> & d & Hd & Hv)|(-> & Hall)].
    + left. split; [done|]. by exists d.
    + right. split; [done|]. intros (d & Hd & Hv).
      specialize (Hall d Hd). simpl in Hall. congruence.
Qed.

Lemma fold_activationStep (a : Activation)
    (events : list ((string → Configuration) * ActivationEvent)) :
  let a' := fold_left activationStep events a in
  (activated a = true → a' = a) ∧
  (activated a = false →
     (a' = activateNow a ∧ Exists showsValidated events) ∨
     (a' = a ∧ Forall (λ event, ¬ showsValidated event) events)).
Proof.
  cbv zeta. revert a. induction events as [|event events IH]; intros a.
  - split; [done|]. intros _. right. by split.
  - cbn [fold_left]. destruct (activationStep_spec a event) as [Hon Hoff].
    split.
    + intros Ha. rewrite (Hon Ha). by apply IH.
    + intros Ha. destruct (Hoff Ha) as [[-> Hshows]|[-> Hnot]].
      * left. split; [by apply IH|]. by left.
      * destruct (proj2 (IH a) Ha) as [[-> Hex]|[-> Hall]].
        -- left. split; [done|]. by right.
        -- right. split; [done|]. by constructor.
Qed.

(** X25.  The client is activated at most once, and exactly when a
    document that is to be validated shows up.  Whatever documents are
    opened and however the configuration changes after [activate],
    [realActivate] is called once if the documents open at the start or
    one of the later events show a document that [shouldBeValidated]
    accepts under the configuration of that moment, and not at all
    otherwise. *)
Theorem activate_at_most_once (getConfiguration : string → Configuration)
    (textDocuments : list Document)
    (events : list ((string → Configuration) * ActivationEvent)) :
  let a := activate getConfiguration textDocuments events in
  let shown :=
    Exists showsValidated
      ((getConfiguration, ConfigurationTouched textDocuments) :: events) in
  (realActivations a ≤ 1)%nat ∧
  (realActivations a = 1%nat ↔ shown) ∧
  (activated a = true ↔ shown).
Proof.
  cbv zeta. unfold activate.
  pose proof (fold_activationStep (mkActivation false 0)
                ((getConfiguration, ConfigurationTouched textDocuments)
                   :: events)) as [_ Hrun].
  cbv zeta in Hrun. cbn [fold_left] in Hrun.
  destruct (Hrun eq_refl) as [[-> Hex]|[-> Hall]]; cbn.
  - split; [lia|]. by split.
  - split; [lia|].
    assert (¬ Exists showsValidated
                ((getConfiguration, ConfigurationTouched textDocuments)
                   :: events)) as Hnot.
    { intros Hex. apply Exists_exists in Hex as (event & Hin & Hshows).
      rewrite Forall_forall in Hall. by apply (Hall event). }
    split; split; try done; intros; by exfalso.
Qed.

(** Two documents of a validated language in a row: one activation. *)
Example activate_twice_opened :
  let on := λ _ : string,
    mkConfiguration true true [LanguageName "stylus"] false None in
  let document := λ name,
    mkDocument ("file:///work/" +:+ name) "stylus" (Some ("/work/" +:+ name)) in
  activate on []
    [(on, DocumentOpened (mkDocument "file:///work/a.js" "javascript" None));
     (on, DocumentOpened (document "a.styl"));
     (on, DocumentOpened (document "b.styl"));
     (on, ConfigurationTouched [document "a.styl"; document "b.styl"])]
  = mkActivation true 1.
Proof. vm_compute. reflexivity. Qed.

End ActivationFacts.


(** ** Requests that are answered *)
Section RequestFacts.
Context `{Platform}.
Import Fixes.

Lemma codeActionHandler_returns (st : State) (uri : string)
    (diagnostics : list Diagnostic.t) (document : TextDocument.t) :
  documents_get st uri = Some document →
  ∃ st1 result,
    codeActionHandler (CodeActionParams uri diagnostics) st
      = (st1, Returns (CodeActions result)) ∧
    sameQueue st st1 ∧ output st1 = output st ∧
    codeActions st1 = codeActions st.
Proof.
  intros Hdoc. unfold codeActionHandler. simpl codeActions.
  destruct (codeActions st !! uri) as [edits|]; [|by eexists _, _].
  destruct (isEmpty edits); [by eexists _, _|].
  replace (documents_get (with_commands (Some ∅) st) uri)
    with (Some document) by done.
  destruct (scopedLoop_spec uri document (getScoped edits diagnostics)
              (mkScopedLoop (-1) None ∅ [])) as (acc & -> & _).
  destruct (0 <? length (loopResult acc))%nat; [|by eexists _, _].
  destruct (bulkActions uri document acc (getAllSorted edits))
    as [commands' result].
  by eexists _, _.
Qed.

(** X26.  A code-action request for an open document is answered.
    When it is taken from the queue with its token not cancelled and the
    document still at the version recorded with it (or with no version
    recorded), the handler returns a list of actions, the promise of the
    request is resolved with it exactly once, nothing else is sent, the
    stored fixes are untouched, and the queue goes on: the timer is armed
    again if messages are left. *)
Theorem codeAction_request_resolved (st : State) (uri : string)
    (diagnostics : list Diagnostic.t) (document : TextDocument.t)
    (recorded : option Z) (id : nat) (token : CancellationToken)
    (rest : list Message) :
  queue st
    = Request "textDocument/codeAction" (CodeActionParams uri diagnostics)
        recorded id token :: rest →
  isCancellationRequested token = false →
  documents_get st uri = Some document →
  (recorded = None ∨ recorded = Some (TextDocument.version document)) →
  let st' := processQueue requestHandlers notificationHandlers st in
  ∃ result,
    output st' = output st ++ [Resolve id (CodeActions result)] ∧
    queue st' = rest ∧
    timer st' = timer st || negb (length rest =? 0)%nat ∧
    codeActions st' = codeActions st.
Proof.
  intros Hq Htoken Hdoc Hrecorded. cbv zeta.
  unfold processQueue. rewrite Hq, Htoken.
  replace (requestHandlers !! "textDocument/codeAction")
    with (Some (mkRegistered codeActionHandler (Some codeActionVersion)))
    by (unfold requestHandlers;
        by rewrite lookup_insert_ne, lookup_insert_eq by done).
  assert (versionChanged (mkRegistered codeActionHandler
                            (Some codeActionVersion)) recorded
            (CodeActionParams uri diagnostics) (with_queue rest st) = false)
    as ->.
  { unfold versionChanged. cbn [versionProvider codeActionVersion].
    replace (documents_get (with_queue rest st) uri) with (Some document)
      by done.
    destruct Hrecorded as [->| ->]; [done|].
    by rewrite bool_decide_eq_true_2. }
  cbn [handler].
  destruct (codeActionHandler_returns (with_queue rest st) uri diagnostics
              document Hdoc)
    as (st1 & result & -> & (Hq1 & Ht1 & _) & Ho1 & Hc1).
  cbn [isThenable]. exists result.
  rewrite trigger_arms. unfold trigger.
  destruct (timer _ || _); cbn [send with_timer output queue timer
                                codeActions];
    rewrite Ho1, Hq1, Ht1, Hc1; done.
Qed.

End RequestFacts.

Module RequestChecks.
Import Scenario.

Lemma codeAction_request_resolved_witness :
  let st :=
    with_queue
      [Request "textDocument/codeAction" (CodeActionParams uri [diagnosticS])
         (Some 6) 1 (mkToken false);
       Notification validateMethod (ValidateParams 0) (Some 6)]
      validated in
  let st' :=
    processQueue (requestHandlers (H := platform))
      (notificationHandlers (H := platform)) st in
  ∃ result,
    output st' = output st ++ [Resolve 1 (CodeActions result)] ∧
    queue st' = [Notification validateMethod (ValidateParams 0) (Some 6)] ∧
    timer st' = timer st || negb (1 =? 0)%nat ∧
    codeActions st' = codeActions st.
Proof.
  cbv zeta.
  apply (codeAction_request_resolved (H := platform) _ uri [diagnosticS]
           document (Some 6) 1%nat (mkToken false)
           [Notification validateMethod (ValidateParams 0) (Some 6)]).
  - reflexivity.
  - reflexivity.
  - vm_compute. reflexivity.
  - right. reflexivity.
Defined.

End RequestChecks.
